(** * dswizard: a shallow embedding of the bandit scheduler core

    The development follows the Python sources:
    - [dswizard/core/model.py]: [CandidateId], [Result],
      [CandidateStructure]
    - [dswizard/core/base_iteration.py]: the bracket state machine
      ([BaseIteration])
    - [hpbandster/optimizers/iterations/successiveresampling.py]: the
      resampling advancement policy
    - [dswizard/core/config_generator_cache.py]: the get-or-create cache
    - [dswizard/core/runhistory.py]: incumbent, trajectory and log loading

    Conventions.  Python floats (budgets, losses, time stamps) are modelled as
    exact rationals [Q] and compared with [Qeq_bool]/[Qle_bool]; rounding is
    outside the model.  Python ints are [Z], list positions are [nat].
    Objects that are shared by reference (candidate structures are held by the
    bracket's dict and by its callers at the same time) live in an explicit
    store and are named by their location. *)

From Stdlib Require Import ZArith QArith Qminmax List Lia Bool String.
From Stdlib Require Import Sorted Permutation.
From stdpp Require Import base list gmap sorting.
Import ListNotations.

Local Open Scope Z_scope.

(** ** Exceptions *)

(** The Python exceptions the modelled code can raise.  [Dangling] is not a
    Python exception: it marks a reference to an object that is not in the
    store, which no Python program can produce. *)
Inductive exn : Type :=
| RuntimeError
| AssertionError
| IndexError
| KeyError
| ValueError
| AttributeError
| ZeroDivisionError
| RecursionError
| TypeError
| Dangling.

#[global] Instance exn_eq_dec : EqDecision exn.
Proof. solve_decision. Defined.

(** ** Numbers *)

Definition Qltb (a b : Q) : bool := negb (Qle_bool b a).

(** ** Dictionaries in insertion order

    A Python [dict] iterates in insertion order, and assigning to a key that
    is already present keeps the key's position. *)

Section Dict.
Context {K V : Type} (eqb : K -> K -> bool).

Fixpoint dict_get (k : K) (d : list (K * V)) : option V :=
  match d with
  | [] => None
  | (k', v) :: d' => if eqb k' k then Some v else dict_get k d'
  end.

Fixpoint dict_set (k : K) (v : V) (d : list (K * V)) : list (K * V) :=
  match d with
  | [] => [(k, v)]
  | (k', v') :: d' =>
      if eqb k' k then (k', v) :: d' else (k', v') :: dict_set k v d'
  end.

Definition dict_keys (d : list (K * V)) : list K := map fst d.
End Dict.

(** ** model.py *)

Record CandidateId : Type := mkCandidateId {
  cid_iteration : Z;
  cid_structure : Z;
  cid_config : Z
}.

#[global] Instance CandidateId_eq_dec : EqDecision CandidateId.
Proof. solve_decision. Defined.

(** [CandidateId(iteration, structure)]: the config slot defaults to [-1]. *)
Definition new_CandidateId (iteration structure : Z) : CandidateId :=
  mkCandidateId iteration structure (-1).

Definition as_tuple (c : CandidateId) : Z * Z * Z :=
  (cid_iteration c, cid_structure c, cid_config c).

Definition with_config (c : CandidateId) (config : Z) : CandidateId :=
  mkCandidateId (cid_iteration c) (cid_structure c) config.

Definition without_config (c : CandidateId) : CandidateId :=
  new_CandidateId (cid_iteration c) (cid_structure c).

(** [__eq__] and [__lt__] compare the tuples. *)
Definition cid_eqb (a b : CandidateId) : bool :=
  (cid_iteration a =? cid_iteration b) &&
  (cid_structure a =? cid_structure b) &&
  (cid_config a =? cid_config b).

Definition cid_ltb (a b : CandidateId) : bool :=
  (cid_iteration a <? cid_iteration b) ||
  ((cid_iteration a =? cid_iteration b) &&
   ((cid_structure a <? cid_structure b) ||
    ((cid_structure a =? cid_structure b) &&
     (cid_config a <? cid_config b)))).

Inductive StatusType : Type :=
| SUCCESS | TIMEOUT | CRASHED_RUN | ABORT | MEMOUT | CAPPED.

(** The values the [status] attribute of a candidate structure takes. *)
Inductive Status : Type :=
| QUEUED | RUNNING | REVIEW | TERMINATED | CRASHED | COMPLETED.

#[global] Instance Status_eq_dec : EqDecision Status.
Proof. solve_decision. Defined.

Definition status_eqb (a b : Status) : bool := bool_decide (a = b).

(** A [Result].  The configuration, the runtime breakdown and the partial
    configurations are payload that the scheduler never inspects; they are
    kept as one opaque handle. *)
Record Result : Type := mkResult {
  res_status : option StatusType;
  res_loss : Q;
  res_payload : nat
}.

Record CandidateStructure : Type := mkCandidateStructure {
  cs_configspace : nat;
  cs_pipeline : nat;
  cs_budget : Q;
  cs_timeout : option Q;
  cs_model_based_pick : bool;
  cs_cid : option CandidateId;
  cs_id : option CandidateId;
  cs_status : Status;
  cs_results : list (Q * list Result);
  cs_timestamps : list (string * Q)
}.

(** [CandidateStructure(configspace, pipeline, budget, timeout, model_based_pick)] *)
Definition new_CandidateStructure (configspace pipeline : nat) (budget : Q)
    (timeout : option Q) (model_based_pick : bool) : CandidateStructure :=
  mkCandidateStructure configspace pipeline budget timeout model_based_pick
    None None QUEUED [] [].

Definition set_status (st : Status) (c : CandidateStructure) : CandidateStructure :=
  mkCandidateStructure (cs_configspace c) (cs_pipeline c) (cs_budget c)
    (cs_timeout c) (cs_model_based_pick c) (cs_cid c) (cs_id c) st
    (cs_results c) (cs_timestamps c).

Definition set_budget (b : Q) (c : CandidateStructure) : CandidateStructure :=
  mkCandidateStructure (cs_configspace c) (cs_pipeline c) b
    (cs_timeout c) (cs_model_based_pick c) (cs_cid c) (cs_id c) (cs_status c)
    (cs_results c) (cs_timestamps c).

Definition set_timeout (t : option Q) (c : CandidateStructure) : CandidateStructure :=
  mkCandidateStructure (cs_configspace c) (cs_pipeline c) (cs_budget c)
    t (cs_model_based_pick c) (cs_cid c) (cs_id c) (cs_status c)
    (cs_results c) (cs_timestamps c).

Definition set_id (i : CandidateId) (c : CandidateStructure) : CandidateStructure :=
  mkCandidateStructure (cs_configspace c) (cs_pipeline c) (cs_budget c)
    (cs_timeout c) (cs_model_based_pick c) (cs_cid c) (Some i) (cs_status c)
    (cs_results c) (cs_timestamps c).

Definition set_results (r : list (Q * list Result)) (c : CandidateStructure)
    : CandidateStructure :=
  mkCandidateStructure (cs_configspace c) (cs_pipeline c) (cs_budget c)
    (cs_timeout c) (cs_model_based_pick c) (cs_cid c) (cs_id c) (cs_status c)
    r (cs_timestamps c).

Definition set_timestamps (t : list (string * Q)) (c : CandidateStructure)
    : CandidateStructure :=
  mkCandidateStructure (cs_configspace c) (cs_pipeline c) (cs_budget c)
    (cs_timeout c) (cs_model_based_pick c) (cs_cid c) (cs_id c) (cs_status c)
    (cs_results c) t.

(** [time_it(which_time)]: the clock reading is an input. *)
Definition time_it (which_time : string) (now : Q) (c : CandidateStructure)
    : CandidateStructure :=
  set_timestamps (dict_set String.eqb which_time now (cs_timestamps c)) c.

(** [min(results, key=lambda res: res.loss)]: the first element of least loss. *)
Fixpoint min_by_loss (best : Result) (rs : list Result) : Result :=
  match rs with
  | [] => best
  | r :: rs' =>
      if Qltb (res_loss r) (res_loss best) then min_by_loss r rs'
      else min_by_loss best rs'
  end.

(** [max(self.results.keys())] *)
Fixpoint max_key {V : Type} (best : Q) (d : list (Q * V)) : Q :=
  match d with
  | [] => best
  | (k, _) :: d' => if Qltb best k then max_key k d' else max_key best d'
  end.

(** [get_incumbent(budget=None)] *)
Definition get_incumbent (c : CandidateStructure) (budget : option Q)
    : exn + Result :=
  let budget' :=
    match budget with
    | Some b => inr b
    | None =>
        match cs_results c with
        | [] => inl ValueError
        | (k, _) :: d' => inr (max_key k d')
        end
    end in
  match budget' with
  | inl e => inl e
  | inr b =>
      match dict_get Qeq_bool b (cs_results c) with
      | None => inl KeyError
      | Some [] => inl ValueError
      | Some (r :: rs) => inr (min_by_loss r rs)
      end
  end.

(** [add_result(result, budget=None)]:
    [self.results.setdefault(budget, []).append(result)] *)
Definition add_result (c : CandidateStructure) (result : Result)
    (budget : option Q) : CandidateStructure :=
  let b := match budget with Some b => b | None => cs_budget c end in
  let old := match dict_get Qeq_bool b (cs_results c) with
             | Some l => l
             | None => []
             end in
  set_results (dict_set Qeq_bool b (old ++ [result]) (cs_results c)) c.

(** ** The object store and the bracket state *)

(** References into a store are positions in it. *)
Abbreviation loc := nat (only parsing).

(** The attributes of a [BaseIteration] that the state machine reads or
    writes.  [data] maps ids to (references to) candidate structures. *)
Record Iteration : Type := mkIteration {
  data : list (CandidateId * loc);
  is_finished : bool;
  iteration : Z;
  stage : nat;
  budgets : list Q;
  timeout : option Q;
  num_candidates : list Z;
  actual_num_candidates : list Z;
  num_running : Z
}.

(** A bracket together with the store of candidate structures. *)
Record St : Type := mkSt {
  self : Iteration;
  heap : list CandidateStructure
}.

(** [BaseIteration.__init__] *)
Definition init (iteration : Z) (num_candidates : list Z) (budgets : list Q)
    (timeout : option Q) : Iteration :=
  mkIteration [] false iteration 0%nat budgets timeout num_candidates
    (replicate (length num_candidates) 0) 0.

Definition set_data (d : list (CandidateId * loc)) (i : Iteration) : Iteration :=
  mkIteration d (is_finished i) (iteration i) (stage i) (budgets i) (timeout i)
    (num_candidates i) (actual_num_candidates i) (num_running i).

Definition set_is_finished (b : bool) (i : Iteration) : Iteration :=
  mkIteration (data i) b (iteration i) (stage i) (budgets i) (timeout i)
    (num_candidates i) (actual_num_candidates i) (num_running i).

Definition set_stage (n : nat) (i : Iteration) : Iteration :=
  mkIteration (data i) (is_finished i) (iteration i) n (budgets i) (timeout i)
    (num_candidates i) (actual_num_candidates i) (num_running i).

Definition set_actual_num_candidates (a : list Z) (i : Iteration) : Iteration :=
  mkIteration (data i) (is_finished i) (iteration i) (stage i) (budgets i)
    (timeout i) (num_candidates i) a (num_running i).

Definition set_num_running (n : Z) (i : Iteration) : Iteration :=
  mkIteration (data i) (is_finished i) (iteration i) (stage i) (budgets i)
    (timeout i) (num_candidates i) (actual_num_candidates i) n.

(** ** A state-and-exception monad

    An exception leaves the mutations made before it in place, so a raised
    outcome carries the state at the point of the [raise]. *)

Inductive outcome (A : Type) : Type :=
| Return (s : St) (a : A)
| Raise (s : St) (e : exn).
Arguments Return {A} s a.
Arguments Raise {A} s e.

Definition state_of {A : Type} (o : outcome A) : St :=
  match o with
  | Return s _ => s
  | Raise s _ => s
  end.

Definition M (A : Type) : Type := St -> outcome A.

Definition ret {A : Type} (a : A) : M A := fun s => Return s a.

Definition raise {A : Type} (e : exn) : M A := fun s => Raise s e.

Definition bind {A B : Type} (m : M A) (k : A -> M B) : M B :=
  fun s =>
    match m s with
    | Return s' a => k a s'
    | Raise s' e => Raise s' e
    end.

Notation "'do' x <- m ; k" := (bind m (fun x => k))
  (at level 10, x name, m at level 100, k at level 200,
   format "'[v' 'do'  x  <-  m ; '/' k ']'").
Notation "'run' m ; k" := (bind m (fun _ => k))
  (at level 10, m at level 100, k at level 200,
   format "'[v' 'run'  m ; '/' k ']'").

Definition get_self : M Iteration := fun s => Return s (self s).

Definition modify_self (f : Iteration -> Iteration) : M unit :=
  fun s => Return (mkSt (f (self s)) (heap s)) tt.

(** Dereference an object. *)
Definition load (l : loc) : M CandidateStructure :=
  fun s =>
    match heap s !! l with
    | Some c => Return s c
    | None => Raise s Dangling
    end.

(** Mutate an object in place. *)
Definition modify_obj (l : loc) (f : CandidateStructure -> CandidateStructure)
    : M unit :=
  do c <- load l ;
  fun s => Return (mkSt (self s) (<[l := f c]> (heap s))) tt.

(** A newly constructed object. *)
Definition alloc (c : CandidateStructure) : M loc :=
  fun s => Return (mkSt (self s) (heap s ++ [c])) (length (heap s)).

(** [xs[i]] for a list and a non-negative position. *)
Definition index {A : Type} (xs : list A) (i : nat) : M A :=
  match xs !! i with
  | Some x => ret x
  | None => raise IndexError
  end.

Definition lift {A : Type} (r : exn + A) : M A :=
  match r with
  | inl e => raise e
  | inr a => ret a
  end.

Fixpoint mapM {A B : Type} (f : A -> M B) (xs : list A) : M (list B) :=
  match xs with
  | [] => ret []
  | x :: xs' => do y <- f x ; do ys <- mapM f xs' ; ret (y :: ys)
  end.

(** [self.data[cid]] *)
Definition data_lookup (cid : CandidateId) : M loc :=
  do it <- get_self ;
  match dict_get cid_eqb cid (data it) with
  | Some l => ret l
  | None => raise KeyError
  end.

(** [list(filter(lambda cid: self.data[cid].status == st, self.data.keys()))] *)
Fixpoint filter_status (st : Status) (keys : list CandidateId)
    : M (list CandidateId) :=
  match keys with
  | [] => ret []
  | cid :: keys' =>
      do l <- data_lookup cid ;
      do c <- load l ;
      do rest <- filter_status st keys' ;
      ret (if status_eqb (cs_status c) st then cid :: rest else rest)
  end.

Definition keys_with_status (st : Status) : M (list CandidateId) :=
  do it <- get_self ;
  filter_status st (dict_keys (data it)).

(** [len(set(budgets))] *)
Fixpoint distinct (xs : list Q) : list Q :=
  match xs with
  | [] => []
  | x :: xs' =>
      if existsb (Qeq_bool x) xs' then distinct xs' else x :: distinct xs'
  end.

(** ** base_iteration.py *)

(** The advancement policy [_advance_to_next_stage(losses)] is abstract in
    [BaseIteration]; it sees the bracket's attributes and the loss vector
    and returns one boolean per loss (or raises). *)
Definition Policy : Type := Iteration -> list Q -> exn + list bool.

Definition register_result (cs : loc) : M unit :=
  do it <- get_self ;
  if is_finished it then raise RuntimeError
  else
    run modify_obj cs (set_status REVIEW) ;
    modify_self (fun it => set_num_running (num_running it - 1) it).

(** [_add_candidate]; [gen] is the object that
    [structure_generator.get_candidate()] constructs for this call.  The
    write to the result logger is not modelled. *)
Definition _add_candidate (gen : CandidateStructure) : M loc :=
  do it <- get_self ;
  if is_finished it then raise RuntimeError
  else
    do a <- index (actual_num_candidates it) (stage it) ;
    do n <- index (num_candidates it) (stage it) ;
    if a =? n then raise RuntimeError
    else
      do candidate <- alloc gen ;
      run modify_obj candidate (set_timeout (timeout it)) ;
      do b <- index (budgets it) (stage it) ;
      run modify_obj candidate (set_budget b) ;
      let candidate_id := new_CandidateId (iteration it) a in
      run modify_obj candidate (set_id candidate_id) ;
      run modify_self (fun it =>
        set_data (dict_set cid_eqb candidate_id candidate (data it)) it) ;
      run modify_self (fun it =>
        set_actual_num_candidates
          (<[stage it := a + 1]> (actual_num_candidates it)) it) ;
      ret candidate.

(** The loop of [_finish_up] over [self.data.items()]. *)
Fixpoint finish_up_loop (items : list (CandidateId * loc)) : M unit :=
  match items with
  | [] => ret tt
  | (_, v) :: items' =>
      do c <- load v ;
      match cs_status c with
      | TERMINATED | REVIEW | CRASHED =>
          run modify_obj v (set_status COMPLETED) ;
          finish_up_loop items'
      | _ => raise AssertionError
      end
  end.

Definition _finish_up : M unit :=
  run modify_self (set_is_finished true) ;
  do it <- get_self ;
  finish_up_loop (data it).

(** The loop [for i, cid in enumerate(candidate_ids)] of [_finish_stage];
    [advance] is the part of the policy's vector from position [i] on. *)
Fixpoint advance_loop (candidate_ids : list CandidateId) (advance : list bool)
    : M unit :=
  match candidate_ids with
  | [] => ret tt
  | cid :: candidate_ids' =>
      match advance with
      | [] => raise IndexError
      | true :: advance' =>
          do it <- get_self ;
          do b <- index (budgets it) (stage it) ;
          do candidate <- data_lookup cid ;
          run modify_obj candidate (set_status QUEUED) ;
          run modify_obj candidate (set_budget b) ;
          do a <- index (actual_num_candidates it) (stage it) ;
          run modify_self (fun it =>
            set_actual_num_candidates
              (<[stage it := a + 1]> (actual_num_candidates it)) it) ;
          advance_loop candidate_ids' advance'
      | false :: advance' =>
          do l <- data_lookup cid ;
          run modify_obj l (set_status TERMINATED) ;
          advance_loop candidate_ids' advance'
      end
  end.

Definition _finish_stage (policy : Policy) : M unit :=
  run modify_self (fun it => set_stage (S (stage it)) it) ;
  do candidate_ids <- keys_with_status REVIEW ;
  do it <- get_self ;
  if (length (num_candidates it) <=? stage it)%nat then _finish_up
  else
    do bs <- mapM (fun cid => do l <- data_lookup cid ; do c <- load l ;
                           ret (cs_budget c)) candidate_ids ;
    if (1 <? length (distinct bs))%nat then raise RuntimeError
    else
      do budget <- index (budgets it) (stage it - 1)%nat ;
      do losses <- mapM (fun cid => do l <- data_lookup cid ; do c <- load l ;
                                 do r <- lift (get_incumbent c (Some budget)) ;
                                 ret (res_loss r)) candidate_ids ;
      do advance <- lift (policy it losses) ;
      advance_loop candidate_ids advance.

(** The body of [get_next_candidate]; [recurse] stands for the call
    [self.get_next_candidate()] in its last branch. *)
Definition get_next_candidate_body (policy : Policy) (gen : CandidateStructure)
    (recurse : M (option loc)) : M (option loc) :=
  do it <- get_self ;
  if is_finished it then ret None
  else
    do candidates <- keys_with_status QUEUED ;
    match candidates with
    | cid :: _ =>
        do candidate <- data_lookup cid ;
        do c <- load candidate ;
        do b <- index (budgets it) (stage it) ;
        if Qeq_bool (cs_budget c) b then
          run modify_obj candidate (set_status RUNNING) ;
          run modify_self (fun it => set_num_running (num_running it + 1) it) ;
          ret (Some candidate)
        else raise AssertionError
    | [] =>
        do a <- index (actual_num_candidates it) (stage it) ;
        do n <- index (num_candidates it) (stage it) ;
        if a <? n then
          do candidate <- _add_candidate gen ;
          run modify_obj candidate (set_status RUNNING) ;
          run modify_self (fun it => set_num_running (num_running it + 1) it) ;
          ret (Some candidate)
        else if num_running it =? 0 then
          run _finish_stage policy ;
          recurse
        else ret None
    end.

(** [get_next_candidate] calls itself after [_finish_stage]; [fuel] bounds
    the depth of that recursion, and running out of it is reported as
    [RecursionError]. *)
Fixpoint get_next_candidate_rec (fuel : nat) (policy : Policy)
    (gen : CandidateStructure) : M (option loc) :=
  get_next_candidate_body policy gen
    match fuel with
    | O => raise RecursionError
    | S fuel' => get_next_candidate_rec fuel' policy gen
    end.

(** Every recursive call follows a stage increment, so the number of stages
    is enough fuel. *)
Definition get_next_candidate (policy : Policy) (gen : CandidateStructure)
    : M (option loc) :=
  fun s => get_next_candidate_rec (length (num_candidates (self s))) policy gen s.

(** ** Stable sorting

    [sorted], [list.sort] and [np.argsort] are modelled by a stable
    insertion sort on a key: an element is placed in front of the first
    element of the sorted tail whose key is not smaller than its own. *)

Section Sorting.
Context {A K : Type} (ltb : K -> K -> bool) (key : A -> K).

Fixpoint insert_by (x : A) (l : list A) : list A :=
  match l with
  | [] => [x]
  | y :: l' =>
      if ltb (key y) (key x) then y :: insert_by x l' else x :: y :: l'
  end.

Fixpoint sort_by (l : list A) : list A :=
  match l with
  | [] => []
  | x :: l' => insert_by x (sort_by l')
  end.
End Sorting.

(** [np.argsort(xs)]: the positions of [xs] in ascending order of value. *)
Definition argsort {K : Type} (ltb : K -> K -> bool) (xs : list K) : list nat :=
  map snd (sort_by ltb fst (zip xs (seq 0 (length xs)))).

(** [np.argsort(np.argsort(losses))]: the rank of every loss. *)
Definition double_rank (losses : list Q) : list nat :=
  argsort Nat.ltb (argsort Qltb losses).

(** Python's [max(a, b)]: [b] only when it is strictly larger. *)
Definition py_max (a b : Q) : Q := if Qltb a b then b else a.

(** ** successiveresampling.py *)

(** [SuccessiveResampling._advance_to_next_stage(losses)], for an iteration
    with attributes [min_samples_advance], [resampling_rate], [num_configs]
    and [stage]. *)
Definition _advance_to_next_stage (min_samples_advance : Z)
    (resampling_rate : Q) (num_configs : list Z) (stage : nat)
    (losses : list Q) : exn + list bool :=
  let ranks := double_rank losses in
  match num_configs !! stage with
  | None => inl IndexError
  | Some n =>
      let bound := py_max (inject_Z min_samples_advance)
                          (inject_Z n * (1 - resampling_rate))%Q in
      inr (map (fun r => Qltb (inject_Z (Z.of_nat r)) bound) ranks)
  end.

(** The resampling policy plugged into a bracket. *)
Definition SuccessiveResampling (min_samples_advance : Z) (resampling_rate : Q)
    : Policy :=
  fun it losses =>
    _advance_to_next_stage min_samples_advance resampling_rate
      (num_candidates it) (stage it) losses.

(** Modelled from the spec: the successive-halving policy, whose class is not
    among the sources: "rank losses ascending, keep the best
    [numCandidates[nextStage]]". *)
Definition SuccessiveHalving : Policy :=
  fun it losses =>
    match num_candidates it !! stage it with
    | None => inl IndexError
    | Some n =>
        inr (map (fun r => Z.of_nat r <? n) (double_rank losses))
    end.

(** ** Operations of a bracket and its callers *)

(** What can happen to a bracket and to the candidate structures it shares
    with the orchestrator: the four methods of [BaseIteration], and
    [CandidateStructure.add_result] called from the result callback. *)
Inductive op : Type :=
| OpGetNext (gen : CandidateStructure)
| OpRegister (cs : loc)
| OpAddCandidate (gen : CandidateStructure)
| OpFinishStage
| OpAddResult (cs : loc) (result : Result) (budget : option Q).

Definition forget {A : Type} (o : outcome A) : outcome unit :=
  match o with
  | Return s _ => Return s tt
  | Raise s e => Raise s e
  end.

Definition exec (policy : Policy) (o : op) (s : St) : outcome unit :=
  match o with
  | OpGetNext gen => forget (get_next_candidate policy gen s)
  | OpRegister cs => register_result cs s
  | OpAddCandidate gen => forget (_add_candidate gen s)
  | OpFinishStage => _finish_stage policy s
  | OpAddResult cs result budget =>
      modify_obj cs (fun c => add_result c result budget) s
  end.

(** The state after a sequence of operations; an exception is survived by
    the caller, the mutations made before it stay. *)
Fixpoint exec_all (policy : Policy) (ops : list op) (s : St) : St :=
  match ops with
  | [] => s
  | o :: ops' => exec_all policy ops' (state_of (exec policy o s))
  end.

Inductive reachable (policy : Policy) (s0 : St) : St -> Prop :=
| reach_init : reachable policy s0 s0
| reach_step s o :
    reachable policy s0 s ->
    reachable policy s0 (state_of (exec policy o s)).

(** ** config_generator_cache.py *)

(** A pipeline, as far as the cache looks at it: its search space, which is
    the dict key ([ConfigurationSpace] hashes and compares by content), and
    an opaque handle for the rest. *)
Record Pipeline : Type := mkPipeline {
  configuration_space : nat;
  pipeline_steps : nat
}.

(** An instance of the configured generator class [clazz], with the
    arguments it was constructed from and the jobs routed to it. *)
Record ConfigGenerator : Type := mkConfigGenerator {
  cg_configspace : nat;
  cg_pipeline : Pipeline;
  cg_jobs : list nat
}.

(** The cache: [cache] maps a search space to (a reference to) its
    generator; [instances] is the store of generator objects, which grows by
    one with every call of the constructor. *)
Record ConfigGeneratorCache : Type := mkCache {
  cache : gmap nat loc;
  instances : list ConfigGenerator
}.

Definition new_ConfigGeneratorCache : ConfigGeneratorCache := mkCache ∅ [].

(** [get(pipeline)] *)
Definition get (c : ConfigGeneratorCache) (pipeline : Pipeline)
    : ConfigGeneratorCache * loc :=
  let configspace := configuration_space pipeline in
  match cache c !! configspace with
  | Some cg => (c, cg)
  | None =>
      let cg := length (instances c) in
      (mkCache (<[configspace := cg]> (cache c))
               (instances c ++ [mkConfigGenerator configspace pipeline []]),
       cg)
  end.

(** [register_result(job)]: a [KeyError] is swallowed. *)
Definition cache_register_result (c : ConfigGeneratorCache)
    (job_pipeline : Pipeline) (job : nat) : ConfigGeneratorCache :=
  match cache c !! configuration_space job_pipeline with
  | Some cg =>
      match instances c !! cg with
      | Some g =>
          mkCache (cache c)
            (<[cg := mkConfigGenerator (cg_configspace g) (cg_pipeline g)
                       (cg_jobs g ++ [job])]> (instances c))
      | None => c
      end
  | None => c
  end.

(** A sequence of [get] calls and the references they return. *)
Fixpoint get_all (c : ConfigGeneratorCache) (ps : list Pipeline)
    : ConfigGeneratorCache * list loc :=
  match ps with
  | [] => (c, [])
  | p :: ps' =>
      let '(c1, l) := get c p in
      let '(c2, ls) := get_all c1 ps' in
      (c2, l :: ls)
  end.

(** The number of constructor calls made for a search space. *)
Definition constructions (c : ConfigGeneratorCache) (configspace : nat) : nat :=
  length (filter (fun g => cg_configspace g = configspace) (instances c)).

(** ** runhistory.py *)

(** A float that may be [float('inf')]. *)
Inductive xfloat : Type :=
| Fin (q : Q)
| PosInf.

Record TimeStamps : Type := mkTimeStamps {
  submitted : Q;
  started : Q;
  finished : Q
}.

(** What [Datum.results] holds for a budget: [None], the bare loss that the
    results log stores, or an object with the attributes [loss] and [info]. *)
Inductive ResultValue : Type :=
| ResNone
| ResFloat (loss : Q)
| ResObject (loss : option Q) (info : nat).

(** [ConfigId] and [Datum] are imported from [model.py] but not defined in
    the version under [src]: [ConfigId] is taken to be the id triple, and
    [Datum] is modelled from the attributes [runhistory.py] uses. *)
Record Datum : Type := mkDatum {
  d_config : nat;
  d_config_info : option nat;
  results : list (Q * ResultValue);
  time_stamps : list (Q * TimeStamps);
  exceptions : list (Q * option nat)
}.

(** The dict [HB_config] with the keys [logged_results_to_runhistory]
    puts in it. *)
Record HBConfig : Type := mkHBConfig {
  eta : option Q;
  min_budget : Q;
  max_budget : Q;
  hb_budgets : list Q;
  max_SH_iter : nat;
  time_ref : Q
}.

Record RunHistory : Type := mkRunHistory {
  HB_config : HBConfig;
  rh_data : list (CandidateId * Datum)
}.

Record Run : Type := mkRun {
  config_id : CandidateId;
  budget : Q;
  loss : option Q;
  info : option nat;
  run_time_stamps : TimeStamps;
  error_logs : option nat
}.

Definition rebase (ref : Q) (t : TimeStamps) : TimeStamps :=
  mkTimeStamps (submitted t - ref)%Q (started t - ref)%Q (finished t - ref)%Q.

(** [_merge_results]: later dicts overwrite earlier ones, then every time
    stamp is rebased. *)
Definition _merge_results (cfg : HBConfig)
    (iteration_data : list (list (CandidateId * Datum)))
    : list (CandidateId * Datum) :=
  let new_dict :=
    fold_left
      (fun acc it =>
         fold_left (fun acc kv => dict_set cid_eqb (fst kv) (snd kv) acc) it acc)
      iteration_data [] in
  map (fun kv =>
         (fst kv,
          mkDatum (d_config (snd kv)) (d_config_info (snd kv))
            (results (snd kv))
            (map (fun bt => (fst bt, rebase (time_ref cfg) (snd bt)))
                 (time_stamps (snd kv)))
            (exceptions (snd kv))))
      new_dict.

(** [RunHistory(HB_iteration_data, HB_config)] *)
Definition new_RunHistory (iteration_data : list (list (CandidateId * Datum)))
    (cfg : HBConfig) : RunHistory :=
  mkRunHistory cfg (_merge_results cfg iteration_data).

(** [(loss1, id1) < (loss2, id2)] on tuples: the first components decide
    unless they are equal; comparing [None] with a float is a [TypeError]. *)
Definition tuple_lt (a b : option Q * CandidateId) : exn + bool :=
  match fst a, fst b with
  | None, None => inr (cid_ltb (snd a) (snd b))
  | Some x, Some y =>
      if Qeq_bool x y then inr (cid_ltb (snd a) (snd b)) else inr (Qltb x y)
  | _, _ => inl TypeError
  end.

(** [min(tmp_list)] *)
Fixpoint min_tuple (best : option Q * CandidateId)
    (rest : list (option Q * CandidateId)) : exn + (option Q * CandidateId) :=
  match rest with
  | [] => inr best
  | x :: rest' =>
      match tuple_lt x best with
      | inl e => inl e
      | inr true => min_tuple x rest'
      | inr false => min_tuple best rest'
      end
  end.

(** The loop of [get_incumbent_id]: only a [KeyError] is caught. *)
Fixpoint collect_max_budget (max_b : Q) (items : list (CandidateId * Datum))
    : exn + list (option Q * CandidateId) :=
  match items with
  | [] => inr []
  | (k, v) :: items' =>
      match dict_get Qeq_bool max_b (results v) with
      | None => collect_max_budget max_b items'
      | Some ResNone => collect_max_budget max_b items'
      | Some (ResFloat _) => inl AttributeError
      | Some (ResObject l _) =>
          match collect_max_budget max_b items' with
          | inl e => inl e
          | inr tmp => inr ((l, k) :: tmp)
          end
      end
  end.

Definition get_incumbent_id (rh : RunHistory) : exn + option CandidateId :=
  match collect_max_budget (max_budget (HB_config rh)) (rh_data rh) with
  | inl e => inl e
  | inr [] => inr None
  | inr (t :: tmp) =>
      match min_tuple t tmp with
      | inl e => inl e
      | inr m => inr (Some (snd m))
      end
  end.

(** The loop of [get_runs_by_id] over [d.results.keys()]. *)
Fixpoint runs_of (config_id : CandidateId) (d : Datum)
    (rs : list (Q * ResultValue)) : exn + list Run :=
  match rs with
  | [] => inr []
  | (b, res) :: rs' =>
      let err_logs := match dict_get Qeq_bool b (exceptions d) with
                      | Some e => e
                      | None => None
                      end in
      match dict_get Qeq_bool b (time_stamps d) with
      | None => inl KeyError
      | Some ts =>
          let r := match res with
                   | ResNone => mkRun config_id b None None ts err_logs
                   | ResFloat l => mkRun config_id b (Some l) None ts err_logs
                   | ResObject l i => mkRun config_id b l (Some i) ts err_logs
                   end in
          match runs_of config_id d rs' with
          | inl e => inl e
          | inr runs => inr (r :: runs)
          end
      end
  end.

Definition get_runs_by_id (rh : RunHistory) (config_id : CandidateId)
    : exn + list Run :=
  match dict_get cid_eqb config_id (rh_data rh) with
  | None => inl KeyError
  | Some d =>
      match runs_of config_id d (results d) with
      | inl e => inl e
      | inr runs => inr (sort_by Qltb budget runs)
      end
  end.

Fixpoint all_runs_of (rh : RunHistory) (only_largest_budget : bool)
    (keys : list CandidateId) : exn + list Run :=
  match keys with
  | [] => inr []
  | k :: keys' =>
      match get_runs_by_id rh k with
      | inl e => inl e
      | inr runs =>
          match all_runs_of rh only_largest_budget keys' with
          | inl e => inl e
          | inr rest =>
              inr ((if only_largest_budget
                    then match last runs with Some r => [r] | None => [] end
                    else runs) ++ rest)
          end
      end
  end.

Definition get_all_runs (rh : RunHistory) (only_largest_budget : bool)
    : exn + list Run :=
  all_runs_of rh only_largest_budget (dict_keys (rh_data rh)).

(** The dict of four parallel lists that [get_incumbent_trajectory] returns. *)
Record Trajectory : Type := mkTrajectory {
  config_ids : list CandidateId;
  times_finished : list Q;
  traj_budgets : list Q;
  losses : list Q
}.

Definition xlt (a : Q) (b : xfloat) : bool :=
  match b with
  | Fin q => Qltb a q
  | PosInf => true
  end.

(** [current_incumbent != r.loss] *)
Definition differs (current : xfloat) (l : option Q) : bool :=
  match current, l with
  | Fin q, Some x => negb (Qeq_bool q x)
  | _, _ => true
  end.

(** The running values of the scan: [current_incumbent], [incumbent_budget]
    and [return_dict]. *)
Definition scan_state : Type := xfloat * Q * Trajectory.

(** One iteration of [for r in all_runs]. *)
Definition scan_step (bigger_is_better non_decreasing_budget : bool)
    (acc : scan_state) (r : Run) : scan_state :=
  let '(current_incumbent, incumbent_budget, return_dict) := acc in
  match loss r with
  | None => acc
  | Some l =>
      let new_incumbent := false in
      let new_incumbent :=
        if bigger_is_better && Qltb incumbent_budget (budget r)
        then true else new_incumbent in
      let new_incumbent :=
        if xlt l current_incumbent then true else new_incumbent in
      let new_incumbent :=
        if non_decreasing_budget && Qltb (budget r) incumbent_budget
        then false else new_incumbent in
      if new_incumbent then
        (Fin l, budget r,
         mkTrajectory (config_ids return_dict ++ [config_id r])
           (times_finished return_dict ++ [finished (run_time_stamps r)])
           (traj_budgets return_dict ++ [budget r])
           (losses return_dict ++ [l]))
      else acc
  end.

Definition empty_trajectory : Trajectory := mkTrajectory [] [] [] [].

(** The scan of [get_incumbent_trajectory] over the runs it selected:
    sort by finish time, accept incumbents, close the trajectory. *)
Definition incumbent_trajectory_of (cfg : HBConfig)
    (bigger_is_better non_decreasing_budget : bool) (all_runs : list Run)
    : exn + Trajectory :=
  let all_runs := sort_by Qltb (fun r => finished (run_time_stamps r)) all_runs in
  match last all_runs with
  | None => inr empty_trajectory
  | Some r =>
      let '(current_incumbent, _, return_dict) :=
        fold_left (scan_step bigger_is_better non_decreasing_budget) all_runs
                  (PosInf, min_budget cfg, empty_trajectory) in
      if differs current_incumbent (loss r) then
        match last (config_ids return_dict), last (traj_budgets return_dict),
              last (losses return_dict) with
        | Some i, Some b, Some l =>
            inr (mkTrajectory (config_ids return_dict ++ [i])
                   (times_finished return_dict ++ [finished (run_time_stamps r)])
                   (traj_budgets return_dict ++ [b])
                   (losses return_dict ++ [l]))
        | _, _, _ => inl IndexError
        end
      else inr return_dict
  end.

Definition get_incumbent_trajectory (rh : RunHistory)
    (all_budgets bigger_is_better non_decreasing_budget : bool)
    : exn + Trajectory :=
  match get_all_runs rh (negb all_budgets) with
  | inl e => inl e
  | inr all_runs =>
      let all_runs :=
        if all_budgets then all_runs
        else List.filter
               (fun r => Qeq_bool (budget r) (max_budget (HB_config rh)))
               all_runs in
      incumbent_trajectory_of (HB_config rh) bigger_is_better
        non_decreasing_budget all_runs
  end.

(** *** Loading the two logs

    The JSON lines are taken as already parsed: a configs line is an id with
    a configuration, a search space and optional info; a results line is
    [[id, budget, {submitted, started, finished}, loss|null, exception|null]]. *)

Record ConfigRecord : Type := mkConfigRecord {
  cr_id : CandidateId;
  cr_config : nat;
  cr_info : option nat
}.

Record ResultRecord : Type := mkResultRecord {
  rr_id : CandidateId;
  rr_budget : Q;
  rr_time_stamps : TimeStamps;
  rr_result : option Q;
  rr_exception : option nat
}.

(** [Datum(config=config, config_info=config_info)] *)
Definition new_Datum (config : nat) (config_info : option nat) : Datum :=
  mkDatum config config_info [] [] [].

(** [budget_set.add(budget)] *)
Definition set_add (b : Q) (s : list Q) : list Q :=
  if existsb (Qeq_bool b) s then s else s ++ [b].

(** [min(time_ref, t)] *)
Definition xmin (time_ref : xfloat) (t : Q) : xfloat :=
  match time_ref with
  | PosInf => Fin t
  | Fin q => if Qltb t q then Fin t else Fin q
  end.

(** [min(budget_set)] and [max(budget_set)] for a set with least one element *)
Definition py_min_list (b : Q) (bs : list Q) : Q :=
  fold_left (fun m x => if Qltb x m then x else m) bs b.

Definition py_max_list (b : Q) (bs : list Q) : Q :=
  fold_left (fun m x => if Qltb m x then x else m) bs b.

(** The state of the second loop: [data], [time_ref] and [budget_set]. *)
Definition load_state : Type := list (CandidateId * Datum) * xfloat * list Q.

Definition read_result (acc : load_state) (line : ResultRecord)
    : exn + load_state :=
  let '(data, time_ref, budget_set) := acc in
  match dict_get cid_eqb (rr_id line) data with
  | None => inl KeyError
  | Some d =>
      let d' :=
        mkDatum (d_config d) (d_config_info d)
          (dict_set Qeq_bool (rr_budget line)
             (match rr_result line with
              | Some l => ResFloat l
              | None => ResNone
              end) (results d))
          (dict_set Qeq_bool (rr_budget line) (rr_time_stamps line)
             (time_stamps d))
          (dict_set Qeq_bool (rr_budget line) (rr_exception line)
             (exceptions d)) in
      inr (dict_set cid_eqb (rr_id line) d' data,
           xmin time_ref (submitted (rr_time_stamps line)),
           set_add (rr_budget line) budget_set)
  end.

Fixpoint read_results (acc : load_state) (lines : list ResultRecord)
    : exn + load_state :=
  match lines with
  | [] => inr acc
  | line :: lines' =>
      match read_result acc line with
      | inl e => inl e
      | inr acc' => read_results acc' lines'
      end
  end.

Definition read_configs (lines : list ConfigRecord)
    : list (CandidateId * Datum) :=
  fold_left
    (fun data line =>
       dict_set cid_eqb (cr_id line)
         (new_Datum (cr_config line) (cr_info line)) data)
    lines [].

(** The dict literal [HB_config = {...}], evaluated in key order. *)
Definition infer_HB_config (time_ref : xfloat) (budget_set : list Q)
    : exn + HBConfig :=
  let budget_list := sort_by Qltb (fun b => b) budget_set in
  let eta :=
    match budget_list with
    | b0 :: b1 :: _ =>
        if Qeq_bool b0 0 then inl ZeroDivisionError else inr (Some (b1 / b0)%Q)
    | _ => inr None
    end in
  match eta with
  | inl e => inl e
  | inr eta =>
      match budget_set, time_ref with
      | [], _ => inl ValueError
      | b :: bs, Fin t =>
          inr (mkHBConfig eta (py_min_list b bs) (py_max_list b bs)
                 budget_list (length budget_set) t)
      | _ :: _, PosInf =>
          (* not reached: [time_ref] is finite once a line was read *)
          inl ValueError
      end
  end.

Definition logged_results_to_runhistory (configs : list ConfigRecord)
    (result_lines : list ResultRecord) : exn + RunHistory :=
  let data := read_configs configs in
  match read_results (data, PosInf, []) result_lines with
  | inl e => inl e
  | inr (data, time_ref, budget_set) =>
      match infer_HB_config time_ref budget_set with
      | inl e => inl e
      | inr cfg => inr (new_RunHistory [data] cfg)
      end
  end.

(** ** Vocabulary of the statements *)

(** The capacity invariant of a bracket. *)
Definition capacity_respected (it : Iteration) : Prop :=
  forall i a n,
    actual_num_candidates it !! i = Some a ->
    num_candidates it !! i = Some n ->
    a <= n.

Definition demo_candidate : CandidateStructure :=
  new_CandidateStructure 0 0 1%Q None false.

Definition demo_running : St :=
  mkSt (mkIteration [(new_CandidateId 0 0, 0%nat)] false 0 0 [1%Q] None [1] [1] 1)
       [set_status RUNNING demo_candidate].

(** Every constructed generator is the one the dict holds for its own
    search space, and the dict holds constructed generators only. *)
Definition cache_ok (c : ConfigGeneratorCache) : Prop :=
  (forall l g, instances c !! l = Some g ->
               cache c !! cg_configspace g = Some l) /\
  (forall k l, cache c !! k = Some l ->
               exists g, instances c !! l = Some g /\ cg_configspace g = k).

(** ** Ranks *)

(** Modelled after the spec's words "stable double-rank": the rank of the
    loss [x] at position [i] is the number of losses that are smaller, plus
    the number of equal losses at earlier positions. *)
Definition stable_rank (losses : list Q) (i : nat) (x : Q) : nat :=
  length (List.filter (fun y => Qltb y x) losses)
  + length (List.filter (fun y => Qeq_bool y x) (take i losses)).

(** The order of (value, position) pairs that a stable sort produces. *)
Definition lexb (a b : Q * nat) : bool :=
  Qltb a.1 b.1 || (Qeq_bool a.1 b.1 && (a.2 <? b.2)%nat).

Definition lex (a b : Q * nat) : Prop := lexb a b = true.

(** ** Invariants of a bracket *)

(** The number of [true] entries of a boolean vector. *)
Fixpoint count_true (bs : list bool) : Z :=
  match bs with
  | [] => 0
  | b :: bs' => (if b then 1 else 0) + count_true bs'
  end.

(** A policy that, on the ladder [num], promotes no more candidates than
    the stage it promotes to has slots. *)
Definition policy_bounded (num : list Z) (policy : Policy) : Prop :=
  forall it losses v n,
    num_candidates it = num ->
    policy it losses = inr v ->
    num !! stage it = Some n ->
    0 <= n ->
    count_true v <= n.

(** The capacity invariant, strengthened for induction: the counters of the
    stages that have not begun are zero. *)
Definition cap_inv (num : list Z) (it : Iteration) : Prop :=
  num_candidates it = num /\
  length (actual_num_candidates it) = length (num_candidates it) /\
  capacity_respected it /\
  (forall i a, (stage it < i)%nat ->
               actual_num_candidates it !! i = Some a -> a = 0).

(** The bracket attributes after a (complete or interrupted) promotion
    loop: only the filled counter of the current stage has changed, by the
    number of promotions made. *)
Definition bumped (k : Z) (it : Iteration) : Iteration :=
  set_actual_num_candidates
    (<[stage it := default 0 (actual_num_candidates it !! stage it) + k]>
       (actual_num_candidates it)) it.

(** Well-formed stores: the dict has one entry per id, no two entries share
    a candidate object, every entry refers to an object of the store, and
    there is one filled counter per stage. *)
Definition wf (s : St) : Prop :=
  NoDup (map fst (data (self s))) /\
  NoDup (map snd (data (self s))) /\
  (forall k l, In (k, l) (data (self s)) -> (l < length (heap s))%nat) /\
  length (actual_num_candidates (self s)) = length (num_candidates (self s)).

(** Steps that keep the dict, the size of the store and the ladder. *)
Definition same_shape (s s' : St) : Prop :=
  data (self s') = data (self s) /\
  length (heap s') = length (heap s) /\
  length (actual_num_candidates (self s'))
    = length (actual_num_candidates (self s)) /\
  num_candidates (self s') = num_candidates (self s).


(** The status test of the filters in [get_next_candidate] and
    [_finish_stage]. *)
Definition has_status (s : St) (st : Status) (kv : CandidateId * nat) : bool :=
  match heap s !! kv.2 with
  | Some c => status_eqb (cs_status c) st
  | None => false
  end.

(** The entries of the bracket's dict whose candidate is under review, in
    dict order. *)
Definition review_items (s : St) : list (CandidateId * nat) :=
  List.filter (has_status s REVIEW) (data (self s)).

(** A policy that returns one boolean per loss. *)
Definition policy_shape (policy : Policy) : Prop :=
  forall it losses v, policy it losses = inr v -> length v = length losses.





(** Where a bracket stands on its ladder. *)
Definition ladder_position (s : St) : nat * list Z :=
  (stage (self s), num_candidates (self s)).

(** ** Loaded histories *)

(** What the loader stores for a budget: a bare loss or nothing. *)
Definition bare (v : ResultValue) : Prop :=
  match v with
  | ResObject _ _ => False
  | _ => True
  end.

(** A history whose results are all bare. *)
Definition bare_data (data : list (CandidateId * Datum)) : Prop :=
  forall k d b v, In (k, d) data -> In (b, v) (results d) -> bare v.

(** A history kept in memory: what it holds for a budget is nothing or an
    object with a loss. *)
Definition with_loss (v : ResultValue) : Prop :=
  match v with
  | ResNone => True
  | ResFloat _ => False
  | ResObject l _ => l <> None
  end.

(** A history whose results are all of that kind. *)
Definition object_data (data : list (CandidateId * Datum)) : Prop :=
  forall k d b v, In (k, d) data -> In (b, v) (results d) -> with_loss v.

(** ** Concrete brackets and logs *)

Definition demo_result (l : Q) : Result := mkResult (Some SUCCESS) l 0.

(** A bracket with two slots in each of two stages, under the resampling
    policy with the default parameters: both slots of stage 0 are filled,
    evaluated and registered, and the next call finishes the stage and hands
    out the one promoted candidate. *)
Definition resampling_default : Policy := SuccessiveResampling 1 0.5.

Definition two_by_two : St :=
  exec_all resampling_default
    [OpGetNext demo_candidate; OpGetNext demo_candidate;
     OpAddResult 0%nat (demo_result 0.5) None;
     OpAddResult 1%nat (demo_result 0.2) None;
     OpRegister 0%nat; OpRegister 1%nat;
     OpGetNext demo_candidate]
    (mkSt (init 0 [2; 2] [1%Q; 3%Q] None) []).

(** The bracket [two_by_two] before its last call: stage 0 is filled,
    evaluated and registered. *)
Definition stage0_done : St :=
  exec_all resampling_default
    [OpGetNext demo_candidate; OpGetNext demo_candidate;
     OpAddResult 0%nat (demo_result 0.5) None;
     OpAddResult 1%nat (demo_result 0.2) None;
     OpRegister 0%nat; OpRegister 1%nat]
    (mkSt (init 0 [2; 2] [1%Q; 3%Q] None) []).

(** A resampling policy that guarantees two survivors, on a ladder whose
    second stage has one slot. *)
Definition two_survivors : Policy := SuccessiveResampling 2 0.5.

Definition over_capacity : St :=
  exec_all two_survivors
    [OpGetNext demo_candidate; OpGetNext demo_candidate;
     OpAddResult 0%nat (demo_result 0.5) None;
     OpAddResult 1%nat (demo_result 0.2) None;
     OpRegister 0%nat; OpRegister 1%nat;
     OpGetNext demo_candidate]
    (mkSt (init 0 [2; 1] [1%Q; 3%Q] None) []).


Definition id0 : CandidateId := mkCandidateId 0 0 0.
Definition id1 : CandidateId := mkCandidateId 0 1 0.

(** One configuration, evaluated once on budget 1 with loss 0.5. *)
Definition one_run_configs : list ConfigRecord := [mkConfigRecord id0 0 None].
Definition one_run_results : list ResultRecord :=
  [mkResultRecord id0 1 (mkTimeStamps 0 0 1) (Some 0.5%Q) None].

(** One configuration whose only evaluation has no loss. *)
Definition no_loss_results : list ResultRecord :=
  [mkResultRecord id0 1 (mkTimeStamps 0 0 1) None None].

(** Two configurations with the same loss on the same budget, finishing at
    times 1 and 2. *)
Definition tie_configs : list ConfigRecord :=
  [mkConfigRecord id0 0 None; mkConfigRecord id1 0 None].
Definition tie_results : list ResultRecord :=
  [mkResultRecord id0 1 (mkTimeStamps 0 0 1) (Some 0.5%Q) None;
   mkResultRecord id1 1 (mkTimeStamps 0 0 2) (Some 0.5%Q) None].

Definition is_greatest (b : Q) (bs : list Q) : Prop :=
  In b bs /\ forall x, In x bs -> (x <= b)%Q.

(** Ascending order of keys. *)
Definition key_le {A : Type} (key : A -> Q) (x y : A) : Prop :=
  (key x <= key y)%Q.

(** The set of budgets and the time reference that the loop over the
    results log accumulates. *)
Definition budget_set_of (bs : list Q) (s0 : list Q) : list Q :=
  fold_left (fun s b => set_add b s) bs s0.



Definition time_ref_of (ts : list Q) (t0 : xfloat) : xfloat :=
  fold_left xmin ts t0.




(** ** model.py: [Runtime] *)

Record Runtime : Type := mkRuntime {
  rt_total : Q;
  rt_fit : Q;
  rt_config : Q
}.

(** [Runtime.as_dict()] *)
Definition Runtime_as_dict (r : Runtime) : list (string * Q) :=
  [("total"%string, rt_total r); ("fit"%string, rt_fit r);
   ("conf"%string, rt_config r)].

(** The parameters of [Runtime.__init__(self, total, fit=0, config=0)]. *)
Definition Runtime_params : list string :=
  ["total"%string; "fit"%string; "config"%string].

(** [Runtime.from_dict(raw)] calls the constructor with the entries of
    [raw] as keyword arguments: a key that is not a parameter of [__init__]
    is a [TypeError], and so is a missing [total]; [fit] and [config]
    default to 0. *)
Definition Runtime_from_dict (raw : list (string * Q)) : exn + Runtime :=
  if forallb (fun kv => existsb (String.eqb (fst kv)) Runtime_params) raw then
    match dict_get String.eqb "total"%string raw with
    | None => inl TypeError
    | Some total =>
        inr (mkRuntime total
               (default 0%Q (dict_get String.eqb "fit"%string raw))
               (default 0%Q (dict_get String.eqb "config"%string raw)))
    end
  else inl TypeError.


(** [g] after one more job was handed to it. *)
Definition with_job (g : ConfigGenerator) (job : nat) : ConfigGenerator :=
  mkConfigGenerator (cg_configspace g) (cg_pipeline g) (cg_jobs g ++ [job]).

(** ** runhistory.py: learning curves and the number of iterations *)

(** [extract_HBS_learning_curves(runs)]: the runs in ascending order of
    budget, as (budget, loss) pairs, without the pairs that have no loss. *)
Definition extract_HBS_learning_curves (runs : list Run)
    : list (list (Q * option Q)) :=
  let sr := sort_by Qltb budget runs in
  let lc := List.filter (fun t => match snd t with
                                  | Some _ => true
                                  | None => false
                                  end)
              (map (fun r => (budget r, loss r)) sr) in
  [lc].



(** [max(xs)] for a list of ints with at least one element. *)
Definition py_max_Z (x : Z) (xs : list Z) : Z :=
  fold_left (fun m y => if m <? y then y else m) xs x.

(** [num_iterations()]:
    [max([k.iteration for k in self.data.keys()]) + 1] *)
Definition num_iterations (rh : RunHistory) : exn + Z :=
  match map cid_iteration (dict_keys (rh_data rh)) with
  | [] => inl ValueError
  | x :: xs => inr (py_max_Z x xs + 1)
  end.

(** ** Loaded histories, line by line *)






(** ** Trajectories *)

(** The finish time of a run. *)
Definition finish_time (r : Run) : Q := finished (run_time_stamps r).

(** The points of the trajectory [t] are the runs [rs], in order. *)
Definition points_of (rs : list Run) (t : Trajectory) : Prop :=
  config_ids t = map config_id rs /\
  times_finished t = map finish_time rs /\
  traj_budgets t = map budget rs /\
  Forall2 (fun r l => loss r = Some l) rs (losses t).

(** What the scan of [get_incumbent_trajectory] keeps true: the trajectory
    consists of the accepted runs [rs]; the current incumbent and its budget
    are those of the last accepted run; budgets ascend when they may not
    decrease, and losses descend strictly when a larger budget alone does
    not make an incumbent. *)
Definition scan_inv (bigger_is_better non_decreasing_budget : bool)
    (min_b : Q) (rs : list Run) (acc : scan_state) : Prop :=
  points_of rs (snd acc) /\
  ((rs = [] /\ fst (fst acc) = PosInf /\ snd (fst acc) = min_b) \/
   (exists c b,
      last (losses (snd acc)) = Some c /\
      last (traj_budgets (snd acc)) = Some b /\
      fst (fst acc) = Fin c /\ snd (fst acc) = b)) /\
  (non_decreasing_budget = true ->
   StronglySorted Qle (traj_budgets (snd acc))) /\
  (bigger_is_better = false ->
   StronglySorted (fun a b => (b < a)%Q) (losses (snd acc))).

(** A trajectory with at least one point. *)
Definition has_point (t : Trajectory) : Prop :=
  config_ids t <> [] /\ traj_budgets t <> [] /\ losses t <> [].

(** ** runhistory.py: [JsonResultLogger]

    The logger writes the two files that [logged_results_to_runhistory]
    reads.  A file is the list of its lines, or nothing when it does not
    exist; what [json.dumps] writes is what [json.loads] reads back.  As in
    the loader, the search space written on a configs line is not part of
    the model. *)

Record LogDir : Type := mkLogDir {
  configs_json : option (list ConfigRecord);
  results_json : option (list ResultRecord)
}.

(** The attribute [config_ids] of a logger, a set of ids. *)
Record JsonResultLogger : Type := mkJsonResultLogger {
  lg_config_ids : list CandidateId
}.

Inductive io_exn : Type :=
| FileExistsError.

(** [open(fn, 'x')], and on [FileExistsError] either [open(fn, 'w')] or the
    exception again. *)
Definition create_file {A : Type} (f : option (list A)) (overwrite : bool)
    : io_exn + option (list A) :=
  match f with
  | None => inr (Some [])
  | Some _ => if overwrite then inr (Some []) else inl FileExistsError
  end.

(** [JsonResultLogger(directory, overwrite)]: the directory after the call,
    and the logger or the exception. *)
Definition new_JsonResultLogger (dir : LogDir) (overwrite : bool)
    : LogDir * (io_exn + JsonResultLogger) :=
  match create_file (configs_json dir) overwrite with
  | inl e => (dir, inl e)
  | inr c =>
      let dir1 := mkLogDir c (results_json dir) in
      match create_file (results_json dir1) overwrite with
      | inl e => (dir1, inl e)
      | inr r => (mkLogDir (configs_json dir1) r, inr (mkJsonResultLogger []))
      end
  end.

(** [open(fn, 'a')] followed by the write of one line. *)
Definition append_line {A : Type} (f : option (list A)) (line : A)
    : option (list A) :=
  Some (default [] f ++ [line]).

(** [new_config(config_id, config, configspace, config_info)] *)
Definition new_config (lg : JsonResultLogger) (dir : LogDir)
    (config_id : CandidateId) (config : nat) (config_info : nat)
    : JsonResultLogger * LogDir :=
  if existsb (cid_eqb config_id) (lg_config_ids lg) then (lg, dir)
  else
    (mkJsonResultLogger (lg_config_ids lg ++ [config_id]),
     mkLogDir
       (append_line (configs_json dir)
          (mkConfigRecord config_id config (Some config_info)))
       (results_json dir)).

(** The attributes of a job that the logger writes; [job_result] is the
    loss of [job.result], or nothing when [job.result] is [None]. *)
Record LogJob : Type := mkLogJob {
  job_id : CandidateId;
  job_config : nat;
  job_budget : Q;
  job_timestamps : TimeStamps;
  job_result : option (option Q);
  job_exception : option nat
}.

(** The results line of a job. *)
Definition result_line (job : LogJob) : ResultRecord :=
  mkResultRecord (job_id job) (job_budget job) (job_timestamps job)
    (match job_result job with
     | Some result => result
     | None => None
     end)
    (job_exception job).

(** [__call__(job)] *)
Definition __call__ (lg : JsonResultLogger) (dir : LogDir) (job : LogJob)
    : JsonResultLogger * LogDir :=
  let '(lg1, dir1) :=
    if existsb (cid_eqb (job_id job)) (lg_config_ids lg) then (lg, dir)
    else
      (mkJsonResultLogger (lg_config_ids lg ++ [job_id job]),
       mkLogDir
         (append_line (configs_json dir)
            (mkConfigRecord (job_id job) (job_config job) None))
         (results_json dir)) in
  (lg1,
   mkLogDir (configs_json dir1)
     (append_line (results_json dir1) (result_line job))).

(** The calls made on a logger. *)
Inductive log_op : Type :=
| LogNewConfig (config_id : CandidateId) (config : nat) (config_info : nat)
| LogJobResult (job : LogJob).

Definition log_exec (st : JsonResultLogger * LogDir) (o : log_op)
    : JsonResultLogger * LogDir :=
  match o with
  | LogNewConfig config_id config config_info =>
      new_config (fst st) (snd st) config_id config config_info
  | LogJobResult job => __call__ (fst st) (snd st) job
  end.

Definition log_all (ops : list log_op) (st : JsonResultLogger * LogDir)
    : JsonResultLogger * LogDir :=
  fold_left log_exec ops st.

(** The jobs among the calls, in order. *)
Definition jobs_of (ops : list log_op) : list LogJob :=
  omap (fun o => match o with
                 | LogJobResult job => Some job
                 | LogNewConfig _ _ _ => None
                 end) ops.

(** The lines of a file, none when it does not exist. *)
Definition lines_of {A : Type} (f : option (list A)) : list A := default [] f.

(** A logger whose set of ids is the set of ids of the configs file. *)
Definition logger_inv (st : JsonResultLogger * LogDir) : Prop :=
  lg_config_ids (fst st) = map cr_id (lines_of (configs_json (snd st))) /\
  NoDup (lg_config_ids (fst st)) /\
  forall line, In line (lines_of (results_json (snd st))) ->
               In (rr_id line) (lg_config_ids (fst st)).

(** ** A bracket only moves forward *)

(** From [s] to [s']: the stage has not decreased, a finished bracket is
    still finished, the ladder, the budgets, the iteration index and the
    timeout are the same, no object has left the store and no id has left
    the dict. *)
Definition advances (s s' : St) : Prop :=
  (stage (self s) <= stage (self s'))%nat /\
  (is_finished (self s) = true -> is_finished (self s') = true) /\
  num_candidates (self s') = num_candidates (self s) /\
  budgets (self s') = budgets (self s) /\
  iteration (self s') = iteration (self s) /\
  timeout (self s') = timeout (self s) /\
  length (actual_num_candidates (self s'))
  = length (actual_num_candidates (self s)) /\
  (length (heap s) <= length (heap s'))%nat /\
  (forall k, is_Some (dict_get cid_eqb k (data (self s))) ->
             is_Some (dict_get cid_eqb k (data (self s')))).

(** The candidate that [_add_candidate] registers for the object [gen]. *)
Definition added_candidate (it : Iteration) (a : Z) (b : Q)
    (gen : CandidateStructure) : CandidateStructure :=
  set_id (new_CandidateId (iteration it) a)
    (set_budget b (set_timeout (timeout it) gen)).

(** The bracket after [_add_candidate] registered the object at [l]. *)
Definition with_candidate (it : Iteration) (a : Z) (l : nat) : Iteration :=
  set_actual_num_candidates
    (<[stage it := a + 1]> (actual_num_candidates it))
    (set_data (dict_set cid_eqb (new_CandidateId (iteration it) a) l (data it))
       it).

(** ** Finishing a bracket *)




(** ** What [get_next_candidate] hands out *)

(** The object at [l] was handed out by a call that started in [s] and
    ended in [s']: it is a candidate of the dict, [RUNNING] on the budget of
    the current stage, and one more job is running. *)
Definition handed_out (s s' : St) (l : nat) : Prop :=
  exists c b,
    heap s' !! l = Some c /\
    cs_status c = RUNNING /\
    budgets (self s') !! stage (self s') = Some b /\
    (cs_budget c == b)%Q /\
    In l (map snd (data (self s'))) /\
    is_finished (self s') = false /\
    num_running (self s') = num_running (self s) + 1.

(** ** base_bandit_learner.py *)

(** A [BanditLearner], as far as [_get_next_structure] looks at it: the
    list [self.iterations] of its brackets, and the store of the candidate
    structures that the brackets share. *)
Record Learner : Type := mkLearner {
  iterations : list Iteration;
  store : list CandidateStructure
}.

(** The bracket at position [i] after a call on it ended in [s]. *)
Definition put_back (i : nat) (s : St) (L : Learner) : Learner :=
  mkLearner (<[i := self s]> (iterations L)) (heap s).

(** How the [for] loop of [_get_next_structure] ends: with [break] and a
    candidate of bracket [i], by running out of brackets, or with an
    exception of [get_next_candidate]. *)
Inductive scanned : Type :=
| Found (candidate : loc) (i : nat)
| NotFound
| Failed (e : exn).

(** The loop
    [for i in filter(lambda idx: not self.iterations[idx].is_finished, ...)]
    over the positions [idxs]; the filter is lazy, so a bracket is tested
    when its turn comes.  [gen] is the object that the structure generator
    constructs if a bracket asks for one: a call of [get_next_candidate]
    that has asked for one does not return [None]. *)
Fixpoint find_candidate (policy : Policy) (gen : CandidateStructure)
    (idxs : list nat) (L : Learner) : Learner * scanned :=
  match idxs with
  | [] => (L, NotFound)
  | i :: idxs' =>
      match iterations L !! i with
      | None => (L, Failed IndexError)
      | Some it =>
          if is_finished it then find_candidate policy gen idxs' L
          else
            match get_next_candidate policy gen (mkSt it (store L)) with
            | Return s' (Some l) => (put_back i s' L, Found l i)
            | Return s' None =>
                find_candidate policy gen idxs' (put_back i s' L)
            | Raise s' e => (put_back i s' L, Failed e)
            end
      end
  end.

(** What resuming the generator [_get_next_structure] gives. *)
Inductive resumed : Type :=
| Yield (candidate : loc) (i : nat)
| StopIteration
| Error (e : exn).

(** The generator [_get_next_structure] from the head of its [while] loop to
    the next [yield], to the [break] or to an exception.  [n_iterations] is
    its local counter, which starts as [max_iterations]; it is only compared
    with 0 and decremented when it is positive, so it is kept as a natural
    number.  [new_iteration] is the abstract [_get_next_iteration]. *)
Fixpoint _get_next_structure (policy : Policy) (new_iteration : nat -> Iteration)
    (gen : CandidateStructure) (n_iterations : nat) (L : Learner)
    : Learner * nat * resumed :=
  match find_candidate policy gen (seq 0 (length (iterations L))) L with
  | (L', Found l i) => (L', n_iterations, Yield l i)
  | (L', Failed e) => (L', n_iterations, Error e)
  | (L', NotFound) =>
      match n_iterations with
      | S n =>
          let iteration := length (iterations L') in
          _get_next_structure policy new_iteration gen n
            (mkLearner (iterations L' ++ [new_iteration iteration]) (store L'))
      | O => (L', O, StopIteration)
      end
  end.

(** Every bracket of the learner is well-formed over the shared store. *)
Definition all_wf (L : Learner) : Prop :=
  Forall (fun it => wf (mkSt it (store L))) (iterations L).

(** A bracket that cannot hand out work now: it is finished, or it waits
    for running jobs. *)
Definition idle (it : Iteration) : Prop :=
  is_finished it = true \/ num_running it <> 0.

(** The candidate at [l] is a running candidate of the bracket at [i]. *)
Definition picked (L : Learner) (l i : nat) : Prop :=
  exists it c b,
    iterations L !! i = Some it /\
    is_finished it = false /\
    store L !! l = Some c /\
    cs_status c = RUNNING /\
    budgets it !! stage it = Some b /\
    (cs_budget c == b)%Q /\
    In l (map snd (data it)).

(** A learner with one bracket that waits for its job. *)
Definition demo_learner : Learner :=
  mkLearner [self demo_running] (heap demo_running).

(** * Properties *)

(** ** Tactics and basic facts *)

Ltac unfold_monad :=
  cbv beta iota delta [bind ret raise get_self modify_self modify_obj load alloc
                    index lift data_lookup] in *.

Lemma cid_eqb_eq (a b : CandidateId) : cid_eqb a b = true <-> a = b.
Proof.
  unfold cid_eqb. rewrite !andb_true_iff, !Z.eqb_eq.
  destruct a, b; simpl; split.
  - intros [[-> ->] ->]; reflexivity.
  - intros [= -> -> ->]; auto.
Qed.

Lemma cid_eqb_refl (a : CandidateId) : cid_eqb a a = true.
Proof. apply cid_eqb_eq; reflexivity. Qed.

Lemma cid_eqb_neq (a b : CandidateId) : cid_eqb a b = false <-> a <> b.
Proof.
  rewrite <- not_true_iff_false, cid_eqb_eq. reflexivity.
Qed.

Lemma Qltb_lt (a b : Q) : Qltb a b = true <-> (a < b)%Q.
Proof.
  unfold Qltb. rewrite negb_true_iff, <- not_true_iff_false, Qle_bool_iff.
  split; [apply Qnot_le_lt | apply Qlt_not_le].
Qed.

Lemma Qltb_ge (a b : Q) : Qltb a b = false <-> (b <= a)%Q.
Proof.
  rewrite <- not_true_iff_false, Qltb_lt.
  split; [apply Qnot_lt_le | apply Qle_not_lt].
Qed.

(** ** C3: [register_result] *)



(** ** C4: the generator cache constructs once per search space *)

Section CacheFacts.

Lemma cache_ok_new : cache_ok new_ConfigGeneratorCache.
Proof.
  split.
  - intros l g H. simpl in H. rewrite lookup_nil in H. discriminate.
  - intros k l H. simpl in H. rewrite lookup_empty in H. discriminate.
Qed.

Lemma get_ok (c : ConfigGeneratorCache) (p : Pipeline) :
  cache_ok c -> cache_ok (get c p).1.
Proof.
  intros [Hok Hdom]. unfold get.
  destruct (cache c !! configuration_space p) as [cg|] eqn:Hhit; simpl.
  - split; assumption.
  - split.
    + intros l g Hl. simpl in *.
      destruct (decide (l < length (instances c))%nat) as [Hlt|Hge].
      * rewrite lookup_app_l in Hl by exact Hlt.
        pose proof (Hok l g Hl) as Hc.
        rewrite lookup_insert_ne; [exact Hc|].
        intros Heq. rewrite <- Heq in Hc. congruence.
      * apply lookup_lt_Some in Hl as Hlen. rewrite length_app in Hlen.
        simpl in Hlen. assert (l = length (instances c)) as -> by lia.
        rewrite lookup_app_r in Hl by lia.
        rewrite Nat.sub_diag in Hl. simpl in Hl. injection Hl as <-. simpl.
        apply lookup_insert_eq.
    + intros k l Hk. simpl in *.
      destruct (decide (configuration_space p = k)) as [<-|Hne].
      * rewrite lookup_insert_eq in Hk. injection Hk as <-.
        exists (mkConfigGenerator (configuration_space p) p []).
        split; [|reflexivity].
        rewrite lookup_app_r by lia. rewrite Nat.sub_diag. reflexivity.
      * rewrite lookup_insert_ne in Hk by exact Hne.
        destruct (Hdom k l Hk) as (g & Hg & Hgk).
        exists g. split; [|exact Hgk].
        rewrite lookup_app_l; [exact Hg|]. eapply lookup_lt_Some; eassumption.
Qed.

Lemma get_keeps (c : ConfigGeneratorCache) (p : Pipeline) (k : nat) (l : loc) :
  cache c !! k = Some l -> cache (get c p).1 !! k = Some l.
Proof.
  intros Hk. unfold get.
  destruct (cache c !! configuration_space p) as [cg|] eqn:Hhit; simpl; auto.
  rewrite lookup_insert_ne; auto. congruence.
Qed.

Lemma get_returns (c : ConfigGeneratorCache) (p : Pipeline) :
  cache (get c p).1 !! configuration_space p = Some (get c p).2.
Proof.
  unfold get.
  destruct (cache c !! configuration_space p) as [cg|] eqn:Hhit; simpl; auto.
  apply lookup_insert_eq.
Qed.

Lemma get_all_spec (ps : list Pipeline) :
  forall c, cache_ok c ->
    cache_ok (get_all c ps).1 /\
    length (get_all c ps).2 = length ps /\
    (forall k l, cache c !! k = Some l -> cache (get_all c ps).1 !! k = Some l) /\
    (forall i p l, ps !! i = Some p -> (get_all c ps).2 !! i = Some l ->
                   cache (get_all c ps).1 !! configuration_space p = Some l).
Proof.
  induction ps as [|p ps IH]; intros c Hok; simpl.
  - split; [exact Hok|]. split; [reflexivity|]. split; [auto|].
    intros i p l H. rewrite lookup_nil in H. discriminate.
  - pose proof (get_ok c p Hok) as Hok1.
    pose proof (get_returns c p) as Hret.
    pose proof (get_keeps c p) as Hkeep.
    destruct (get c p) as [c1 l1]. simpl in *.
    destruct (IH c1 Hok1) as (Hok2 & Hlen & Hmono & Hall).
    destruct (get_all c1 ps) as [c2 ls]. simpl in *.
    split; [exact Hok2|]. split; [congruence|]. split; [auto|].
    intros [|i] q l Hq Hl; simpl in *.
    + injection Hq as <-. injection Hl as <-. auto.
    + eauto.
Qed.

Lemma filter_key_absent {A : Type} (f : A -> nat) (k : nat) (l : list A) :
  k ∉ f <$> l -> filter (fun x => f x = k) l = [].
Proof.
  induction l as [|x l IH]; intros Hk; [reflexivity|].
  rewrite fmap_cons in Hk. apply not_elem_of_cons in Hk as [Hx Hl].
  rewrite filter_cons. destruct (decide (f x = k)); [congruence|auto].
Qed.

Lemma filter_key_le_1 {A : Type} (f : A -> nat) (k : nat) (l : list A) :
  NoDup (f <$> l) -> (length (filter (fun x => f x = k) l) <= 1)%nat.
Proof.
  induction l as [|x l IH]; intros Hnd; [simpl; lia|].
  rewrite fmap_cons in Hnd. apply NoDup_cons in Hnd as [Hx Hnd].
  rewrite filter_cons. destruct (decide (f x = k)) as [Hk|Hk]; [|auto].
  rewrite filter_key_absent by congruence. simpl. lia.
Qed.

Lemma cache_ok_constructions (c : ConfigGeneratorCache) (k : nat) :
  cache_ok c -> (constructions c k <= 1)%nat.
Proof.
  intros [Hok _]. unfold constructions. apply filter_key_le_1.
  apply NoDup_alt. intros i j x Hi Hj.
  rewrite list_lookup_fmap in Hi, Hj.
  destruct (instances c !! i) as [gi|] eqn:Hgi; [|discriminate].
  destruct (instances c !! j) as [gj|] eqn:Hgj; [|discriminate].
  simpl in *. injection Hi as Hi. injection Hj as Hj.
  apply Hok in Hgi, Hgj. congruence.
Qed.

End CacheFacts.

(** C4.  Over any sequence of [get] calls on a new cache, the constructor runs
    at most once for every search space, every call returns a reference,
    two calls with the same search space return the same instance, and the
    instance returned is the one constructed for that search space. *)
Theorem get_constructs_once (ps : list Pipeline) :
  let c := (get_all new_ConfigGeneratorCache ps).1 in
  let ls := (get_all new_ConfigGeneratorCache ps).2 in
  length ls = length ps /\
  (forall k, (constructions c k <= 1)%nat) /\
  (forall i j p q li lj,
      ps !! i = Some p -> ps !! j = Some q ->
      ls !! i = Some li -> ls !! j = Some lj ->
      configuration_space p = configuration_space q -> li = lj) /\
  (forall i p l,
      ps !! i = Some p -> ls !! i = Some l ->
      exists g, instances c !! l = Some g /\
                cg_configspace g = configuration_space p).
Proof.
  intros c ls.
  destruct (get_all_spec ps new_ConfigGeneratorCache cache_ok_new)
    as (Hok & Hlen & _ & Hall).
  fold c in Hok, Hall. fold ls in Hlen, Hall.
  split; [exact Hlen|]. split; [|split].
  - intros k. apply cache_ok_constructions, Hok.
  - intros i j p q li lj Hp Hq Hli Hlj Heq.
    pose proof (Hall i p li Hp Hli) as H1.
    pose proof (Hall j q lj Hq Hlj) as H2.
    rewrite Heq in H1. congruence.
  - intros i p l Hp Hl.
    destruct Hok as [_ Hdom]. eauto.
Qed.

Lemma get_constructs_once_witness :
  (get_all new_ConfigGeneratorCache
     [mkPipeline 7 0; mkPipeline 8 1; mkPipeline 7 2]).2 !! 0%nat =
  (get_all new_ConfigGeneratorCache
     [mkPipeline 7 0; mkPipeline 8 1; mkPipeline 7 2]).2 !! 2%nat.
Proof.
  set (ps := [mkPipeline 7 0; mkPipeline 8 1; mkPipeline 7 2]).
  destruct (get_constructs_once ps) as (_ & _ & Hsame & _).
  destruct ((get_all new_ConfigGeneratorCache ps).2 !! 0%nat) as [l0|] eqn:H0;
    [|vm_compute in H0; discriminate].
  destruct ((get_all new_ConfigGeneratorCache ps).2 !! 2%nat) as [l2|] eqn:H2;
    [|vm_compute in H2; discriminate].
  f_equal.
  exact (Hsame 0%nat 2%nat (mkPipeline 7 0) (mkPipeline 7 2) l0 l2
           eq_refl eq_refl H0 H2 eq_refl).
Defined.

(** ** C9, C2, C10: concrete runs of a bracket *)

(** C9.  In the bracket [two_by_two] the id [(0, 1, -1)] is bound to the
    candidate at location 1, which is running at stage 1.  The next
    slot-filling call creates a candidate at location 2 and gives it the same
    id [(0, 1, -1)]: the dict entry is overwritten, the dict still has two
    entries for three candidates, and the running candidate is no longer in
    it. *)
Theorem add_candidate_reuses_id :
  dict_get cid_eqb (new_CandidateId 0 1) (data (self two_by_two)) = Some 1%nat /\
  (cs_status <$> heap two_by_two !! 1%nat) = Some RUNNING /\
  stage (self two_by_two) = 1%nat /\
  exists s',
    get_next_candidate resampling_default demo_candidate two_by_two
      = Return s' (Some 2%nat) /\
    (cs_id <$> heap s' !! 2%nat) = Some (Some (new_CandidateId 0 1)) /\
    dict_get cid_eqb (new_CandidateId 0 1) (data (self s')) = Some 2%nat /\
    map snd (data (self s')) = [0%nat; 2%nat] /\
    length (heap s') = 3%nat.
Proof.
  split; [vm_compute; reflexivity|].
  split; [vm_compute; reflexivity|].
  split; [vm_compute; reflexivity|].
  eexists. split; [vm_compute; reflexivity|].
  repeat split; vm_compute; reflexivity.
Qed.

Lemma reachable_exec_all (policy : Policy) (s0 : St) (ops : list op) :
  forall s, reachable policy s0 s -> reachable policy s0 (exec_all policy ops s).
Proof.
  induction ops as [|o ops IH]; intros s Hs; simpl; [exact Hs|].
  apply IH. apply reach_step. exact Hs.
Qed.

(** C2, as stated, fails: under the resampling policy with
    [min_samples_advance = 2] a reachable state has two promoted candidates
    in stage 1, which has one slot. *)
Lemma capacity_exceeded :
  reachable two_survivors (mkSt (init 0 [2; 1] [1%Q; 3%Q] None) []) over_capacity /\
  ~ capacity_respected (self over_capacity).
Proof.
  split.
  - apply reachable_exec_all. constructor.
  - intros H. specialize (H 1%nat 2 1). vm_compute in H.
    specialize (H eq_refl eq_refl). apply H. reflexivity.
Qed.


(** ** C5 and C6: the run history on concrete logs *)

(** C5.  The logs [one_run_configs] and [one_run_results] load into a
    history whose maximum budget is 1, and the candidate [id0] has a result
    on that budget; [get_incumbent_id] on the loaded history raises
    [AttributeError] instead of returning [id0]. *)
Theorem get_incumbent_id_raises_on_loaded :
  exists rh,
    logged_results_to_runhistory one_run_configs one_run_results = inr rh /\
    Qeq_bool (max_budget (HB_config rh)) 1 = true /\
    (exists d, dict_get cid_eqb id0 (rh_data rh) = Some d /\
               dict_get Qeq_bool 1%Q (results d) = Some (ResFloat 0.5)) /\
    get_incumbent_id rh = inl AttributeError.
Proof.
  eexists. split; [vm_compute; reflexivity|].
  split; [vm_compute; reflexivity|].
  split; [|vm_compute; reflexivity].
  eexists. split; vm_compute; reflexivity.
Qed.

Lemma dict_set_In_any {K V : Type} (eqb : K -> K -> bool) (k : K) (v : V)
    (d : list (K * V)) (k' : K) (v' : V) :
  In (k', v') (dict_set eqb k v d) -> In (k', v') d \/ v' = v.
Proof.
  induction d as [|[k0 v0] d IH]; simpl.
  - intros [[= <- <-]|[]]. auto.
  - destruct (eqb k0 k); simpl.
    + intros [[= <- <-]|H]; auto.
    + intros [H|H]; auto. destruct (IH H); auto.
Qed.

Lemma read_configs_bare (lines : list ConfigRecord) :
  bare_data (read_configs lines).
Proof.
  unfold read_configs.
  enough (forall acc, bare_data acc ->
            bare_data (fold_left
              (fun data line =>
                 dict_set cid_eqb (cr_id line)
                   (new_Datum (cr_config line) (cr_info line)) data)
              lines acc)) as H.
  { apply H. intros k d b v []. }
  induction lines as [|line lines IH]; intros acc Hacc; simpl; [exact Hacc|].
  apply IH. intros k d b v Hin Hv.
  apply dict_set_In_any in Hin as [Hin| ->]; [eauto|]. destruct Hv.
Qed.

Lemma read_results_bare (lines : list ResultRecord) :
  forall data tr bset data' tr' bset',
    bare_data data ->
    read_results (data, tr, bset) lines = inr (data', tr', bset') ->
    bare_data data'.
Proof.
  induction lines as [|line lines IH]; intros data tr bset data' tr' bset' Hb;
    simpl.
  - intros [= <- _ _]. exact Hb.
  - destruct (dict_get cid_eqb (rr_id line) data) as [d|] eqn:Hd;
      [|discriminate].
    apply IH. intros k d0 b v Hin Hv.
    apply dict_set_In_any in Hin as [Hin| ->]; [eauto|].
    simpl in Hv. apply dict_set_In_any in Hv as [Hv| ->].
    + assert (Hin : In (rr_id line, d) data).
      { clear -Hd. induction data as [|[k0 d0] data IH]; simpl in *;
          [discriminate|].
        destruct (cid_eqb k0 (rr_id line)) eqn:He.
        - apply cid_eqb_eq in He as ->. injection Hd as ->. auto.
        - auto. }
      eauto.
    + destruct (rr_result line); exact I.
Qed.

Lemma collect_max_budget_bare (max_b : Q) (items : list (CandidateId * Datum)) :
  bare_data items ->
  collect_max_budget max_b items = inl AttributeError \/
  collect_max_budget max_b items = inr [].
Proof.
  induction items as [|[k d] items IH]; intros Hb; simpl; [auto|].
  assert (IH' : collect_max_budget max_b items = inl AttributeError \/
                collect_max_budget max_b items = inr []).
  { apply IH. intros k' d' b v Hin. apply (Hb k' d' b v). right. exact Hin. }
  destruct (dict_get Qeq_bool max_b (results d)) as [[|l|l i]|] eqn:Hg; auto.
  exfalso.
  assert (Hin : exists b, In (b, ResObject l i) (results d)).
  { clear -Hg. induction (results d) as [|[b0 v0] r IHr]; simpl in *;
      [discriminate|].
    destruct (Qeq_bool b0 max_b).
    - injection Hg as ->. eauto.
    - destruct (IHr Hg) as [b Hb]. eauto. }
  destruct Hin as [b Hin]. exact (Hb k d b _ (or_introl eq_refl) Hin).
Qed.

(** On a history loaded from the logs [get_incumbent_id] never returns an
    id: the results are bare losses, so it raises as soon as one of them is
    on the maximum budget, and returns none otherwise. *)
Lemma get_incumbent_id_loaded (configs : list ConfigRecord)
    (lines : list ResultRecord) (rh : RunHistory) :
  logged_results_to_runhistory configs lines = inr rh ->
  get_incumbent_id rh = inl AttributeError \/ get_incumbent_id rh = inr None.
Proof.
  unfold logged_results_to_runhistory. intros Hload.
  destruct (read_results (read_configs configs, PosInf, []) lines)
    as [e|[[data tr] bset]] eqn:Hr; [discriminate|].
  destruct (infer_HB_config tr bset) as [e|cfg]; [discriminate|].
  injection Hload as <-.
  pose proof (read_results_bare _ _ _ _ _ _ _ (read_configs_bare configs) Hr)
    as Hb.
  unfold get_incumbent_id. cbn [HB_config rh_data new_RunHistory].
  assert (Hm : bare_data (_merge_results cfg [data])).
  { unfold _merge_results. simpl. intros k d b v Hin Hv.
    apply in_map_iff in Hin as ([k0 d0] & [= <- <-] & Hin). simpl in Hv.
    assert (Hgen : forall items acc,
              bare_data items -> bare_data acc ->
              bare_data (fold_left
                (fun acc kv => dict_set cid_eqb kv.1 kv.2 acc) items acc)).
    { induction items as [|[k1 d1] items IH]; intros acc Hi Ha; simpl;
        [exact Ha|].
      apply IH.
      - intros k' d' b' v' Hin'. apply (Hi k' d' b' v'). right. exact Hin'.
      - intros k' d' b' v' Hin' Hv'.
        apply dict_set_In_any in Hin' as [Hin'| ->]; [eauto|].
        apply (Hi k1 d1 b' v'); [left; reflexivity|exact Hv']. }
    eapply (Hgen data []); [exact Hb| |exact Hin|exact Hv].
    intros ? ? ? ? []. }
  destruct (collect_max_budget_bare (max_budget cfg) _ Hm) as [-> | ->]; auto.
Qed.

Lemma dict_get_In_Q {V : Type} (k : Q) (v : V) (d : list (Q * V)) :
  dict_get Qeq_bool k d = Some v -> exists b, In (b, v) d.
Proof.
  induction d as [|[b0 v0] d IH]; simpl; [discriminate|].
  destruct (Qeq_bool b0 k).
  - intros [= ->]. eauto.
  - intros H. destruct (IH H) as [b Hb]. eauto.
Qed.

(** The tuples that [get_incumbent_id] collects: the loss on the maximum
    budget of every candidate that has one, with the candidate's id. *)
Lemma collect_max_budget_objects (max_b : Q)
    (items : list (CandidateId * Datum)) :
  object_data items ->
  exists tmp,
    collect_max_budget max_b items = inr tmp /\
    (forall l k, In (l, k) tmp ->
       exists x d i, l = Some x /\ In (k, d) items /\
         dict_get Qeq_bool max_b (results d) = Some (ResObject (Some x) i)) /\
    (forall k d x i, In (k, d) items ->
       dict_get Qeq_bool max_b (results d) = Some (ResObject (Some x) i) ->
       In (Some x, k) tmp).
Proof.
  induction items as [|[k d] items IH]; intros Hobj; simpl.
  - exists []. split; [reflexivity|]. split; [intros l k []|intros k d x i []].
  - destruct IH as (tmp & -> & Hsound & Hcomplete).
    { intros k' d' b v Hin. apply (Hobj k' d' b v). right. exact Hin. }
    destruct (dict_get Qeq_bool max_b (results d)) as [[|x|[x|] i]|] eqn:Hg.
    + exists tmp. split; [reflexivity|]. split.
      * intros l k' Hin. destruct (Hsound l k' Hin) as (x & d' & i & ? & ? & ?).
        exists x, d', i. auto.
      * intros k' d' x i [[= <- <-]|Hin] Hd; [congruence|eauto].
    + exfalso. destruct (dict_get_In_Q _ _ _ Hg) as [b Hb].
      exact (Hobj k d b _ (or_introl eq_refl) Hb).
    + exists ((Some x, k) :: tmp). split; [reflexivity|]. split.
      * intros l k' [[= <- <-]|Hin].
        -- exists x, d, i. auto.
        -- destruct (Hsound l k' Hin) as (x' & d' & i' & ? & ? & ?).
           exists x', d', i'. auto.
      * intros k' d' x' i' [[= <- <-]|Hin] Hd.
        -- rewrite Hg in Hd. injection Hd as <- <-. left. reflexivity.
        -- right. eauto.
    + exfalso. destruct (dict_get_In_Q _ _ _ Hg) as [b Hb].
      exact (Hobj k d b _ (or_introl eq_refl) Hb eq_refl).
    + exists tmp. split; [reflexivity|]. split.
      * intros l k' Hin. destruct (Hsound l k' Hin) as (x & d' & i & ? & ? & ?).
        exists x, d', i. auto.
      * intros k' d' x i [[= <- <-]|Hin] Hd; [congruence|eauto].
Qed.

(** [min] over tuples whose losses are all numbers returns a tuple of least
    loss. *)
Lemma min_tuple_least (rest : list (option Q * CandidateId)) :
  forall best,
    (forall t, In t (best :: rest) -> exists x, t.1 = Some x) ->
    exists m x,
      min_tuple best rest = inr m /\ In m (best :: rest) /\ m.1 = Some x /\
      forall t y, In t (best :: rest) -> t.1 = Some y -> (x <= y)%Q.
Proof.
  induction rest as [|t rest IH]; intros best Hall; simpl.
  - destruct (Hall best (or_introl eq_refl)) as [x Hx].
    exists best, x. split; [reflexivity|]. split; [auto|]. split; [exact Hx|].
    intros t y [<-|[]] Hy. rewrite Hx in Hy. injection Hy as <-.
    apply Qle_refl.
  - destruct (Hall best (or_introl eq_refl)) as [xb Hb].
    destruct (Hall t (or_intror (or_introl eq_refl))) as [xt Ht].
    unfold tuple_lt. rewrite Ht, Hb.
    assert (Hrest : forall b', In b' [best; t] ->
              forall u, In u (b' :: rest) -> exists x, u.1 = Some x).
    { intros b' Hb' u [<-|Hu].
      - destruct Hb' as [<-|[<-|[]]]; eauto.
      - apply Hall. right. right. exact Hu. }
    destruct (Qeq_bool xt xb) eqn:Heq.
    + (* equal losses: the ids decide, the loss of the minimum is the same *)
      apply Qeq_bool_iff in Heq.
      destruct (cid_ltb t.2 best.2).
      * destruct (IH t (Hrest t (or_intror (or_introl eq_refl))))
          as (m & x & Hm & Hin & Hx & Hle).
        exists m, x. split; [exact Hm|]. split; [|split; [exact Hx|]].
        -- destruct Hin as [<-|Hin]; [right; left; reflexivity|].
           right. right. exact Hin.
        -- intros u y [<-|[<-|Hu]] Hy.
           ++ rewrite Hb in Hy. injection Hy as <-. rewrite <- Heq.
              apply (Hle t xt); [left; reflexivity|exact Ht].
           ++ apply (Hle t y); [left; reflexivity|exact Hy].
           ++ apply (Hle u y); [right; exact Hu|exact Hy].
      * destruct (IH best (Hrest best (or_introl eq_refl)))
          as (m & x & Hm & Hin & Hx & Hle).
        exists m, x. split; [exact Hm|]. split; [|split; [exact Hx|]].
        -- destruct Hin as [<-|Hin]; [left; reflexivity|].
           right. right. exact Hin.
        -- intros u y [<-|[<-|Hu]] Hy.
           ++ apply (Hle best y); [left; reflexivity|exact Hy].
           ++ rewrite Ht in Hy. injection Hy as <-. rewrite Heq.
              apply (Hle best xb); [left; reflexivity|exact Hb].
           ++ apply (Hle u y); [right; exact Hu|exact Hy].
    + destruct (Qltb xt xb) eqn:Hlt.
      * apply Qltb_lt in Hlt.
        destruct (IH t (Hrest t (or_intror (or_introl eq_refl))))
          as (m & x & Hm & Hin & Hx & Hle).
        exists m, x. split; [exact Hm|]. split; [|split; [exact Hx|]].
        -- destruct Hin as [<-|Hin]; [right; left; reflexivity|].
           right. right. exact Hin.
        -- intros u y [<-|[<-|Hu]] Hy.
           ++ rewrite Hb in Hy. injection Hy as <-.
              eapply Qle_trans; [apply (Hle t xt); [left; reflexivity|exact Ht]|].
              apply Qlt_le_weak, Hlt.
           ++ apply (Hle t y); [left; reflexivity|exact Hy].
           ++ apply (Hle u y); [right; exact Hu|exact Hy].
      * apply Qltb_ge in Hlt.
        destruct (IH best (Hrest best (or_introl eq_refl)))
          as (m & x & Hm & Hin & Hx & Hle).
        exists m, x. split; [exact Hm|]. split; [|split; [exact Hx|]].
        -- destruct Hin as [<-|Hin]; [left; reflexivity|].
           right. right. exact Hin.
        -- intros u y [<-|[<-|Hu]] Hy.
           ++ apply (Hle best y); [left; reflexivity|exact Hy].
           ++ rewrite Ht in Hy. injection Hy as <-.
              eapply Qle_trans; [apply (Hle best xb); [left; reflexivity|exact Hb]|].
              exact Hlt.
           ++ apply (Hle u y); [right; exact Hu|exact Hy].
Qed.

(** On a history kept in memory [get_incumbent_id] does what its docstring
    says: none when no candidate has a loss on the maximum budget, and
    otherwise the id of a candidate whose loss there is least. *)
Lemma get_incumbent_id_objects (rh : RunHistory) :
  object_data (rh_data rh) ->
  (get_incumbent_id rh = inr None /\
   forall k d x i, In (k, d) (rh_data rh) ->
     dict_get Qeq_bool (max_budget (HB_config rh)) (results d)
       <> Some (ResObject (Some x) i)) \/
  (exists k d x i,
     get_incumbent_id rh = inr (Some k) /\
     In (k, d) (rh_data rh) /\
     dict_get Qeq_bool (max_budget (HB_config rh)) (results d)
       = Some (ResObject (Some x) i) /\
     forall k' d' x' i', In (k', d') (rh_data rh) ->
       dict_get Qeq_bool (max_budget (HB_config rh)) (results d')
         = Some (ResObject (Some x') i') ->
       (x <= x')%Q).
Proof.
  intros Hobj. unfold get_incumbent_id.
  destruct (collect_max_budget_objects (max_budget (HB_config rh)) _ Hobj)
    as (tmp & -> & Hsound & Hcomplete).
  destruct tmp as [|t tmp].
  - left. split; [reflexivity|]. intros k d x i Hin Hd.
    exact (Hcomplete k d x i Hin Hd).
  - right.
    destruct (min_tuple_least tmp t) as (m & x & -> & Hin & Hx & Hle).
    { intros [l k] Hu. destruct (Hsound l k Hu) as (y & _ & _ & -> & _).
      eauto. }
    destruct m as [l k]. simpl in Hx. subst l.
    destruct (Hsound _ _ Hin) as (x0 & d & i & [= <-] & Hd & Hres).
    exists k, d, x, i. split; [reflexivity|]. split; [exact Hd|].
    split; [exact Hres|].
    intros k' d' x' i' Hin' Hres'.
    apply (Hle (Some x', k') x'); [|reflexivity].
    exact (Hcomplete k' d' x' i' Hin' Hres').
Qed.

(** C6.  On the history loaded from [tie_configs] and [tie_results] the
    scan accepts the run of [id0] (finished at 1) and rejects the last run,
    of [id1] (finished at 2), whose loss is the same; the trajectory
    returned has the single point of [id0] at time 1 and no closing point at
    time 2. *)
Theorem trajectory_not_closed_on_tie :
  exists rh,
    logged_results_to_runhistory tie_configs tie_results = inr rh /\
    (config_id <$>
       match get_all_runs rh false with inr rs => rs | inl _ => [] end)
      = [id0; id1] /\
    get_incumbent_trajectory rh true true true
      = inr (mkTrajectory [id0] [1%Q] [1%Q] [0.5%Q]).
Proof.
  eexists. split; [vm_compute; reflexivity|].
  split; vm_compute; reflexivity.
Qed.

(** When no run has a loss, no run is accepted, and closing the trajectory
    reads the last element of an empty list. *)
Lemma trajectory_raises_without_incumbent :
  exists rh,
    logged_results_to_runhistory one_run_configs no_loss_results = inr rh /\
    get_incumbent_trajectory rh true true true = inl IndexError.
Proof. eexists. split; vm_compute; reflexivity. Qed.

(** ** Sorting and ranking *)

Section SortPerm.
Context {A K : Type} (ltb : K -> K -> bool) (key : A -> K).

Lemma insert_by_Permutation (x : A) (l : list A) :
  Permutation (insert_by ltb key x l) (x :: l).
Proof.
  induction l as [|y l IH]; simpl; [reflexivity|].
  destruct (ltb (key y) (key x)); [|reflexivity].
  rewrite IH. apply perm_swap.
Qed.

Lemma sort_by_Permutation (l : list A) : Permutation (sort_by ltb key l) l.
Proof.
  induction l as [|x l IH]; simpl; [reflexivity|].
  rewrite insert_by_Permutation. constructor. exact IH.
Qed.
End SortPerm.

Lemma argsort_Permutation {K : Type} (ltb : K -> K -> bool) (xs : list K) :
  Permutation (argsort ltb xs) (seq 0 (length xs)).
Proof.
  unfold argsort. rewrite sort_by_Permutation.
  change (map snd (zip xs (seq 0 (length xs))))
    with ((zip xs (seq 0 (length xs))).*2).
  rewrite snd_zip; [reflexivity|]. rewrite length_seq. lia.
Qed.

Lemma argsort_length {K : Type} (ltb : K -> K -> bool) (xs : list K) :
  length (argsort ltb xs) = length xs.
Proof.
  rewrite (Permutation_length (argsort_Permutation ltb xs)). apply length_seq.
Qed.

Lemma double_rank_Permutation (losses : list Q) :
  Permutation (double_rank losses) (seq 0 (length losses)).
Proof.
  unfold double_rank. rewrite argsort_Permutation, argsort_length. reflexivity.
Qed.

Lemma double_rank_length (losses : list Q) :
  length (double_rank losses) = length losses.
Proof.
  rewrite (Permutation_length (double_rank_Permutation losses)).
  apply length_seq.
Qed.

(** ** C8: the resampling policy depends on the order of the losses only *)


Section SortMap.
Context {A B K K' : Type} (ltb : K -> K -> bool) (key : A -> K)
        (ltb' : K' -> K' -> bool) (key' : B -> K') (g : A -> B).
Hypothesis compat : forall x y, ltb' (key' (g x)) (key' (g y)) = ltb (key x) (key y).


End SortMap.



Section SortGeneric.
Context {A K : Type} (ltb : K -> K -> bool) (le : K -> K -> Prop)
        (key : A -> K).
Hypothesis ltb_le : forall a b, ltb a b = true -> le a b.
Hypothesis ltb_ge : forall a b, ltb a b = false -> le b a.
Hypothesis le_trans : forall a b c, le a b -> le b c -> le a c.

Lemma insert_by_StronglySorted (x : A) (l : list A) :
  StronglySorted (fun a b => le (key a) (key b)) l ->
  StronglySorted (fun a b => le (key a) (key b)) (insert_by ltb key x l).
Proof.
  induction 1 as [|y l Hs IH Hy]; simpl.
  - repeat constructor.
  - destruct (ltb (key y) (key x)) eqn:Hc.
    + constructor; [exact IH|].
      apply Forall_forall. intros z Hz.
      rewrite insert_by_Permutation in Hz. apply elem_of_cons in Hz as [->|Hz].
      * apply ltb_le, Hc.
      * rewrite Forall_forall in Hy. apply Hy. exact Hz.
    + apply ltb_ge in Hc. constructor; [constructor; assumption|].
      constructor; [exact Hc|].
      apply Forall_forall. intros z Hz. rewrite Forall_forall in Hy.
      eapply le_trans; [exact Hc|]. apply Hy, Hz.
Qed.

Lemma sort_by_StronglySorted (l : list A) :
  StronglySorted (fun a b => le (key a) (key b)) (sort_by ltb key l).
Proof.
  induction l as [|x l IH]; simpl; [constructor|].
  apply insert_by_StronglySorted, IH.
Qed.
End SortGeneric.

Lemma filter_length_Permutation {A : Type} (f : A -> bool) (l l' : list A) :
  Permutation l l' ->
  length (List.filter f l) = length (List.filter f l').
Proof.
  induction 1 as [|x l l' _ IH|x y l|l l' l'' _ IH1 _ IH2]; simpl.
  - reflexivity.
  - destruct (f x); simpl; congruence.
  - destruct (f x), (f y); reflexivity.
  - congruence.
Qed.

Lemma Qeq_bool_refl (x : Q) : Qeq_bool x x = true.
Proof. apply Qeq_bool_iff. reflexivity. Qed.

Lemma Qltb_not_eq (x y : Q) : Qltb x y = true -> Qeq_bool x y = false.
Proof.
  intros H. apply Qltb_lt in H. apply not_true_iff_false.
  rewrite Qeq_bool_iff. intros He. rewrite He in H. exact (Qlt_irrefl _ H).
Qed.

Lemma lex_irrefl (a : Q * nat) : lexb a a = false.
Proof.
  unfold lexb. rewrite Qeq_bool_refl, Nat.ltb_irrefl, andb_false_r, orb_false_r.
  apply Qltb_ge. apply Qle_refl.
Qed.

Lemma lex_asym (a b : Q * nat) : lex a b -> lexb b a = false.
Proof.
  unfold lex, lexb. intros H. apply orb_true_iff in H as [H|H].
  - apply Qltb_lt in H. apply orb_false_iff. split.
    + apply Qltb_ge. apply Qlt_le_weak, H.
    + apply andb_false_iff. left. apply not_true_iff_false.
      rewrite Qeq_bool_iff. intros He. rewrite He in H. exact (Qlt_irrefl _ H).
  - apply andb_true_iff in H as [He Hlt]. apply Qeq_bool_iff in He.
    apply Nat.ltb_lt in Hlt. apply orb_false_iff. split.
    + apply Qltb_ge. rewrite He. apply Qle_refl.
    + apply andb_false_iff. right. apply Nat.ltb_ge. lia.
Qed.

Lemma lex_le (a b : Q * nat) : lex a b -> (a.1 <= b.1)%Q.
Proof.
  unfold lex, lexb. intros H. apply orb_true_iff in H as [H|H].
  - apply Qlt_le_weak, Qltb_lt, H.
  - apply andb_true_iff in H as [He _]. apply Qeq_bool_iff in He.
    rewrite He. apply Qle_refl.
Qed.

Lemma lex_of_le (a b : Q * nat) :
  (a.1 <= b.1)%Q -> (a.2 < b.2)%nat -> lex a b.
Proof.
  intros Hle Hlt. unfold lex, lexb.
  apply Qle_lt_or_eq in Hle as [H|H].
  - apply orb_true_iff. left. apply Qltb_lt, H.
  - apply orb_true_iff. right. apply andb_true_iff. split.
    + apply Qeq_bool_iff, H.
    + apply Nat.ltb_lt, Hlt.
Qed.

(** Inserting a pair whose position is smaller than all positions of a
    list sorted by value and position keeps it sorted that way. *)
Lemma insert_by_lex (x : Q * nat) (l : list (Q * nat)) :
  StronglySorted lex l ->
  Forall (fun e => (x.2 < e.2)%nat) l ->
  StronglySorted lex (insert_by Qltb fst x l).
Proof.
  induction 1 as [|y l Hs IH Hy]; intros Hidx; simpl.
  - repeat constructor.
  - apply Forall_cons in Hidx as [Hxy Hidx].
    destruct (Qltb y.1 x.1) eqn:Hc.
    + constructor; [apply IH, Hidx|].
      apply Forall_forall. intros z Hz.
      rewrite insert_by_Permutation in Hz. apply elem_of_cons in Hz as [->|Hz].
      * unfold lex, lexb. rewrite Hc. reflexivity.
      * rewrite Forall_forall in Hy. apply Hy, Hz.
    + apply Qltb_ge in Hc. constructor; [constructor; assumption|].
      constructor; [apply lex_of_le; assumption|].
      apply Forall_forall. intros z Hz.
      rewrite Forall_forall in Hy, Hidx.
      apply lex_of_le; [|apply Hidx, Hz].
      eapply Qle_trans; [exact Hc|]. apply lex_le, Hy, Hz.
Qed.

Lemma sort_by_lex (l : list (Q * nat)) :
  StronglySorted (fun a b => (a.2 < b.2)%nat) l ->
  StronglySorted lex (sort_by Qltb fst l).
Proof.
  induction 1 as [|x l Hs IH Hx]; simpl; [constructor|].
  apply insert_by_lex; [exact IH|].
  rewrite sort_by_Permutation. exact Hx.
Qed.

Lemma zip_seq_sorted (xs : list Q) :
  forall a, StronglySorted (fun p q : Q * nat => (p.2 < q.2)%nat)
                           (zip xs (seq a (length xs))).
Proof.
  induction xs as [|x xs IH]; intros a; simpl; [constructor|].
  constructor; [apply IH|].
  apply Forall_forall. intros [y j] Hin.
  apply list_elem_of_lookup in Hin as [i Hi].
  apply lookup_zip_Some in Hi as [_ Hj]. apply lookup_seq in Hj. simpl. lia.
Qed.

(** In a list sorted by a strict order, an element sits at the position
    that counts the elements below it. *)
Lemma sorted_position (l : list (Q * nat)) :
  StronglySorted lex l ->
  forall k e, l !! k = Some e ->
              length (List.filter (fun e' => lexb e' e) l) = k.
Proof.
  induction 1 as [|y l Hs IH Hy]; intros k e Hk.
  - rewrite lookup_nil in Hk. discriminate.
  - rewrite Forall_forall in Hy. destruct k as [|k]; simpl in Hk.
    + injection Hk as <-. simpl. rewrite lex_irrefl.
      assert (Hnone : List.filter (fun e' => lexb e' y) l = []).
      { clear -Hy. induction l as [|z l IH]; simpl; [reflexivity|].
        rewrite (lex_asym y z) by (apply Hy; left).
        apply IH. intros w Hw. apply Hy. right. exact Hw. }
      rewrite Hnone. reflexivity.
    + simpl. assert (Hye : lex y e).
      { apply Hy. eapply list_elem_of_lookup_2. exact Hk. }
      unfold lex in Hye. rewrite Hye. simpl. f_equal. apply IH. exact Hk.
Qed.

Lemma count_lex_zip (x : Q) (i : nat) (xs : list Q) :
  forall a,
    length (List.filter (fun e' => lexb e' (x, i))
                        (zip xs (seq a (length xs))))
    = (length (List.filter (fun y => Qltb y x) xs)
       + length (List.filter (fun y => Qeq_bool y x) (take (i - a) xs)))%nat.
Proof.
  induction xs as [|y xs IH]; intros a; simpl.
  - rewrite take_nil. reflexivity.
  - specialize (IH (S a)).
    change (lexb (y, a) (x, i))
      with (Qltb y x || (Qeq_bool y x && (a <? i)%nat)).
    destruct (Qltb y x) eqn:Hlt; simpl.
    + rewrite IH. destruct (i - a)%nat as [|d] eqn:Hd; simpl.
      * replace (i - S a)%nat with 0%nat by lia. reflexivity.
      * rewrite (Qltb_not_eq _ _ Hlt).
        replace (i - S a)%nat with d by lia. reflexivity.
    + destruct (i - a)%nat as [|d] eqn:Hd; simpl.
      * replace (i - S a)%nat with 0%nat in IH by lia.
        replace (a <? i)%nat with false
          by (symmetry; apply Nat.ltb_ge; lia).
        rewrite andb_false_r. exact IH.
      * replace (i - S a)%nat with d in IH by lia.
        replace (a <? i)%nat with true
          by (symmetry; apply Nat.ltb_lt; lia).
        rewrite andb_true_r. destruct (Qeq_bool y x); simpl; lia.
Qed.

Lemma seq_StronglySorted (n : nat) :
  forall a, StronglySorted le (seq a n).
Proof.
  induction n as [|n IH]; intros a; simpl; constructor; [apply IH|].
  apply Forall_forall. intros j Hj. apply list_elem_of_lookup in Hj as [i Hi].
  apply lookup_seq in Hi. lia.
Qed.

(** Sorting the positions of a permutation by their values inverts it. *)
Lemma argsort_inverse (p : list nat) (n : nat) :
  Permutation p (seq 0 n) ->
  forall k i, p !! k = Some i -> argsort Nat.ltb p !! i = Some k.
Proof.
  intros Hp k i Hk. unfold argsort.
  set (R := sort_by Nat.ltb fst (zip p (seq 0 (length p)))).
  assert (Hperm : Permutation R (zip p (seq 0 (length p))))
    by apply sort_by_Permutation.
  assert (Hfst : fst <$> R = seq 0 n).
  { apply (StronglySorted_unique le).
    - apply (StronglySorted_fmap fst (fun a b : nat * nat => a.1 <= b.1)%nat le);
        [auto|].
      apply (sort_by_StronglySorted Nat.ltb le fst).
      + intros a b H. apply Nat.ltb_lt in H. lia.
      + intros a b H. apply Nat.ltb_ge in H. exact H.
      + intros a b c. apply Nat.le_trans.
    - apply seq_StronglySorted.
    - rewrite Hperm, fst_zip; [exact Hp|]. rewrite length_seq. lia. }
  assert (Hi : (i < n)%nat).
  { assert (Hin : i ∈ seq 0 n).
    { rewrite <- Hp. eapply list_elem_of_lookup_2. exact Hk. }
    apply list_elem_of_lookup in Hin as [j Hj]. apply lookup_seq in Hj. lia. }
  assert (Hri : (fst <$> R) !! i = Some i).
  { rewrite Hfst. apply lookup_seq. lia. }
  rewrite list_lookup_fmap in Hri.
  destruct (R !! i) as [[i' k']|] eqn:HR; [|discriminate].
  simpl in Hri. injection Hri as ->.
  change (map snd R) with (snd <$> R). rewrite list_lookup_fmap, HR. simpl.
  f_equal.
  assert (Hin : (i, k') ∈ zip p (seq 0 (length p))).
  { rewrite <- Hperm. eapply list_elem_of_lookup_2. exact HR. }
  apply list_elem_of_lookup in Hin as [j Hj].
  apply lookup_zip_Some in Hj as [Hpj Hsj]. apply lookup_seq in Hsj as [-> _].
  simpl. eapply NoDup_lookup; [|exact Hpj|exact Hk].
  rewrite Hp. apply NoDup_seq.
Qed.

(** The double argsort of the source is the stable rank of the spec. *)
Lemma double_rank_stable (losses : list Q) (i : nat) (x : Q) :
  losses !! i = Some x ->
  double_rank losses !! i = Some (stable_rank losses i x).
Proof.
  intros Hx. unfold double_rank.
  set (Z := zip losses (seq 0 (length losses))).
  set (P := sort_by Qltb fst Z).
  assert (HZ : Z !! i = Some (x, i)).
  { apply lookup_zip_Some. split; [exact Hx|].
    apply lookup_seq. split; [reflexivity|]. eapply lookup_lt_Some. exact Hx. }
  assert (Hperm : Permutation P Z) by apply sort_by_Permutation.
  assert (Hin : (x, i) ∈ P).
  { rewrite Hperm. eapply list_elem_of_lookup_2. exact HZ. }
  apply list_elem_of_lookup in Hin as [k Hk].
  assert (Hrank : k = stable_rank losses i x).
  { rewrite <- (sorted_position P (sort_by_lex Z (zip_seq_sorted losses 0)) k
                  (x, i) Hk).
    rewrite (filter_length_Permutation _ _ _ Hperm).
    unfold Z. rewrite count_lex_zip. rewrite Nat.sub_0_r. reflexivity. }
  rewrite <- Hrank.
  apply (argsort_inverse _ (length losses)).
  - apply argsort_Permutation.
  - unfold argsort. fold Z. fold P.
    change (map snd P) with (snd <$> P). rewrite list_lookup_fmap, Hk.
    reflexivity.
Qed.




(** ** C7: the metadata inferred from the logs *)

Lemma sort_by_sorted {A : Type} (key : A -> Q) (l : list A) :
  StronglySorted (key_le key) (sort_by Qltb key l).
Proof.
  apply (sort_by_StronglySorted Qltb Qle key).
  - intros a b H. apply Qlt_le_weak, Qltb_lt, H.
  - intros a b H. apply Qltb_ge, H.
  - intros a b c. apply Qle_trans.
Qed.









Lemma dict_get_set_cid {V : Type} (k k' : CandidateId) (v : V)
    (d : list (CandidateId * V)) :
  dict_get cid_eqb k (dict_set cid_eqb k' v d)
  = if cid_eqb k' k then Some v else dict_get cid_eqb k d.
Proof.
  induction d as [|[k0 v0] d IH]; simpl; [reflexivity|].
  destruct (cid_eqb k0 k') eqn:H0; simpl.
  - apply cid_eqb_eq in H0 as ->. destruct (cid_eqb k' k); reflexivity.
  - rewrite IH. destruct (cid_eqb k0 k) eqn:H1; [|reflexivity].
    apply cid_eqb_eq in H1 as ->.
    destruct (cid_eqb k' k) eqn:H2; [|reflexivity].
    apply cid_eqb_eq in H2 as ->. rewrite cid_eqb_refl in H0. discriminate.
Qed.






(** ** The bracket: how the state moves *)

Lemma filter_status_state (st : Status) (keys : list CandidateId) (s : St) :
  state_of (filter_status st keys s) = s.
Proof.
  induction keys as [|k keys IH]; simpl; [reflexivity|].
  unfold_monad.
  destruct (dict_get cid_eqb k (data (self s))) as [l|]; [|reflexivity].
  destruct (heap s !! l) as [c|]; [|reflexivity].
  destruct (filter_status st keys s) as [s1 r|s1 e]; simpl in IH; subst s1;
    reflexivity.
Qed.

Lemma keys_with_status_state (st : Status) (s : St) :
  state_of (keys_with_status st s) = s.
Proof. unfold keys_with_status. unfold_monad. apply filter_status_state. Qed.

Lemma mapM_state {A B : Type} (f : A -> M B) (xs : list A) :
  (forall x s, state_of (f x s) = s) ->
  forall s, state_of (mapM f xs s) = s.
Proof.
  intros Hf. induction xs as [|x xs IH]; intros s; simpl; [reflexivity|].
  unfold_monad. specialize (Hf x s).
  destruct (f x s) as [s1 y|s1 e]; simpl in Hf; subst s1; [|reflexivity].
  specialize (IH s).
  destruct (mapM f xs s) as [s1 ys|s1 e]; simpl in IH; subst s1; reflexivity.
Qed.

Lemma read_budget_state (cid : CandidateId) (s : St) :
  state_of ((do l <- data_lookup cid ; do c <- load l ; ret (cs_budget c)) s) = s.
Proof.
  unfold_monad.
  destruct (dict_get cid_eqb cid (data (self s))) as [l|]; [|reflexivity].
  destruct (heap s !! l) as [c|]; reflexivity.
Qed.

Lemma read_loss_state (budget : Q) (cid : CandidateId) (s : St) :
  state_of ((do l <- data_lookup cid ; do c <- load l ;
             do r <- lift (get_incumbent c (Some budget)) ;
             ret (res_loss r)) s) = s.
Proof.
  unfold_monad.
  destruct (dict_get cid_eqb cid (data (self s))) as [l|]; [|reflexivity].
  destruct (heap s !! l) as [c|]; [|reflexivity].
  destruct (get_incumbent c (Some budget)); reflexivity.
Qed.

(** Case analysis on an outcome whose state is known. *)
Ltac pure_step H :=
  match type of H with
  | state_of ?m = ?s =>
      let s1 := fresh "s" in
      destruct m as [s1 ?|s1 ?] eqn:?; simpl in H; subst s1
  end.

Lemma set_actual_id (it : Iteration) :
  set_actual_num_candidates (actual_num_candidates it) it = it.
Proof. destruct it; reflexivity. Qed.

Lemma insert_default_id (xs : list Z) (i : nat) :
  <[i := default 0 (xs !! i) + 0]> xs = xs.
Proof.
  destruct (xs !! i) as [x|] eqn:Hx; simpl.
  - rewrite Z.add_0_r. apply list_insert_id. exact Hx.
  - apply list_insert_ge. apply lookup_ge_None. exact Hx.
Qed.

Lemma bumped_0 (it : Iteration) : bumped 0 it = it.
Proof. unfold bumped. rewrite insert_default_id. apply set_actual_id. Qed.

Lemma advance_loop_self (cids : list CandidateId) :
  forall adv s,
    exists k, 0 <= k <= count_true adv /\
              self (state_of (advance_loop cids adv s)) = bumped k (self s).
Proof.
  induction cids as [|cid cids IH]; intros adv s; simpl.
  - exists 0. split; [|symmetry; apply bumped_0].
    split; [lia|]. clear. induction adv as [|[] adv IHa]; simpl; lia.
  - assert (Hnn : forall v, 0 <= count_true v).
    { clear. induction v as [|[] v IHv]; simpl; lia. }
    assert (H0 : forall n, 0 <= n -> exists k, 0 <= k <= n /\
                                               self s = bumped k (self s)).
    { intros n Hn. exists 0. split; [lia|]. symmetry; apply bumped_0. }
    destruct adv as [|[|] adv]; unfold_monad; simpl.
    + apply H0; lia.
    + destruct (budgets (self s) !! stage (self s)) as [b|]; simpl;
        [|apply H0; specialize (Hnn adv); lia].
      destruct (dict_get cid_eqb cid (data (self s))) as [l|]; simpl;
        [|apply H0; specialize (Hnn adv); lia].
      destruct (heap s !! l) as [c|] eqn:Hc; simpl;
        [|apply H0; specialize (Hnn adv); lia].
      rewrite list_lookup_insert_eq by (eapply lookup_lt_Some; eassumption).
      simpl.
      destruct (actual_num_candidates (self s) !! stage (self s)) as [a|] eqn:Ha;
        simpl;
        [|apply H0; specialize (Hnn adv); lia].
      match goal with |- context [advance_loop cids adv ?s1] =>
        destruct (IH adv s1) as (k & Hk & ->) end.
      simpl. exists (1 + k). split; [specialize (Hnn adv); lia|].
      unfold bumped. simpl. rewrite Ha. simpl.
      rewrite list_lookup_insert_eq by (eapply lookup_lt_Some; eassumption).
      simpl. rewrite list_insert_insert_eq.
      unfold set_actual_num_candidates. simpl. do 2 f_equal. lia.
    + destruct (dict_get cid_eqb cid (data (self s))) as [l|]; simpl;
        [|apply H0; specialize (Hnn adv); lia].
      destruct (heap s !! l) as [c|] eqn:Hc; simpl;
        [|apply H0; specialize (Hnn adv); lia].
      match goal with |- context [advance_loop cids adv ?s1] =>
        destruct (IH adv s1) as (k & Hk & ->) end.
      simpl. exists k. split; [lia|reflexivity].
Qed.

Lemma finish_up_loop_self (items : list (CandidateId * nat)) :
  forall s, self (state_of (finish_up_loop items s)) = self s.
Proof.
  induction items as [|[k v] items IH]; intros s; simpl; [reflexivity|].
  unfold_monad.
  destruct (heap s !! v) as [c|] eqn:Hc; simpl; [|reflexivity].
  destruct (cs_status c); simpl; try reflexivity;
    rewrite Hc; simpl; rewrite IH; reflexivity.
Qed.

Lemma cap_inv_bumped (num : list Z) (k n : Z) (it : Iteration) :
  cap_inv num it ->
  num_candidates it !! stage it = Some n ->
  default 0 (actual_num_candidates it !! stage it) + k <= n ->
  cap_inv num (bumped k it).
Proof.
  intros (Hnum & Hlen & Hcap & Hzero) Hn Hk. unfold cap_inv, bumped. simpl.
  split; [exact Hnum|]. split; [rewrite length_insert; exact Hlen|]. split.
  - intros i a m Ha Hm. unfold capacity_respected in Hcap. simpl in *.
    destruct (decide (i = stage it)) as [->|Hne].
    + apply list_lookup_insert_Some in Ha as [(_ & <- & _)|(Hc & _)]; [|congruence].
      rewrite Hn in Hm. injection Hm as <-. exact Hk.
    + rewrite list_lookup_insert_ne in Ha by congruence. eauto.
  - intros i a Hi Ha. rewrite list_lookup_insert_ne in Ha by lia. eauto.
Qed.

Lemma cap_inv_next_stage (num : list Z) (it : Iteration) :
  cap_inv num it -> cap_inv num (set_stage (S (stage it)) it).
Proof.
  intros (Hnum & Hlen & Hcap & Hzero). split; [exact Hnum|].
  split; [exact Hlen|]. split; [exact Hcap|].
  simpl. intros i a Hi Ha. apply (Hzero i a); [lia|exact Ha].
Qed.

Lemma cap_finish_stage (num : list Z) (policy : Policy) (s : St) :
  policy_bounded num policy ->
  cap_inv num (self s) ->
  cap_inv num (self (state_of (_finish_stage policy s))).
Proof.
  intros Hpol Hinv0. pose proof (cap_inv_next_stage _ _ Hinv0) as Hinv.
  unfold _finish_stage. unfold bind at 1. unfold modify_self at 1.
  set (s1 := mkSt (set_stage (S (stage (self s))) (self s)) (heap s)).
  change (cap_inv num (self s1)) in Hinv.
  unfold bind at 1.
  pose proof (keys_with_status_state REVIEW s1) as Hk. pure_step Hk; [|exact Hinv].
  unfold bind at 1. unfold get_self at 1.
  destruct (length (num_candidates (self s1)) <=? stage (self s1))%nat eqn:Hlast.
  - (* the last stage: _finish_up *)
    unfold _finish_up. unfold_monad. simpl. rewrite finish_up_loop_self. simpl.
    exact Hinv.
  - apply Nat.leb_gt in Hlast.
    unfold bind at 1.
    match goal with |- context [mapM ?f a s1] =>
      pose proof (mapM_state f a read_budget_state s1) as Hb end.
    pure_step Hb; [|exact Hinv].
    destruct (1 <? length (distinct a0))%nat; [exact Hinv|].
    unfold bind at 1. unfold index at 1.
    destruct (budgets (self s1) !! (stage (self s1) - 1)%nat) as [budget|];
      [|exact Hinv].
    unfold ret at 1. unfold bind at 1.
    match goal with |- context [mapM ?f a s1] =>
      pose proof (mapM_state f a (read_loss_state budget) s1) as Hl end.
    pure_step Hl; [|exact Hinv].
    unfold bind at 1. unfold lift.
    destruct (policy (self s1) a1) as [e|v] eqn:Hv; [exact Hinv|].
    unfold ret at 1.
    destruct (advance_loop_self a v s1) as (k & Hk' & ->).
    destruct (lookup_lt_is_Some_2 (num_candidates (self s1)) (stage (self s1)) Hlast)
      as [n Hn].
    destruct Hinv as (Hnum & Hlen & Hcap & Hzero).
    assert (Hlt : (stage (self s1) < length (actual_num_candidates (self s1)))%nat)
      by (rewrite Hlen; exact Hlast).
    destruct (lookup_lt_is_Some_2 _ _ Hlt) as [a2 Ha2].
    assert (Hn0 : a2 <= n) by (eapply Hcap; eassumption).
    apply (cap_inv_bumped num k n);
      [split; [|split; [|split]]; assumption|exact Hn|].
    rewrite Ha2. simpl.
    assert (a2 = 0).
    { (* the counter of the new stage has not been touched yet *)
      destruct Hinv0 as (_ & _ & _ & Hzero0).
      apply (Hzero0 (S (stage (self s)))); [lia|exact Ha2]. }
    subst a2. rewrite Hnum in Hn.
    specialize (Hpol (self s1) a1 v n Hnum Hv Hn Hn0). lia.
Qed.

Lemma cap_inv_data (num : list Z) (d : list (CandidateId * nat))
    (it : Iteration) :
  cap_inv num it -> cap_inv num (set_data d it).
Proof. intros H. exact H. Qed.

Lemma cap_inv_num_running (num : list Z) (n : Z) (it : Iteration) :
  cap_inv num it -> cap_inv num (set_num_running n it).
Proof. intros H. exact H. Qed.

Lemma cap_inv_fill (num : list Z) (a n : Z) (it : Iteration) :
  cap_inv num it ->
  actual_num_candidates it !! stage it = Some a ->
  num_candidates it !! stage it = Some n ->
  a <> n ->
  cap_inv num (set_actual_num_candidates
                 (<[stage it := a + 1]> (actual_num_candidates it)) it).
Proof.
  intros Hinv Ha Hn Hne.
  pose proof (cap_inv_bumped num 1 n it Hinv Hn) as H.
  unfold bumped in H. rewrite Ha in H. simpl in H. apply H.
  destruct Hinv as (_ & _ & Hcap & _). specialize (Hcap _ _ _ Ha Hn). lia.
Qed.

Lemma cap_add_candidate (num : list Z) (gen : CandidateStructure) (s : St) :
  cap_inv num (self s) ->
  cap_inv num (self (state_of (_add_candidate gen s))).
Proof.
  intros Hinv. unfold _add_candidate. unfold_monad. simpl.
  destruct (is_finished (self s)); [exact Hinv|].
  destruct (actual_num_candidates (self s) !! stage (self s)) as [a|] eqn:Ha;
    [|exact Hinv].
  destruct (num_candidates (self s) !! stage (self s)) as [n|] eqn:Hn;
    [|exact Hinv].
  destruct (a =? n) eqn:Han; [exact Hinv|]. apply Z.eqb_neq in Han.
  rewrite lookup_app_r by lia. rewrite Nat.sub_diag. simpl.
  destruct (budgets (self s) !! stage (self s)) as [b|]; [|exact Hinv].
  simpl.
  repeat (rewrite list_lookup_insert_eq
            by (rewrite ?length_insert, length_app; simpl; lia); simpl).
  apply (cap_inv_fill num a n _ Hinv Ha Hn Han).
Qed.

Lemma cap_register_result (num : list Z) (cs : nat) (s : St) :
  cap_inv num (self s) ->
  cap_inv num (self (state_of (register_result cs s))).
Proof.
  intros Hinv. unfold register_result. unfold_monad.
  destruct (is_finished (self s)); [exact Hinv|].
  destruct (heap s !! cs); simpl; exact Hinv.
Qed.

Lemma cap_get_next_candidate_rec (num : list Z) (policy : Policy)
    (gen : CandidateStructure) (fuel : nat) :
  policy_bounded num policy ->
  forall s,
    cap_inv num (self s) ->
    cap_inv num (self (state_of (get_next_candidate_rec fuel policy gen s))).
Proof.
  intros Hpol. induction fuel as [|fuel IH]; intros s Hinv.
  all: simpl; unfold get_next_candidate_body; unfold bind at 1;
       unfold get_self at 1.
  all: destruct (is_finished (self s)); [exact Hinv|].
  all: unfold bind at 1.
  all: pose proof (keys_with_status_state QUEUED s) as Hk; pure_step Hk;
       [|exact Hinv].
  all: destruct a as [|cid rest].
  all: try (unfold_monad;
            destruct (dict_get cid_eqb cid (data (self s))) as [l|]; [|exact Hinv];
            destruct (heap s !! l) as [c|] eqn:Hc; [|exact Hinv];
            destruct (budgets (self s) !! stage (self s)) as [b|]; [|exact Hinv];
            destruct (Qeq_bool (cs_budget c) b); [|exact Hinv];
            rewrite Hc; simpl; exact Hinv).
  all: unfold bind at 1; unfold index at 1.
  all: destruct (actual_num_candidates (self s) !! stage (self s)) as [a|];
       [|exact Hinv].
  all: unfold ret at 1; unfold bind at 1; unfold index at 1.
  all: destruct (num_candidates (self s) !! stage (self s)) as [n|];
       [|exact Hinv].
  all: unfold ret at 1.
  all: destruct (a <? n).
  all: try (unfold bind at 1;
            pose proof (cap_add_candidate num gen s Hinv) as Hadd;
            destruct (_add_candidate gen s) as [s1 l|s1 e]; simpl in Hadd;
            [|exact Hadd];
            unfold_monad; destruct (heap s1 !! l); simpl; exact Hadd).
  all: destruct (num_running (self s) =? 0); [|exact Hinv].
  all: unfold bind at 1.
  all: pose proof (cap_finish_stage num policy s Hpol Hinv) as Hfin.
  all: destruct (_finish_stage policy s) as [s1 []|s1 e]; simpl in Hfin;
       [|exact Hfin].
  - exact Hfin.
  - apply IH. exact Hfin.
Qed.

Lemma cap_exec (num : list Z) (policy : Policy) (o : op) (s : St) :
  policy_bounded num policy ->
  cap_inv num (self s) ->
  cap_inv num (self (state_of (exec policy o s))).
Proof.
  intros Hpol Hinv. destruct o as [gen|cs|gen| |cs r b]; simpl.
  - unfold get_next_candidate.
    pose proof (cap_get_next_candidate_rec num policy gen
                  (length (num_candidates (self s))) Hpol s Hinv) as H.
    destruct (get_next_candidate_rec _ policy gen s); exact H.
  - apply cap_register_result, Hinv.
  - pose proof (cap_add_candidate num gen s Hinv) as H.
    destruct (_add_candidate gen s); exact H.
  - apply cap_finish_stage; assumption.
  - unfold_monad. destruct (heap s !! cs); exact Hinv.
Qed.

Lemma cap_inv_init (it : Z) (num : list Z) (bs : list Q) (t : option Q) :
  Forall (fun n => 0 <= n) num -> cap_inv num (init it num bs t).
Proof.
  intros Hnum. unfold cap_inv, init, capacity_respected. simpl.
  split; [reflexivity|]. split; [apply length_replicate|]. split.
  - intros i a n Ha Hn. apply lookup_replicate in Ha as [-> _].
    rewrite Forall_forall in Hnum. apply Hnum.
    eapply list_elem_of_lookup_2. exact Hn.
  - intros i a _ Ha. apply lookup_replicate in Ha as [-> _]. reflexivity.
Qed.

(** C2 (amended).  Under a policy that, on the bracket's ladder, promotes no
    more candidates than the next stage has slots (successive halving, or
    successive resampling on a ladder without a stage smaller than
    [min_samples_advance]), and with capacities that are not negative, every
    state reached from a new bracket by [get_next_candidate],
    [register_result], [_add_candidate], [_finish_stage] and [add_result],
    in any order and also when a call raises, has
    [actual_num_candidates[s] <= num_candidates[s]] at every stage [s]. *)
Theorem capacity_invariant (policy : Policy) (it : Z) (num : list Z)
    (bs : list Q) (t : option Q) (heap0 : list CandidateStructure) (s : St) :
  policy_bounded num policy ->
  Forall (fun n => 0 <= n) num ->
  reachable policy (mkSt (init it num bs t) heap0) s ->
  capacity_respected (self s).
Proof.
  intros Hpol Hnum Hreach.
  enough (cap_inv num (self s)) as (_ & _ & H & _) by exact H.
  induction Hreach as [|s o _ IH].
  - apply cap_inv_init, Hnum.
  - apply cap_exec; assumption.
Qed.

(** ** The bracket: the recursion of [get_next_candidate] ends *)

Lemma finish_stage_stage (policy : Policy) (s : St) :
  ladder_position (state_of (_finish_stage policy s))
  = (S (stage (self s)), num_candidates (self s)).
Proof.
  unfold _finish_stage. unfold bind at 1. unfold modify_self at 1.
  set (s1 := mkSt (set_stage (S (stage (self s))) (self s)) (heap s)).
  assert (H1 : ladder_position s1
               = (S (stage (self s)), num_candidates (self s)))
    by reflexivity.
  unfold bind at 1.
  pose proof (keys_with_status_state REVIEW s1) as Hk. pure_step Hk; [|exact H1].
  unfold bind at 1. unfold get_self at 1.
  destruct (length (num_candidates (self s1)) <=? stage (self s1))%nat.
  - unfold _finish_up. unfold_monad. simpl. unfold ladder_position.
    rewrite finish_up_loop_self. exact H1.
  - unfold bind at 1.
    match goal with |- context [mapM ?f a s1] =>
      pose proof (mapM_state f a read_budget_state s1) as Hb end.
    pure_step Hb; [|exact H1].
    destruct (1 <? length (distinct a0))%nat; [exact H1|].
    unfold bind at 1. unfold index at 1.
    destruct (budgets (self s1) !! (stage (self s1) - 1)%nat) as [budget|];
      [|exact H1].
    unfold ret at 1. unfold bind at 1.
    match goal with |- context [mapM ?f a s1] =>
      pose proof (mapM_state f a (read_loss_state budget) s1) as Hl end.
    pure_step Hl; [|exact H1].
    unfold bind at 1. unfold lift.
    destruct (policy (self s1) a1) as [e|v]; [exact H1|].
    unfold ret at 1.
    unfold ladder_position.
    destruct (advance_loop_self a v s1) as (k & _ & ->). exact H1.
Qed.

Lemma get_next_candidate_body_ext (policy : Policy) (gen : CandidateStructure)
    (k k' : M (option nat)) (s : St) :
  (forall s1, _finish_stage policy s = Return s1 tt ->
              (stage (self s) < length (num_candidates (self s)))%nat ->
              k s1 = k' s1) ->
  get_next_candidate_body policy gen k s
  = get_next_candidate_body policy gen k' s.
Proof.
  intros Hk. unfold get_next_candidate_body. unfold_monad.
  destruct (is_finished (self s)); [reflexivity|].
  pose proof (keys_with_status_state QUEUED s) as Hs. pure_step Hs;
    [|reflexivity].
  destruct a as [|cid rest]; [|reflexivity].
  destruct (actual_num_candidates (self s) !! stage (self s)) as [a|];
    [|reflexivity].
  destruct (num_candidates (self s) !! stage (self s)) as [n|] eqn:Hn;
    [|reflexivity].
  destruct (a <? n); [reflexivity|].
  destruct (num_running (self s) =? 0); [|reflexivity].
  destruct (_finish_stage policy s) as [s1 []|s1 e] eqn:Hfs; [|reflexivity].
  apply Hk; [reflexivity|]. eapply lookup_lt_Some. exact Hn.
Qed.

(** More fuel than the stages that are left changes nothing. *)
Lemma get_next_candidate_rec_fuel (policy : Policy) (gen : CandidateStructure)
    (f : nat) :
  forall f' s,
    (length (num_candidates (self s)) - stage (self s) <= f)%nat ->
    (length (num_candidates (self s)) - stage (self s) <= f')%nat ->
    get_next_candidate_rec f policy gen s
    = get_next_candidate_rec f' policy gen s.
Proof.
  induction f as [|f IH]; intros f' s Hf Hf'.
  all: destruct f' as [|f']; simpl; apply get_next_candidate_body_ext.
  all: intros s1 Hfs Hlt; try lia.
  pose proof (finish_stage_stage policy s) as Hpos. rewrite Hfs in Hpos.
  injection Hpos as Hst Hnum. apply IH; rewrite Hst, Hnum; lia.
Qed.

(** [get_next_candidate] does not depend on the fuel it is given, as long
    as it is enough. *)
Lemma get_next_candidate_enough_fuel (policy : Policy)
    (gen : CandidateStructure) (f : nat) (s : St) :
  (length (num_candidates (self s)) <= f)%nat ->
  get_next_candidate policy gen s = get_next_candidate_rec f policy gen s.
Proof.
  intros Hf. unfold get_next_candidate.
  apply get_next_candidate_rec_fuel; lia.
Qed.

(** ** The bracket: well-formed stores *)

Ltac shape :=
  repeat split; simpl; rewrite ?length_insert; try reflexivity.

Lemma same_shape_refl (s : St) : same_shape s s.
Proof. shape. Qed.

Lemma same_shape_trans (s1 s2 s3 : St) :
  same_shape s1 s2 -> same_shape s2 s3 -> same_shape s1 s3.
Proof.
  intros (H1 & H2 & H3 & H4) (H5 & H6 & H7 & H8). repeat split; congruence.
Qed.

Lemma wf_same_shape (s s' : St) : wf s -> same_shape s s' -> wf s'.
Proof.
  intros (Hk & Hl & Ha & Hn) (Hd & Hh & Hc & Hm). unfold wf.
  rewrite Hd, Hh, Hc, Hm. auto.
Qed.

Lemma same_shape_modify_obj (l : nat) (f : CandidateStructure -> CandidateStructure)
    (s : St) :
  same_shape s (state_of (modify_obj l f s)).
Proof.
  unfold_monad. destruct (heap s !! l); simpl; [|apply same_shape_refl].
  shape.
Qed.

Lemma finish_up_loop_shape (items : list (CandidateId * nat)) :
  forall s, same_shape s (state_of (finish_up_loop items s)).
Proof.
  induction items as [|[k v] items IH]; intros s; simpl;
    [apply same_shape_refl|].
  unfold_monad.
  destruct (heap s !! v) as [c|] eqn:Hc; simpl; [|apply same_shape_refl].
  destruct (cs_status c); simpl; try apply same_shape_refl.
  all: rewrite Hc; simpl.
  all: eapply same_shape_trans; [|apply IH].
  all: shape.
Qed.

Lemma advance_loop_shape (cids : list CandidateId) :
  forall adv s, same_shape s (state_of (advance_loop cids adv s)).
Proof.
  induction cids as [|cid cids IH]; intros adv s; simpl;
    [apply same_shape_refl|].
  destruct adv as [|[|] adv]; unfold_monad; simpl.
  - apply same_shape_refl.
  - destruct (budgets (self s) !! stage (self s)) as [b|]; simpl;
      [|apply same_shape_refl].
    destruct (dict_get cid_eqb cid (data (self s))) as [l|]; simpl;
      [|apply same_shape_refl].
    destruct (heap s !! l) as [c|] eqn:Hc; simpl; [|apply same_shape_refl].
    rewrite list_lookup_insert_eq by (eapply lookup_lt_Some; eassumption).
    simpl.
    destruct (actual_num_candidates (self s) !! stage (self s)) as [a|];
      simpl.
    + eapply same_shape_trans; [|apply IH].
      shape.
    + shape.
  - destruct (dict_get cid_eqb cid (data (self s))) as [l|]; simpl;
      [|apply same_shape_refl].
    destruct (heap s !! l) as [c|] eqn:Hc; simpl; [|apply same_shape_refl].
    eapply same_shape_trans; [|apply IH].
    shape.
Qed.

Lemma finish_stage_shape (policy : Policy) (s : St) :
  same_shape s (state_of (_finish_stage policy s)).
Proof.
  unfold _finish_stage. unfold bind at 1. unfold modify_self at 1.
  set (s1 := mkSt (set_stage (S (stage (self s))) (self s)) (heap s)).
  assert (H1 : same_shape s s1) by shape.
  unfold bind at 1.
  pose proof (keys_with_status_state REVIEW s1) as Hk. pure_step Hk; [|exact H1].
  unfold bind at 1. unfold get_self at 1.
  destruct (length (num_candidates (self s1)) <=? stage (self s1))%nat.
  - unfold _finish_up. unfold bind at 1. unfold modify_self at 1.
    unfold bind at 1. unfold get_self at 1.
    eapply same_shape_trans; [|apply finish_up_loop_shape].
    shape.
  - unfold bind at 1.
    match goal with |- context [mapM ?f a s1] =>
      pose proof (mapM_state f a read_budget_state s1) as Hb end.
    pure_step Hb; [|exact H1].
    destruct (1 <? length (distinct a0))%nat; [exact H1|].
    unfold bind at 1. unfold index at 1.
    destruct (budgets (self s1) !! (stage (self s1) - 1)%nat) as [budget|];
      [|exact H1].
    unfold ret at 1. unfold bind at 1.
    match goal with |- context [mapM ?f a s1] =>
      pose proof (mapM_state f a (read_loss_state budget) s1) as Hl end.
    pure_step Hl; [|exact H1].
    unfold bind at 1. unfold lift.
    destruct (policy (self s1) a1) as [e|v]; [exact H1|].
    unfold ret at 1.
    eapply same_shape_trans; [exact H1|apply advance_loop_shape].
Qed.

Lemma cid_eqb_decide (a b : CandidateId) : cid_eqb a b = bool_decide (a = b).
Proof.
  destruct (cid_eqb a b) eqn:H.
  - apply cid_eqb_eq in H. symmetry. apply bool_decide_eq_true. exact H.
  - apply cid_eqb_neq in H. symmetry. apply bool_decide_eq_false. exact H.
Qed.

Lemma dict_set_keys {V : Type} (k : CandidateId) (v : V)
    (d : list (CandidateId * V)) :
  map fst (dict_set cid_eqb k v d)
  = if existsb (cid_eqb k) (map fst d) then map fst d else map fst d ++ [k].
Proof.
  induction d as [|[k0 v0] d IH]; simpl; [reflexivity|].
  destruct (cid_eqb k0 k) eqn:H0.
  - apply cid_eqb_eq in H0 as ->. rewrite cid_eqb_refl. reflexivity.
  - simpl. rewrite IH.
    destruct (cid_eqb k k0) eqn:H1.
    + apply cid_eqb_eq in H1 as ->. rewrite cid_eqb_refl in H0. discriminate.
    + simpl. destruct (existsb (cid_eqb k) (map fst d)); reflexivity.
Qed.

Lemma dict_set_In {V : Type} (k : CandidateId) (v : V)
    (d : list (CandidateId * V)) (k' : CandidateId) (v' : V) :
  In (k', v') (dict_set cid_eqb k v d) -> In (k', v') d \/ (k' = k /\ v' = v).
Proof.
  induction d as [|[k0 v0] d IH]; simpl.
  - intros [[= <- <-]|[]]. auto.
  - destruct (cid_eqb k0 k) eqn:H0; simpl.
    + apply cid_eqb_eq in H0 as ->. intros [[= <- <-]|H]; auto.
    + intros [H|H]; auto. destruct (IH H); auto.
Qed.

Lemma NoDup_keys_dict_set {V : Type} (k : CandidateId) (v : V)
    (d : list (CandidateId * V)) :
  NoDup (map fst d) -> NoDup (map fst (dict_set cid_eqb k v d)).
Proof.
  intros Hnd. rewrite dict_set_keys.
  destruct (existsb (cid_eqb k) (map fst d)) eqn:He; [exact Hnd|].
  apply NoDup_app. split; [exact Hnd|]. split; [|apply NoDup_singleton].
  intros x Hx Hk. apply list_elem_of_singleton in Hk as ->.
  apply not_true_iff_false in He. apply He. apply existsb_exists.
  exists k. split; [apply list_elem_of_In; exact Hx|apply cid_eqb_refl].
Qed.

Lemma NoDup_vals_dict_set {V : Type} (k : CandidateId) (v : V)
    (d : list (CandidateId * V)) :
  NoDup (map snd d) -> ~ In v (map snd d) ->
  NoDup (map snd (dict_set cid_eqb k v d)).
Proof.
  induction d as [|[k0 v0] d IH]; simpl; intros Hnd Hv.
  - apply NoDup_singleton.
  - apply NoDup_cons in Hnd as [Hv0 Hnd].
    destruct (cid_eqb k0 k); simpl.
    + apply NoDup_cons. split; [|exact Hnd].
      intros H. apply Hv. right. apply list_elem_of_In. exact H.
    + apply NoDup_cons. split.
      * intros H. apply list_elem_of_In, in_map_iff in H as ([k1 v1] & Hs & Hin).
        simpl in Hs. subst v1. apply dict_set_In in Hin as [Hin|[_ ->]].
        -- apply Hv0. apply list_elem_of_In, in_map_iff. exists (k1, v0). auto.
        -- apply Hv. left. reflexivity.
      * apply IH; [exact Hnd|]. intros H. apply Hv. right. exact H.
Qed.

Lemma wf_add_candidate (gen : CandidateStructure) (s : St) :
  wf s -> wf (state_of (_add_candidate gen s)).
Proof.
  intros Hwf. unfold _add_candidate. unfold_monad. simpl.
  destruct (is_finished (self s)); [exact Hwf|].
  destruct (actual_num_candidates (self s) !! stage (self s)) as [a|] eqn:Ha;
    [|exact Hwf].
  destruct (num_candidates (self s) !! stage (self s)) as [n|] eqn:Hn;
    [|exact Hwf].
  destruct (a =? n) eqn:Han; [exact Hwf|].
  rewrite lookup_app_r by lia. rewrite Nat.sub_diag. simpl.
  assert (Hgrow : forall h', length h' = S (length (heap s)) ->
                             wf (mkSt (self s) h')).
  { intros h' Hh'. destruct Hwf as (Hk & Hl & Hal & Hlen). split; [exact Hk|].
    split; [exact Hl|]. split; [|exact Hlen]. simpl. intros k l Hin.
    rewrite Hh'. specialize (Hal k l Hin). lia. }
  destruct (budgets (self s) !! stage (self s)) as [b|]; simpl.
  2:{ apply Hgrow. rewrite length_insert, length_app. simpl. lia. }
  repeat (rewrite list_lookup_insert_eq
            by (rewrite ?length_insert, length_app; simpl; lia); simpl).
  destruct Hwf as (Hk & Hl & Hal & Hlen). split; [|split; [|split]]; simpl.
  - apply NoDup_keys_dict_set, Hk.
  - apply NoDup_vals_dict_set; [exact Hl|].
    intros Hin. apply in_map_iff in Hin as ([k l] & Hs & Hin). simpl in Hs.
    subst l. specialize (Hal k _ Hin). lia.
  - intros k l Hin. rewrite !length_insert, length_app. simpl.
    apply dict_set_In in Hin as [Hin|[_ ->]]; [|lia].
    specialize (Hal k l Hin). lia.
  - rewrite length_insert. exact Hlen.
Qed.

Lemma wf_get_next_candidate_rec (policy : Policy) (gen : CandidateStructure)
    (fuel : nat) :
  forall s, wf s -> wf (state_of (get_next_candidate_rec fuel policy gen s)).
Proof.
  induction fuel as [|fuel IH]; intros s Hinv.
  all: simpl; unfold get_next_candidate_body; unfold bind at 1;
       unfold get_self at 1.
  all: destruct (is_finished (self s)); [exact Hinv|].
  all: unfold bind at 1.
  all: pose proof (keys_with_status_state QUEUED s) as Hk; pure_step Hk;
       [|exact Hinv].
  all: destruct a as [|cid rest].
  all: try (unfold_monad;
            destruct (dict_get cid_eqb cid (data (self s))) as [l|]; [|exact Hinv];
            destruct (heap s !! l) as [c|] eqn:Hc; [|exact Hinv];
            destruct (budgets (self s) !! stage (self s)) as [b|]; [|exact Hinv];
            destruct (Qeq_bool (cs_budget c) b); [|exact Hinv];
            rewrite Hc; simpl;
            apply (wf_same_shape s); [exact Hinv|];
            shape).
  all: unfold bind at 1; unfold index at 1.
  all: destruct (actual_num_candidates (self s) !! stage (self s)) as [a|];
       [|exact Hinv].
  all: unfold ret at 1; unfold bind at 1; unfold index at 1.
  all: destruct (num_candidates (self s) !! stage (self s)) as [n|];
       [|exact Hinv].
  all: unfold ret at 1.
  all: destruct (a <? n).
  all: try (unfold bind at 1;
            pose proof (wf_add_candidate gen s Hinv) as Hadd;
            destruct (_add_candidate gen s) as [s1 l|s1 e]; simpl in Hadd;
            [|exact Hadd];
            unfold_monad; destruct (heap s1 !! l); simpl; [|exact Hadd];
            apply (wf_same_shape s1); [exact Hadd|];
            shape).
  all: destruct (num_running (self s) =? 0); [|exact Hinv].
  all: unfold bind at 1.
  all: pose proof (wf_same_shape _ _ Hinv (finish_stage_shape policy s)) as Hfin.
  all: destruct (_finish_stage policy s) as [s1 []|s1 e]; simpl in Hfin;
       [|exact Hfin].
  - exact Hfin.
  - apply IH. exact Hfin.
Qed.

Lemma wf_exec (policy : Policy) (o : op) (s : St) :
  wf s -> wf (state_of (exec policy o s)).
Proof.
  intros Hinv. destruct o as [gen|cs|gen| |cs r b]; simpl.
  - unfold get_next_candidate.
    pose proof (wf_get_next_candidate_rec policy gen
                  (length (num_candidates (self s))) s Hinv) as H.
    destruct (get_next_candidate_rec _ policy gen s); exact H.
  - apply (wf_same_shape s); [exact Hinv|].
    unfold register_result. unfold_monad.
    destruct (is_finished (self s)); [apply same_shape_refl|].
    destruct (heap s !! cs); simpl; [|apply same_shape_refl].
    shape.
  - pose proof (wf_add_candidate gen s Hinv) as H.
    destruct (_add_candidate gen s); exact H.
  - apply (wf_same_shape s); [exact Hinv|apply finish_stage_shape].
  - apply (wf_same_shape s); [exact Hinv|apply same_shape_modify_obj].
Qed.

Lemma wf_init (it : Z) (num : list Z) (bs : list Q) (t : option Q)
    (h : list CandidateStructure) :
  wf (mkSt (init it num bs t) h).
Proof.
  unfold wf. simpl.
  split; [constructor|]. split; [constructor|]. split; [intros k l []|].
  apply length_replicate.
Qed.

Lemma wf_reachable (policy : Policy) (s0 s : St) :
  wf s0 -> reachable policy s0 s -> wf s.
Proof.
  intros H0 Hr. induction Hr as [|s o _ IH]; [exact H0|].
  apply wf_exec, IH.
Qed.

(** ** C1: what [_finish_stage] does to the candidates under review *)

Lemma dict_get_In {V : Type} (k : CandidateId) (v : V)
    (d : list (CandidateId * V)) :
  NoDup (map fst d) -> In (k, v) d -> dict_get cid_eqb k d = Some v.
Proof.
  induction d as [|[k0 v0] d IH]; simpl; intros Hnd Hin; [destruct Hin|].
  apply NoDup_cons in Hnd as [Hk0 Hnd].
  destruct Hin as [[= -> ->]|Hin].
  - rewrite cid_eqb_refl. reflexivity.
  - destruct (cid_eqb k0 k) eqn:He; [|auto].
    apply cid_eqb_eq in He as ->. exfalso. apply Hk0.
    apply list_elem_of_In, in_map_iff. exists (k, v). auto.
Qed.

Lemma filter_status_spec (st : Status) (s : St) (items : list (CandidateId * nat)) :
  (forall k l, In (k, l) items -> dict_get cid_eqb k (data (self s)) = Some l) ->
  (forall k l, In (k, l) items -> (l < length (heap s))%nat) ->
  filter_status st (map fst items) s
  = Return s (map fst (List.filter (has_status s st) items)).
Proof.
  induction items as [|[k l] items IH]; intros Hget Hal; simpl; [reflexivity|].
  unfold_monad. rewrite (Hget k l) by (left; reflexivity).
  destruct (lookup_lt_is_Some_2 (heap s) l) as [c Hc].
  { apply (Hal k). left. reflexivity. }
  rewrite Hc. rewrite IH.
  2:{ intros k' l' Hin. apply Hget. right. exact Hin. }
  2:{ intros k' l' Hin. apply (Hal k'). right. exact Hin. }
  assert (Hs : has_status s st (k, l) = status_eqb (cs_status c) st)
    by (unfold has_status; simpl; rewrite Hc; reflexivity).
  rewrite Hs. destruct (status_eqb (cs_status c) st); reflexivity.
Qed.

Lemma keys_with_status_spec (st : Status) (s : St) :
  wf s ->
  keys_with_status st s
  = Return s (map fst (List.filter (has_status s st) (data (self s)))).
Proof.
  intros (Hk & _ & Hal & _). unfold keys_with_status, dict_keys. unfold_monad.
  apply filter_status_spec; [|exact Hal].
  intros k l Hin. apply dict_get_In; assumption.
Qed.

Lemma mapM_Return {A B : Type} (f : A -> M B) (xs : list A) :
  (forall x s, state_of (f x s) = s) ->
  forall s s' ys, mapM f xs s = Return s' ys ->
    s' = s /\ Forall2 (fun x y => f x s = Return s y) xs ys.
Proof.
  intros Hf. induction xs as [|x xs IH]; intros s s' ys; simpl.
  - unfold_monad. intros [= <- <-]. split; [reflexivity|constructor].
  - unfold bind at 1. pose proof (Hf x s) as Hx. pure_step Hx; [|discriminate].
    unfold bind at 1.
    destruct (mapM f xs s) as [s1 ys'|s1 e] eqn:Hm; [|discriminate].
    destruct (IH s s1 ys' Hm) as [-> Hall].
    unfold ret. intros [= <- <-]. split; [reflexivity|].
    constructor; assumption.
Qed.

Lemma bumped_step (k a : Z) (it : Iteration) :
  actual_num_candidates it !! stage it = Some a ->
  bumped k (set_actual_num_candidates
              (<[stage it := a + 1]> (actual_num_candidates it)) it)
  = bumped (1 + k) it.
Proof.
  intros Ha. unfold bumped. simpl. rewrite Ha. simpl.
  rewrite list_lookup_insert_eq by (eapply lookup_lt_Some; eassumption).
  simpl. rewrite list_insert_insert_eq.
  unfold set_actual_num_candidates. simpl. do 2 f_equal. lia.
Qed.

Lemma advance_loop_spec (items : list (CandidateId * nat)) :
  forall (adv : list bool) (s s' : St),
    NoDup (map snd items) ->
    (forall k l, In (k, l) items ->
                 dict_get cid_eqb k (data (self s)) = Some l) ->
    length adv = length items ->
    advance_loop (map fst items) adv s = Return s' tt ->
    self s' = bumped (count_true adv) (self s) /\
    (forall l, ~ In l (map snd items) -> heap s' !! l = heap s !! l) /\
    (forall i k l (b : bool), items !! i = Some (k, l) -> adv !! i = Some b ->
       exists c, heap s !! l = Some c /\
         if b
         then exists nb, budgets (self s) !! stage (self s) = Some nb /\
                heap s' !! l = Some (set_budget nb (set_status QUEUED c))
         else heap s' !! l = Some (set_status TERMINATED c)).
Proof.
  induction items as [|[k l] items IH]; intros adv s s' Hnd Hget Hlen Hrun.
  - destruct adv; [|discriminate]. simpl in Hrun. unfold ret in Hrun.
    injection Hrun as <-. simpl. rewrite bumped_0.
    split; [reflexivity|]. split; [reflexivity|].
    intros i k l b Hi. rewrite lookup_nil in Hi. discriminate.
  - destruct adv as [|b adv]; [discriminate|]. simpl in Hlen.
    injection Hlen as Hlen. simpl in Hnd. apply NoDup_cons in Hnd as [Hl Hnd].
    assert (Hl' : ~ In l (map snd items))
      by (intros H; apply Hl, list_elem_of_In, H).
    assert (Hother : forall k' l', In (k', l') items -> l' <> l).
    { intros k' l' Hin ->. apply Hl'. apply in_map_iff. exists (k', l). auto. }
    pose proof (Hget k l (or_introl eq_refl)) as Hk.
    simpl in Hrun. destruct b.
    + (* promoted *)
      unfold_monad. simpl in Hrun.
      destruct (budgets (self s) !! stage (self s)) as [nb|] eqn:Hnb;
        [|discriminate].
      rewrite Hk in Hrun.
      destruct (heap s !! l) as [c|] eqn:Hc; [|discriminate]. simpl in Hrun.
      rewrite list_lookup_insert_eq in Hrun
        by (eapply lookup_lt_Some; eassumption).
      simpl in Hrun. rewrite list_insert_insert_eq in Hrun.
      destruct (actual_num_candidates (self s) !! stage (self s)) as [a|] eqn:Ha;
        [|discriminate].
      simpl in Hrun.
      apply IH in Hrun as (Hself & Hframe & Hitems); [|exact Hnd| |exact Hlen].
      2:{ intros k' l' Hin. simpl. apply Hget. right. exact Hin. }
      cbn [self heap budgets stage data set_actual_num_candidates]
        in Hself, Hframe, Hitems.
      split; [|split].
      * rewrite Hself.
        change (count_true (true :: adv)) with (1 + count_true adv).
        exact (bumped_step (count_true adv) a (self s) Ha).
      * intros l0 Hl0. simpl in Hl0. rewrite Hframe by tauto.
        apply list_lookup_insert_ne. intros ->. tauto.
      * intros [|i] k0 l0 b Hi Hb; simpl in Hi, Hb.
        -- injection Hi as <- <-. injection Hb as <-. exists c.
           split; [first [exact Hc|reflexivity]|]. exists nb.
           split; [first [exact Hnb|reflexivity]|].
           rewrite Hframe by exact Hl'. apply list_lookup_insert_eq.
           eapply lookup_lt_Some; eassumption.
        -- destruct (Hitems i k0 l0 b Hi Hb) as (c0 & Hc0 & Hres).
           assert (l0 <> l).
           { apply (Hother k0). eapply list_elem_of_In, list_elem_of_lookup_2.
             exact Hi. }
           rewrite list_lookup_insert_ne in Hc0 by congruence.
           exists c0. split; [exact Hc0|]. rewrite Hnb in Hres. exact Hres.
    + (* terminated *)
      unfold_monad. simpl in Hrun. rewrite Hk in Hrun.
      destruct (heap s !! l) as [c|] eqn:Hc; [|discriminate]. simpl in Hrun.
      apply IH in Hrun as (Hself & Hframe & Hitems); [|exact Hnd| |exact Hlen].
      2:{ intros k' l' Hin. simpl. apply Hget. right. exact Hin. }
      cbn [self heap budgets stage data] in Hself, Hframe, Hitems.
      split; [|split].
      * rewrite Hself. reflexivity.
      * intros l0 Hl0. simpl in Hl0. rewrite Hframe by tauto.
        apply list_lookup_insert_ne. intros ->. tauto.
      * intros [|i] k0 l0 b Hi Hb; simpl in Hi, Hb.
        -- injection Hi as <- <-. injection Hb as <-. exists c.
           split; [first [exact Hc|reflexivity]|].
           rewrite Hframe by exact Hl'. apply list_lookup_insert_eq.
           eapply lookup_lt_Some; eassumption.
        -- destruct (Hitems i k0 l0 b Hi Hb) as (c0 & Hc0 & Hres).
           assert (l0 <> l).
           { apply (Hother k0). eapply list_elem_of_In, list_elem_of_lookup_2.
             exact Hi. }
           rewrite list_lookup_insert_ne in Hc0 by congruence.
           exists c0. split; [exact Hc0|exact Hres].
Qed.

Lemma count_filter_pointwise {A : Type} (P : A -> bool) (items : list A) :
  forall adv : list bool,
    length adv = length items ->
    (forall i x b, items !! i = Some x -> adv !! i = Some b -> P x = b) ->
    Z.of_nat (length (List.filter P items)) = count_true adv.
Proof.
  induction items as [|x items IH]; intros [|b adv] Hlen Hp;
    try discriminate; [reflexivity|].
  simpl in Hlen. injection Hlen as Hlen. simpl.
  rewrite (Hp 0%nat x b eq_refl eq_refl).
  specialize (IH adv Hlen (fun i y c Hi Hc => Hp (S i) y c Hi Hc)).
  destruct b; simpl; lia.
Qed.

Lemma review_items_next_stage (s : St) (it : Iteration) :
  data it = data (self s) ->
  List.filter (has_status (mkSt it (heap s)) REVIEW) (data it) = review_items s.
Proof. intros ->. reflexivity. Qed.

(** C1.  In a well-formed bracket whose next stage is inside the ladder, and
    for a policy that returns one boolean per loss, a call of [_finish_stage]
    that returns has passed to the policy the incumbent losses, at the budget
    of the stage that ends, of the candidates under review; the candidates
    under review that are [QUEUED] afterwards are as many as the [true]
    entries of the policy's vector; a candidate with a [true] entry is
    [QUEUED] with the budget of the next stage, one with a [false] entry is
    [TERMINATED]; and the filled counter of the next stage has grown by the
    number of [true] entries. *)
Theorem finish_stage_promotes (policy : Policy) (s s' : St) :
  wf s ->
  policy_shape policy ->
  (S (stage (self s)) < length (num_candidates (self s)))%nat ->
  _finish_stage policy s = Return s' tt ->
  exists budget losses advance next_budget a,
    budgets (self s) !! stage (self s) = Some budget /\
    Forall2 (fun kv x =>
               exists c r, heap s !! kv.2 = Some c /\
                           get_incumbent c (Some budget) = inr r /\
                           res_loss r = x)
            (review_items s) losses /\
    policy (set_stage (S (stage (self s))) (self s)) losses = inr advance /\
    length advance = length (review_items s) /\
    Z.of_nat (length (List.filter (has_status s' QUEUED) (review_items s)))
      = count_true advance /\
    (forall i k l, review_items s !! i = Some (k, l) ->
       (advance !! i = Some true ->
        budgets (self s) !! S (stage (self s)) = Some next_budget /\
        exists c, heap s' !! l = Some c /\ cs_status c = QUEUED /\
                  cs_budget c = next_budget) /\
       (advance !! i = Some false ->
        exists c, heap s' !! l = Some c /\ cs_status c = TERMINATED)) /\
    actual_num_candidates (self s) !! S (stage (self s)) = Some a /\
    actual_num_candidates (self s')
      = <[S (stage (self s)) := a + count_true advance]>
          (actual_num_candidates (self s)) /\
    stage (self s') = S (stage (self s)).
Proof.
  intros Hwf Hshape Hnext Hrun.
  unfold _finish_stage in Hrun. unfold bind at 1 in Hrun.
  unfold modify_self at 1 in Hrun.
  set (s1 := mkSt (set_stage (S (stage (self s))) (self s)) (heap s)) in *.
  assert (Hwf1 : wf s1) by exact Hwf.
  unfold bind at 1 in Hrun. rewrite (keys_with_status_spec REVIEW s1 Hwf1) in Hrun.
  change (List.filter (has_status s1 REVIEW) (data (self s1)))
    with (review_items s) in Hrun.
  unfold bind at 1 in Hrun. unfold get_self at 1 in Hrun.
  assert (Hlast : (length (num_candidates (self s1)) <=? stage (self s1))%nat
                  = false) by (apply Nat.leb_gt; exact Hnext).
  rewrite Hlast in Hrun. unfold bind at 1 in Hrun.
  match type of Hrun with context [mapM ?f ?xs s1] =>
    destruct (mapM f xs s1) as [s2 bs|s2 e] eqn:Hbs; [|discriminate];
    apply (mapM_Return f xs read_budget_state) in Hbs as [-> _] end.
  destruct (1 <? length (distinct bs))%nat; [discriminate|].
  unfold bind at 1 in Hrun. unfold index at 1 in Hrun.
  change (budgets (self s1)) with (budgets (self s)) in Hrun.
  change (stage (self s1)) with (S (stage (self s))) in Hrun.
  replace (S (stage (self s)) - 1)%nat with (stage (self s)) in Hrun by lia.
  destruct (budgets (self s) !! stage (self s)) as [budget|] eqn:Hbudget;
    [|discriminate].
  unfold ret at 1 in Hrun. unfold bind at 1 in Hrun.
  match type of Hrun with context [mapM ?f ?xs s1] =>
    destruct (mapM f xs s1) as [s2 losses|s2 e] eqn:Hlosses; [|discriminate];
    apply (mapM_Return f xs (read_loss_state budget)) in Hlosses
      as [-> Hlosses] end.
  unfold bind at 1 in Hrun. unfold lift in Hrun.
  change (self s1) with (set_stage (S (stage (self s))) (self s)) in Hrun.
  destruct (policy (set_stage (S (stage (self s))) (self s)) losses)
    as [e|advance] eqn:Hpol; [discriminate|].
  unfold ret at 1 in Hrun.
  (* the loss vector *)
  assert (Hrev_in : forall k l, In (k, l) (review_items s) ->
                                In (k, l) (data (self s))).
  { intros k l Hin. apply filter_In in Hin as [Hin _]. exact Hin. }
  destruct Hwf as (Hkeys & Hlocs & Halloc & Hlen).
  assert (Hget : forall k l, In (k, l) (review_items s) ->
                   dict_get cid_eqb k (data (self s)) = Some l).
  { intros k l Hin. apply dict_get_In; [exact Hkeys|apply Hrev_in, Hin]. }
  assert (Hlen_losses : length losses = length (review_items s)).
  { apply Forall2_length in Hlosses. rewrite length_map in Hlosses.
    symmetry. exact Hlosses. }
  assert (Hlen_adv : length advance = length (review_items s)).
  { rewrite (Hshape _ _ _ Hpol). exact Hlen_losses. }
  assert (Hnd_rev : NoDup (map snd (review_items s))).
  { unfold review_items. clear -Hlocs.
    induction (data (self s)) as [|[k l] d IH]; simpl; [constructor|].
    simpl in Hlocs. apply NoDup_cons in Hlocs as [Hl Hd].
    destruct (has_status s REVIEW (k, l)); simpl; [|auto].
    apply NoDup_cons. split; [|auto].
    intros Hin. apply Hl. apply list_elem_of_In in Hin.
    apply in_map_iff in Hin as ([k' l'] & Heq & Hin). simpl in Heq. subst l'.
    apply filter_In in Hin as [Hin _].
    apply list_elem_of_In, in_map_iff. exists (k', l). auto. }
  destruct (advance_loop_spec (review_items s) advance s1 s' Hnd_rev Hget
              Hlen_adv Hrun) as (Hself & Hframe & Hitems).
  subst s1. cbn [self heap budgets stage set_stage] in Hself, Hframe, Hitems.
  assert (Hlt : (S (stage (self s)) < length (actual_num_candidates (self s)))%nat)
    by (rewrite Hlen; exact Hnext).
  destruct (lookup_lt_is_Some_2 _ _ Hlt) as [a Ha].
  (* the budget of the next stage, when somebody is promoted *)
  set (next_budget := default budget (budgets (self s) !! S (stage (self s)))).
  exists budget, losses, advance, next_budget, a.
  split; [reflexivity|]. split.
  { (* losses *)
    clear -Hlosses Hget. revert losses Hlosses.
    induction (review_items s) as [|[k l] items IH]; intros losses Hl;
      simpl in Hl; inversion Hl as [|? x ? xs Hx Hxs]; subst; constructor.
    - clear -Hx Hget. unfold_monad. simpl in Hx.
      rewrite (Hget k l (or_introl eq_refl)) in Hx. cbv beta iota in Hx.
      simpl in Hx. simpl.
      destruct (heap s !! l) as [c|]; [|discriminate].
      destruct (get_incumbent c (Some budget)) as [e|r] eqn:Hr; [discriminate|].
      injection Hx as <-. exists c, r. auto.
    - apply IH; [|exact Hxs]. intros k' l' Hin. apply Hget. right. exact Hin. }
  split; [exact Hpol|]. split; [exact Hlen_adv|].
  assert (Hpoint : forall i k l (b : bool),
            review_items s !! i = Some (k, l) -> advance !! i = Some b ->
            exists c, heap s' !! l = Some c /\
              cs_status c = (if b then QUEUED else TERMINATED) /\
              (b = true -> budgets (self s) !! S (stage (self s)) = Some next_budget
                           /\ cs_budget c = next_budget)).
  { intros i k l b Hi Hb. destruct (Hitems i k l b Hi Hb) as (c & Hc & Hres).
    destruct b.
    - destruct Hres as (nb & Hnb & Hc'). eexists. split; [exact Hc'|].
      split; [reflexivity|]. intros _. subst next_budget. rewrite Hnb. simpl.
      split; reflexivity.
    - eexists. split; [exact Hres|]. split; [reflexivity|]. discriminate. }
  split.
  { apply count_filter_pointwise; [exact Hlen_adv|].
    intros i [k l] b Hi Hb. destruct (Hpoint i k l b Hi Hb) as (c & Hc & Hst & _).
    unfold has_status. simpl. rewrite Hc. rewrite Hst.
    destruct b; reflexivity. }
  split.
  { intros i k l Hi. split; intros Hb.
    - destruct (Hpoint i k l true Hi Hb) as (c & Hc & Hst & Hbud).
      destruct (Hbud eq_refl) as [Hnb Hcb]. split; [exact Hnb|]. eauto.
    - destruct (Hpoint i k l false Hi Hb) as (c & Hc & Hst & _). eauto. }
  split; [exact Ha|]. rewrite Hself. unfold bumped. simpl.
  rewrite Ha. simpl. split; reflexivity.
Qed.

(** ** C10: completed candidates *)
















(** ** The standard policies *)

Lemma SuccessiveResampling_shape (m : Z) (rate : Q) :
  policy_shape (SuccessiveResampling m rate).
Proof.
  intros it losses v. unfold SuccessiveResampling, _advance_to_next_stage.
  destruct (num_candidates it !! stage it); [|discriminate].
  intros [= <-]. rewrite length_map. apply double_rank_length.
Qed.

Lemma SuccessiveHalving_shape : policy_shape SuccessiveHalving.
Proof.
  intros it losses v. unfold SuccessiveHalving.
  destruct (num_candidates it !! stage it); [|discriminate].
  intros [= <-]. rewrite length_map. apply double_rank_length.
Qed.

Lemma count_true_Permutation (f : nat -> bool) (l l' : list nat) :
  Permutation l l' -> count_true (map f l) = count_true (map f l').
Proof.
  induction 1; simpl; try lia.
Qed.

Lemma count_below_seq (n : Z) (m : nat) :
  forall a, count_true (map (fun r => Z.of_nat r <? n) (seq a m))
            <= Z.max 0 (n - Z.of_nat a).
Proof.
  induction m as [|m IH]; intros a; simpl; [lia|].
  specialize (IH (S a)).
  destruct (Z.of_nat a <? n) eqn:Hc.
  - apply Z.ltb_lt in Hc. lia.
  - apply Z.ltb_ge in Hc. lia.
Qed.

Lemma SuccessiveHalving_bounded (num : list Z) :
  policy_bounded num SuccessiveHalving.
Proof.
  intros it losses v n Hnum Hv Hn Hpos. unfold SuccessiveHalving in Hv.
  rewrite Hnum, Hn in Hv. injection Hv as <-.
  rewrite (count_true_Permutation _ _ _ (double_rank_Permutation losses)).
  pose proof (count_below_seq n (length losses) 0%nat). lia.
Qed.

Lemma count_true_le (f g : nat -> bool) (l : list nat) :
  (forall r, f r = true -> g r = true) ->
  count_true (map f l) <= count_true (map g l).
Proof.
  intros Hfg. induction l as [|r l IH]; simpl; [lia|].
  destruct (f r) eqn:Hf.
  - rewrite (Hfg r Hf). lia.
  - destruct (g r); lia.
Qed.

Lemma py_max_le (a b c : Q) : (a <= c)%Q -> (b <= c)%Q -> (py_max a b <= c)%Q.
Proof.
  intros Ha Hb. unfold py_max. destruct (Qltb a b); assumption.
Qed.

Lemma Qmult_discount (x r : Q) :
  (0 <= x)%Q -> (0 <= r)%Q -> (x * (1 - r) <= x)%Q.
Proof.
  intros Hx Hr.
  apply Qle_trans with (1 * x)%Q; [|rewrite Qmult_1_l; apply Qle_refl].
  rewrite (Qmult_comm x). apply Qmult_le_compat_r; [|exact Hx].
  apply Qle_minus_iff. ring_simplify. exact Hr.
Qed.

Lemma SuccessiveResampling_bounded (m : Z) (rate : Q) (num : list Z) :
  (0 <= rate)%Q ->
  Forall (fun n => m <= n) num ->
  policy_bounded num (SuccessiveResampling m rate).
Proof.
  intros Hrate Hnum it losses v n Hit Hv Hn Hpos.
  unfold SuccessiveResampling, _advance_to_next_stage in Hv.
  rewrite Hit, Hn in Hv. injection Hv as <-.
  assert (Hm : m <= n).
  { rewrite Forall_forall in Hnum. apply Hnum.
    eapply list_elem_of_lookup_2. exact Hn. }
  assert (Hb : (py_max (inject_Z m) (inject_Z n * (1 - rate)) <= inject_Z n)%Q).
  { apply py_max_le.
    - rewrite <- Zle_Qle. exact Hm.
    - apply Qmult_discount; [|exact Hrate].
      rewrite <- (Zle_Qle 0). exact Hpos. }
  etransitivity.
  { apply (count_true_le _ (fun r => Z.of_nat r <? n)).
    intros r Hr. apply Qltb_lt in Hr. apply Z.ltb_lt.
    rewrite Zlt_Qlt. eapply Qlt_le_trans; eassumption. }
  rewrite (count_true_Permutation _ _ _ (double_rank_Permutation losses)).
  pose proof (count_below_seq n (length losses) 0%nat). lia.
Qed.

Lemma finish_stage_promotes_witness :
  exists s',
    _finish_stage resampling_default stage0_done = Return s' tt /\
    stage (self s') = 1%nat.
Proof.
  destruct (_finish_stage resampling_default stage0_done) as [s' []|s' e] eqn:Hrun;
    [|vm_compute in Hrun; discriminate].
  exists s'. split; [reflexivity|].
  destruct (finish_stage_promotes resampling_default stage0_done s')
    as (budget & losses & advance & nb & a & _ & _ & _ & _ & _ & _ & _ & _ & Hst).
  - apply (wf_reachable resampling_default
             (mkSt (init 0 [2; 2] [1%Q; 3%Q] None) [])).
    + apply wf_init.
    + apply reachable_exec_all. constructor.
  - apply SuccessiveResampling_shape.
  - vm_compute. lia.
  - exact Hrun.
  - exact Hst.
Defined.

Lemma capacity_invariant_witness :
  capacity_respected (self two_by_two).
Proof.
  apply (capacity_invariant resampling_default 0 [2; 2] [1%Q; 3%Q] None []).
  - apply SuccessiveResampling_bounded; [discriminate|].
    repeat constructor; lia.
  - repeat constructor; lia.
  - apply reachable_exec_all. constructor.
Defined.

(** ** model.py: identifiers, incumbents and run times *)

Lemma cid_ltb_irrefl (a : CandidateId) : cid_ltb a a = false.
Proof.
  unfold cid_ltb. rewrite !Z.ltb_irrefl, !Z.eqb_refl. reflexivity.
Qed.

Lemma cid_ltb_spec (a b : CandidateId) :
  cid_ltb a b = true <->
  cid_iteration a < cid_iteration b \/
  (cid_iteration a = cid_iteration b /\
   (cid_structure a < cid_structure b \/
    (cid_structure a = cid_structure b /\ cid_config a < cid_config b))).
Proof.
  unfold cid_ltb.
  rewrite !orb_true_iff, !andb_true_iff, !orb_true_iff, !andb_true_iff,
    !Z.ltb_lt, !Z.eqb_eq.
  tauto.
Qed.

(** The order [__lt__] of ids is the lexicographic order of the triples: a
    strict total order, of which [__eq__] is the equality. *)
Theorem CandidateId_lt_strict_total (a b c : CandidateId) :
  cid_ltb a a = false /\
  (cid_ltb a b = true -> cid_ltb b c = true -> cid_ltb a c = true) /\
  (cid_ltb a b = true -> cid_ltb b a = false) /\
  (cid_ltb a b = false -> cid_ltb b a = false -> cid_eqb a b = true) /\
  (cid_eqb a b = true <-> as_tuple a = as_tuple b).
Proof.
  split; [apply cid_ltb_irrefl|].
  split.
  { rewrite !cid_ltb_spec. lia. }
  split.
  { intros H. apply not_true_is_false. revert H. rewrite !cid_ltb_spec. lia. }
  split.
  { intros H1 H2. apply not_true_iff_false in H1, H2.
    rewrite cid_ltb_spec in H1, H2. apply cid_eqb_eq.
    destruct a, b; simpl in *. f_equal; lia. }
  rewrite cid_eqb_eq. unfold as_tuple. destruct a, b; simpl.
  split; [intros [= -> -> ->]; reflexivity|intros [= -> -> ->]; reflexivity].
Qed.

Lemma CandidateId_lt_strict_total_witness :
  cid_ltb (mkCandidateId 0 0 1) (mkCandidateId 0 1 0) = true /\
  cid_ltb (mkCandidateId 0 0 1) (mkCandidateId 1 0 0) = true.
Proof.
  split; [reflexivity|].
  apply (proj1 (proj2 (CandidateId_lt_strict_total
                         (mkCandidateId 0 0 1) (mkCandidateId 0 1 0)
                         (mkCandidateId 1 0 0)))); reflexivity.
Defined.







Lemma max_key_spec {V : Type} (d : list (Q * V)) :
  forall best,
    (max_key best d = best \/ In (max_key best d) (map fst d)) /\
    (best <= max_key best d)%Q /\
    (forall k, In k (map fst d) -> (k <= max_key best d)%Q).
Proof.
  induction d as [|[k v] d IH]; intros best; simpl.
  - split; [left; reflexivity|]. split; [apply Qle_refl|]. intros k [].
  - destruct (Qltb best k) eqn:Hlt.
    + apply Qltb_lt in Hlt. destruct (IH k) as (Hin & Hle & Hall).
      split; [right; destruct Hin as [->|Hin]; auto|].
      split; [eapply Qle_trans; [apply Qlt_le_weak; exact Hlt|exact Hle]|].
      intros k' [<-|Hk']; auto.
    + apply Qltb_ge in Hlt. destruct (IH best) as (Hin & Hle & Hall).
      split; [destruct Hin as [->|Hin]; auto|].
      split; [exact Hle|].
      intros k' [<-|Hk']; [eapply Qle_trans; eassumption|auto].
Qed.


Lemma get_incumbent_default_budget_aux (c : CandidateStructure) :
  (cs_results c = [] -> get_incumbent c None = inl ValueError) /\
  (cs_results c <> [] ->
   exists bmax,
     is_greatest bmax (map fst (cs_results c)) /\
     get_incumbent c None = get_incumbent c (Some bmax)).
Proof.
  split.
  - intros H. unfold get_incumbent. rewrite H. reflexivity.
  - intros H. unfold get_incumbent.
    destruct (cs_results c) as [|[k v] d] eqn:Hres; [congruence|].
    exists (max_key k d). split; [|reflexivity].
    destruct (max_key_spec d k) as (Hin & Hle & Hall).
    split; simpl.
    + destruct Hin as [->|Hin]; auto.
    + intros x [<-|Hx]; auto.
Qed.

(** [get_incumbent()] without a budget looks at the largest budget that has
    results: it raises [ValueError] when nothing was recorded, and otherwise
    answers as [get_incumbent(b)] for the greatest recorded budget [b]. *)
Theorem get_incumbent_default_budget (c : CandidateStructure) :
  (cs_results c = [] -> get_incumbent c None = inl ValueError) /\
  (cs_results c <> [] ->
   exists bmax,
     is_greatest bmax (map fst (cs_results c)) /\
     get_incumbent c None = get_incumbent c (Some bmax)).
Proof. exact (get_incumbent_default_budget_aux c). Qed.

Lemma get_incumbent_default_budget_witness :
  exists bmax,
    is_greatest bmax [1%Q; 3%Q] /\
    get_incumbent
      (add_result (add_result demo_candidate (demo_result 0.5) None)
         (demo_result 0.2) (Some 3%Q)) None
    = get_incumbent
        (add_result (add_result demo_candidate (demo_result 0.5) None)
           (demo_result 0.2) (Some 3%Q)) (Some bmax).
Proof.
  apply (proj2 (get_incumbent_default_budget
                  (add_result (add_result demo_candidate (demo_result 0.5) None)
                     (demo_result 0.2) (Some 3%Q)))).
  discriminate.
Defined.





(** The dict written by [Runtime.as_dict] is not accepted by
    [Runtime.from_dict]: it names the third field [conf], which is no
    parameter of the constructor.  No dict with the key [conf] is accepted,
    while the same values under the key [config] give the run time back. *)
Theorem Runtime_from_dict_rejects_as_dict (r : Runtime) :
  Runtime_from_dict (Runtime_as_dict r) = inl TypeError /\
  (forall raw r', Runtime_from_dict raw = inr r' ->
                  dict_get String.eqb "conf"%string raw = None) /\
  Runtime_from_dict
    [("total"%string, rt_total r); ("fit"%string, rt_fit r);
     ("config"%string, rt_config r)] = inr r.
Proof.
  split; [reflexivity|]. split; [|destruct r; reflexivity].
  intros raw r'. unfold Runtime_from_dict.
  destruct (forallb _ raw) eqn:Hall; [|discriminate]. intros _.
  induction raw as [|[k v] raw IH]; [reflexivity|].
  simpl in Hall. apply andb_true_iff in Hall as [Hk Hall].
  simpl. destruct (String.eqb k "conf") eqn:Hc; [|apply IH, Hall].
  apply String.eqb_eq in Hc. subst k. discriminate.
Qed.

(** ** successiveresampling.py: who advances *)

Lemma count_below_seq_eq (n : Z) (m : nat) :
  forall a, count_true (map (fun r => Z.of_nat r <? n) (seq a m))
            = Z.max 0 (Z.min (n - Z.of_nat a) (Z.of_nat m)).
Proof.
  induction m as [|m IH]; intros a; simpl seq; simpl map; simpl count_true; [lia|].
  rewrite (IH (S a)).
  destruct (Z.of_nat a <? n) eqn:Hc.
  - apply Z.ltb_lt in Hc. lia.
  - apply Z.ltb_ge in Hc. lia.
Qed.

Lemma py_max_ge_l (a b : Q) : (a <= py_max a b)%Q.
Proof.
  unfold py_max. destruct (Qltb a b) eqn:H.
  - apply Qlt_le_weak, Qltb_lt, H.
  - apply Qle_refl.
Qed.

(** The resampling policy lets at least [min_samples_advance] candidates
    advance, or all of them when there are fewer. *)
Theorem resampling_guaranteed_survivors (min_samples_advance : Z)
    (resampling_rate : Q) (num_configs : list Z) (stage : nat)
    (losses : list Q) (v : list bool) :
  _advance_to_next_stage min_samples_advance resampling_rate num_configs
    stage losses = inr v ->
  Z.min min_samples_advance (Z.of_nat (length losses)) <= count_true v.
Proof.
  unfold _advance_to_next_stage.
  destruct (num_configs !! stage) as [n|]; [|discriminate].
  intros [= <-].
  set (bound := py_max _ _).
  transitivity (count_true (map (fun r => Z.of_nat r <? min_samples_advance)
                              (double_rank losses))).
  - rewrite (count_true_Permutation _ _ _ (double_rank_Permutation losses)).
    rewrite count_below_seq_eq. lia.
  - apply count_true_le. intros r Hr. apply Z.ltb_lt in Hr.
    apply Qltb_lt. eapply Qlt_le_trans; [|apply py_max_ge_l].
    rewrite <- Zlt_Qlt. exact Hr.
Qed.

Lemma resampling_guaranteed_survivors_witness :
  Z.min 2 (Z.of_nat (length [0.5%Q; 0.2%Q; 0.9%Q]))
  <= count_true [true; true; false].
Proof.
  apply (resampling_guaranteed_survivors 2 0.5 [3; 1] 0
           [0.5%Q; 0.2%Q; 0.9%Q] [true; true; false]).
  reflexivity.
Defined.

Lemma filter_length_le2 {A : Type} (f g h : A -> bool) (l : list A) :
  (forall z, f z = true -> h z = true) ->
  (forall z, g z = true -> h z = true) ->
  (forall z, f z = true -> g z = false) ->
  (length (List.filter f l) + length (List.filter g l)
   <= length (List.filter h l))%nat.
Proof.
  intros Hf Hg Hfg. induction l as [|z l IH]; simpl; [lia|].
  destruct (f z) eqn:Ef, (g z) eqn:Eg, (h z) eqn:Eh; simpl; try lia.
  - rewrite (Hfg z Ef) in Eg. discriminate.
  - rewrite (Hf z Ef) in Eh. discriminate.
  - rewrite (Hf z Ef) in Eh. discriminate.
  - rewrite (Hg z Eg) in Eh. discriminate.
Qed.

Lemma filter_take_lt (x : Q) (i : nat) (losses : list Q) :
  losses !! i = Some x ->
  (length (List.filter (fun y => Qeq_bool y x) (take i losses))
   < length (List.filter (fun y => Qeq_bool y x) losses))%nat.
Proof.
  intros Hx. rewrite <- (take_drop_middle losses i x Hx) at 2.
  rewrite List.filter_app, length_app. simpl. rewrite Qeq_bool_refl. simpl. lia.
Qed.

(** A smaller loss has a smaller rank. *)
Lemma stable_rank_lt (losses : list Q) (i j : nat) (x y : Q) :
  losses !! i = Some x -> (x < y)%Q ->
  (stable_rank losses i x < stable_rank losses j y)%nat.
Proof.
  intros Hx Hxy. unfold stable_rank.
  pose proof (filter_take_lt x i losses Hx) as H1.
  pose proof (filter_length_le2 (fun z => Qltb z x) (fun z => Qeq_bool z x)
                (fun z => Qltb z y) losses) as H2.
  assert (H3 : (length (List.filter (fun z => Qltb z x) losses)
                + length (List.filter (fun z => Qeq_bool z x) losses)
                <= length (List.filter (fun z => Qltb z y) losses))%nat).
  { apply H2.
    - intros z Hz. apply Qltb_lt. apply Qltb_lt in Hz.
      eapply Qlt_trans; eassumption.
    - intros z Hz. apply Qltb_lt. apply Qeq_bool_iff in Hz. rewrite Hz. exact Hxy.
    - intros z Hz. apply Qltb_not_eq, Hz. }
  lia.
Qed.

(** The resampling policy keeps the best: when a candidate advances, every
    candidate with a strictly smaller loss advances too. *)
Theorem resampling_keeps_the_best (min_samples_advance : Z)
    (resampling_rate : Q) (num_configs : list Z) (stage : nat)
    (losses : list Q) (v : list bool) (i j : nat) (x y : Q) :
  _advance_to_next_stage min_samples_advance resampling_rate num_configs
    stage losses = inr v ->
  losses !! i = Some x ->
  losses !! j = Some y ->
  (x < y)%Q ->
  v !! j = Some true ->
  v !! i = Some true.
Proof.
  unfold _advance_to_next_stage.
  destruct (num_configs !! stage) as [n|]; [|discriminate].
  intros [= <-] Hx Hy Hxy.
  set (bound := py_max _ _).
  change (map ?f ?l) with (f <$> l).
  rewrite !list_lookup_fmap.
  rewrite (double_rank_stable losses i x Hx), (double_rank_stable losses j y Hy).
  simpl. intros [= Hj]. f_equal.
  apply Qltb_lt. apply Qltb_lt in Hj.
  eapply Qlt_trans; [|exact Hj].
  rewrite <- Zlt_Qlt. apply inj_lt. apply stable_rank_lt; assumption.
Qed.

Lemma resampling_keeps_the_best_witness :
  [true; true; false] !! 1%nat = Some true.
Proof.
  apply (resampling_keeps_the_best 2 0.5 [3; 1] 0 [0.5%Q; 0.2%Q; 0.9%Q]
           [true; true; false] 1 0 0.2%Q 0.5%Q); reflexivity.
Defined.

(** ** config_generator_cache.py: [register_result] *)

Lemma filter_insert_same_key (k : nat) (l : nat) (g g' : ConfigGenerator)
    (xs : list ConfigGenerator) :
  xs !! l = Some g -> cg_configspace g' = cg_configspace g ->
  length (filter (fun g => cg_configspace g = k) (<[l := g']> xs))
  = length (filter (fun g => cg_configspace g = k) xs).
Proof.
  revert l. induction xs as [|x xs IH]; intros l Hl Hk; [reflexivity|].
  destruct l as [|l]; simpl in *.
  - injection Hl as ->. rewrite !filter_cons. rewrite Hk.
    destruct (decide (cg_configspace g = k)); reflexivity.
  - rewrite !filter_cons.
    destruct (decide (cg_configspace x = k)); simpl; rewrite (IH l Hl Hk);
      reflexivity.
Qed.

Lemma register_result_routes_aux (c : ConfigGeneratorCache) (p : Pipeline)
    (job : nat) :
  cache_ok c ->
  let c' := cache_register_result c p job in
  cache c' = cache c /\
  length (instances c') = length (instances c) /\
  cache_ok c' /\
  (forall k, constructions c' k = constructions c k) /\
  (cache c !! configuration_space p = None -> c' = c) /\
  (forall l, cache c !! configuration_space p = Some l ->
     exists g, instances c !! l = Some g /\
               instances c' !! l = Some (with_job g job) /\
               forall l', l' <> l -> instances c' !! l' = instances c !! l').
Proof.
  intros [Hok Hdom] c'. subst c'. unfold cache_register_result.
  destruct (cache c !! configuration_space p) as [l|] eqn:Hhit.
  - destruct (Hdom _ _ Hhit) as (g & Hg & Hgk). rewrite Hg.
    split; [reflexivity|]. split; [apply length_insert|].
    split; [|split; [|split]].
    + split; simpl.
      * intros l' g' Hl'.
        destruct (decide (l' = l)) as [->|Hne].
        -- rewrite list_lookup_insert_eq in Hl'
             by (eapply lookup_lt_Some; exact Hg).
           injection Hl' as <-. simpl. apply Hok. exact Hg.
        -- rewrite list_lookup_insert_ne in Hl' by congruence. apply Hok, Hl'.
      * intros k l' Hk. destruct (Hdom k l' Hk) as (g' & Hg' & Hk').
        destruct (decide (l' = l)) as [->|Hne].
        -- exists (with_job g job). rewrite list_lookup_insert_eq
             by (eapply lookup_lt_Some; exact Hg).
           split; [reflexivity|]. simpl. congruence.
        -- exists g'. rewrite list_lookup_insert_ne by congruence. auto.
    + intros k. unfold constructions. simpl.
      apply (filter_insert_same_key k l g); [exact Hg|reflexivity].
    + discriminate.
    + intros l0 [= <-]. exists g. split; [exact Hg|].
      simpl. split.
      * apply list_lookup_insert_eq. eapply lookup_lt_Some; exact Hg.
      * intros l' Hne. apply list_lookup_insert_ne. congruence.
  - split; [reflexivity|]. split; [reflexivity|].
    split; [split; assumption|]. split; [reflexivity|].
    split; [reflexivity|]. discriminate.
Qed.

(** [register_result] hands the job to the generator of the job's search
    space and to no other; a job for a search space that was never requested
    is dropped and the cache is left as it was.  It never constructs a
    generator and never changes which generator a search space has. *)
Theorem register_result_routes (c : ConfigGeneratorCache) (p : Pipeline)
    (job : nat) :
  cache_ok c ->
  let c' := cache_register_result c p job in
  cache c' = cache c /\
  length (instances c') = length (instances c) /\
  cache_ok c' /\
  (forall k, constructions c' k = constructions c k) /\
  (cache c !! configuration_space p = None -> c' = c) /\
  (forall l, cache c !! configuration_space p = Some l ->
     exists g, instances c !! l = Some g /\
               instances c' !! l = Some (with_job g job) /\
               forall l', l' <> l -> instances c' !! l' = instances c !! l').
Proof. exact (register_result_routes_aux c p job). Qed.

Lemma register_result_routes_witness :
  cache_register_result new_ConfigGeneratorCache (mkPipeline 0 0) 7
  = new_ConfigGeneratorCache.
Proof.
  apply (register_result_routes new_ConfigGeneratorCache (mkPipeline 0 0) 7).
  - apply cache_ok_new.
  - reflexivity.
Defined.

(** A job whose pipeline has the search space of a pipeline that was passed
    to [get] reaches the generator that [get] returned. *)
Theorem get_then_register_result (c : ConfigGeneratorCache) (p p' : Pipeline)
    (job : nat) :
  cache_ok c ->
  configuration_space p' = configuration_space p ->
  exists g,
    instances (get c p).1 !! (get c p).2 = Some g /\
    cg_configspace g = configuration_space p /\
    instances (cache_register_result (get c p).1 p' job) !! (get c p).2
    = Some (with_job g job).
Proof.
  intros Hok Hp.
  pose proof (get_ok c p Hok) as Hok1.
  pose proof (get_returns c p) as Hret.
  destruct (register_result_routes_aux (get c p).1 p' job Hok1)
    as (_ & _ & _ & _ & _ & Hroute).
  rewrite Hp in Hroute. destruct (Hroute _ Hret) as (g & Hg & Hg' & _).
  exists g. split; [exact Hg|]. split; [|exact Hg'].
  destruct (proj2 Hok1 _ _ Hret) as (g2 & Hg2 & Hk2). congruence.
Qed.

Lemma get_then_register_result_witness :
  exists g,
    instances (get new_ConfigGeneratorCache (mkPipeline 3 0)).1
      !! (get new_ConfigGeneratorCache (mkPipeline 3 0)).2 = Some g /\
    cg_configspace g = 3%nat /\
    instances (cache_register_result
                 (get new_ConfigGeneratorCache (mkPipeline 3 0)).1
                 (mkPipeline 3 1) 7)
      !! (get new_ConfigGeneratorCache (mkPipeline 3 0)).2
    = Some (with_job g 7).
Proof.
  apply (get_then_register_result new_ConfigGeneratorCache (mkPipeline 3 0)
           (mkPipeline 3 1) 7).
  - apply cache_ok_new.
  - reflexivity.
Defined.

(** ** runhistory.py: the runs of a configuration *)

Lemma runs_of_spec (id : CandidateId) (d : Datum) (rs : list (Q * ResultValue)) :
  forall runs,
    runs_of id d rs = inr runs ->
    map budget runs = map fst rs /\
    Forall (fun r => config_id r = id) runs /\
    Forall (fun r => dict_get Qeq_bool (budget r) (time_stamps d)
                     = Some (run_time_stamps r)) runs.
Proof.
  induction rs as [|[b res] rs IH]; intros runs; simpl.
  - intros [= <-]. repeat split; constructor.
  - destruct (dict_get Qeq_bool b (time_stamps d)) as [ts|] eqn:Hts;
      [|discriminate].
    destruct (runs_of id d rs) as [e|runs'] eqn:Hr; [discriminate|].
    intros [= <-]. destruct (IH runs' eq_refl) as (Hb & Hid & Ht).
    split; [|split].
    + simpl. f_equal; [destruct res; reflexivity|exact Hb].
    + constructor; [destruct res; reflexivity|exact Hid].
    + constructor; [destruct res; exact Hts|exact Ht].
Qed.





(** ** runhistory.py: learning curves *)

Lemma StronglySorted_map {A B : Type} (R : B -> B -> Prop) (f : A -> B)
    (l : list A) :
  StronglySorted (fun a b => R (f a) (f b)) l -> StronglySorted R (map f l).
Proof.
  induction 1 as [|x l Hs IH Hx]; simpl; constructor; [exact IH|].
  apply Forall_forall. intros y Hy. apply list_elem_of_In in Hy.
  apply in_map_iff in Hy as (z & <- & Hz).
  rewrite Forall_forall in Hx. apply Hx, list_elem_of_In, Hz.
Qed.

Lemma StronglySorted_filter {A : Type} (R : A -> A -> Prop) (f : A -> bool)
    (l : list A) :
  StronglySorted R l -> StronglySorted R (List.filter f l).
Proof.
  induction 1 as [|x l Hs IH Hx]; simpl; [constructor|].
  destruct (f x); [|exact IH]. constructor; [exact IH|].
  apply Forall_forall. intros y Hy. apply list_elem_of_In in Hy.
  apply filter_In in Hy as [Hy _].
  rewrite Forall_forall in Hx. apply Hx, list_elem_of_In, Hy.
Qed.

Lemma filter_Permutation {A : Type} (f : A -> bool) (l l' : list A) :
  Permutation l l' -> Permutation (List.filter f l) (List.filter f l').
Proof.
  induction 1 as [|x l l' _ IH|x y l|l l' l'' _ IH1 _ IH2]; simpl.
  - reflexivity.
  - destruct (f x); [constructor|]; exact IH.
  - destruct (f x), (f y); try reflexivity. apply perm_swap.
  - etransitivity; eassumption.
Qed.

(** The learning curve extracted from a list of runs is a single curve: the
    (budget, loss) pairs of exactly the runs that have a loss, in ascending
    order of budget. *)
Theorem learning_curve_sorted (runs : list Run) :
  exists lc,
    extract_HBS_learning_curves runs = [lc] /\
    StronglySorted (key_le fst) lc /\
    Forall (fun t => snd t <> None) lc /\
    Permutation lc
      (map (fun r => (budget r, loss r))
         (List.filter (fun r => match loss r with
                                | Some _ => true
                                | None => false
                                end) runs)).
Proof.
  eexists. split; [reflexivity|].
  pose proof (sort_by_sorted budget runs) as Hs.
  pose proof (sort_by_Permutation Qltb budget runs) as Hp.
  set (sr := sort_by Qltb budget runs) in *.
  split; [|split].
  - apply StronglySorted_filter.
    apply (StronglySorted_map (key_le fst) (fun r => (budget r, loss r))).
    exact Hs.
  - apply Forall_forall. intros t Ht. apply list_elem_of_In in Ht.
    apply filter_In in Ht as [_ Ht]. destruct (snd t); [discriminate|discriminate].
  - transitivity
      (map (fun r => (budget r, loss r))
         (List.filter (fun r => match loss r with
                                | Some _ => true
                                | None => false
                                end) sr)).
    + apply Permutation_refl'.
      clear. induction sr as [|r sr IH]; [reflexivity|].
      cbn [map List.filter snd]. rewrite IH.
      destruct (loss r) eqn:E; cbn [map]; rewrite ?E; reflexivity.
    + apply Permutation_map, filter_Permutation, Hp.
Qed.



(** ** runhistory.py: [num_iterations] *)

Lemma py_max_Z_spec (xs : list Z) :
  forall x, In (py_max_Z x xs) (x :: xs) /\
            forall y, In y (x :: xs) -> y <= py_max_Z x xs.
Proof.
  unfold py_max_Z. induction xs as [|z xs IH]; intros x; simpl.
  - split; [auto|]. intros y [<-|[]]. lia.
  - destruct (x <? z) eqn:Hc.
    + apply Z.ltb_lt in Hc. destruct (IH z) as [Hin Hle]. split.
      * destruct Hin as [<-|Hin]; auto.
      * intros y [<-|[<-|Hy]].
        -- specialize (Hle z (or_introl eq_refl)). lia.
        -- apply Hle. left. reflexivity.
        -- apply Hle. right. exact Hy.
    + apply Z.ltb_ge in Hc. destruct (IH x) as [Hin Hle]. split.
      * destruct Hin as [<-|Hin]; auto.
      * intros y [<-|[<-|Hy]].
        -- apply Hle. left. reflexivity.
        -- specialize (Hle x (or_introl eq_refl)). lia.
        -- apply Hle. right. exact Hy.
Qed.

(** [num_iterations] raises [ValueError] on a history without
    configurations; otherwise it returns one more than the largest iteration
    index of an id: every id's iteration is below it and some id's iteration
    is just below it. *)
Theorem num_iterations_spec (rh : RunHistory) :
  (rh_data rh = [] -> num_iterations rh = inl ValueError) /\
  (rh_data rh <> [] ->
   exists n,
     num_iterations rh = inr n /\
     (forall k, In k (dict_keys (rh_data rh)) -> cid_iteration k < n) /\
     (exists k, In k (dict_keys (rh_data rh)) /\ cid_iteration k = n - 1)).
Proof.
  unfold num_iterations. split.
  - intros ->. reflexivity.
  - intros Hne. destruct (rh_data rh) as [|[k0 d0] data]; [congruence|].
    simpl. eexists. split; [reflexivity|].
    destruct (py_max_Z_spec (map cid_iteration (dict_keys data))
                (cid_iteration k0)) as [Hin Hle].
    split.
    + intros k Hk.
      assert (cid_iteration k
              <= py_max_Z (cid_iteration k0)
                   (map cid_iteration (dict_keys data))); [|lia].
      apply Hle. destruct Hk as [<-|Hk]; [left; reflexivity|].
      right. apply in_map. exact Hk.
    + destruct Hin as [Hin|Hin].
      * exists k0. split; [left; reflexivity|]. lia.
      * apply in_map_iff in Hin as (k & Hk & Hin).
        exists k. split; [right; exact Hin|]. lia.
Qed.

Lemma num_iterations_spec_witness :
  exists n,
    num_iterations (mkRunHistory (mkHBConfig None 1 1 [1%Q] 1 0)
                      [(id0, new_Datum 0 None);
                       (mkCandidateId 2 0 0, new_Datum 0 None)]) = inr n /\
    (forall k, In k [id0; mkCandidateId 2 0 0] -> cid_iteration k < n) /\
    (exists k, In k [id0; mkCandidateId 2 0 0] /\ cid_iteration k = n - 1).
Proof.
  apply (proj2 (num_iterations_spec
                  (mkRunHistory (mkHBConfig None 1 1 [1%Q] 1 0)
                     [(id0, new_Datum 0 None);
                      (mkCandidateId 2 0 0, new_Datum 0 None)]))).
  discriminate.
Defined.

(** ** runhistory.py: when loading the logs fails *)

Lemma read_configs_keys (configs : list ConfigRecord) (id : CandidateId) :
  is_Some (dict_get cid_eqb id (read_configs configs)) <->
  In id (map cr_id configs).
Proof.
  unfold read_configs.
  enough (forall acc,
            is_Some (dict_get cid_eqb id
              (fold_left
                 (fun data line =>
                    dict_set cid_eqb (cr_id line)
                      (new_Datum (cr_config line) (cr_info line)) data)
                 configs acc))
            <-> In id (map cr_id configs) \/ is_Some (dict_get cid_eqb id acc))
    as H.
  { rewrite H. simpl. split; [intros [H'|[x H']]; [exact H'|discriminate]|auto]. }
  induction configs as [|line configs IH]; intros acc; simpl.
  - split; [auto|]. intros [[]|H]. exact H.
  - rewrite IH, dict_get_set_cid.
    destruct (cid_eqb (cr_id line) id) eqn:He.
    + apply cid_eqb_eq in He. split; [auto|]. intros _. right. eauto.
    + apply cid_eqb_neq in He. split.
      * intros [H|H]; auto.
      * intros [[H|H]|H]; [congruence|auto|auto].
Qed.

Lemma read_results_cases (lines : list ResultRecord) :
  forall data tr bset,
    ((exists line, In line lines /\ dict_get cid_eqb (rr_id line) data = None) /\
     read_results (data, tr, bset) lines = inl KeyError) \/
    ((forall line, In line lines ->
                   is_Some (dict_get cid_eqb (rr_id line) data)) /\
     exists data',
       read_results (data, tr, bset) lines
       = inr (data',
              time_ref_of (map (fun l => submitted (rr_time_stamps l)) lines) tr,
              budget_set_of (map rr_budget lines) bset)).
Proof.
  induction lines as [|line lines IH]; intros data tr bset.
  - right. split; [intros ? []|]. simpl. eauto.
  - simpl. destruct (dict_get cid_eqb (rr_id line) data) as [d|] eqn:Hd.
    + match goal with
      | |- context [read_results (?D, ?T, ?B) lines] =>
          destruct (IH D T B) as [[(l & Hl & Hn) Hr]|[Hk Hr]]
      end.
      * left. split; [|exact Hr]. exists l. split; [right; exact Hl|].
        rewrite dict_get_set_cid in Hn.
        destruct (cid_eqb (rr_id line) (rr_id l)); [discriminate|exact Hn].
      * right. split; [|exact Hr].
        intros l [<-|Hl]; [rewrite Hd; eauto|].
        specialize (Hk l Hl). rewrite dict_get_set_cid in Hk.
        destruct (cid_eqb (rr_id line) (rr_id l)) eqn:He; [|exact Hk].
        apply cid_eqb_eq in He. rewrite <- He, Hd. eauto.
    + left. split; [|reflexivity]. exists line. auto.
Qed.


Lemma infer_HB_config_error (tr : xfloat) (bset : list Q) (e : exn) :
  infer_HB_config tr bset = inl e ->
  (e = ZeroDivisionError /\
   exists b0 b1 rest, sort_by Qltb (fun b => b) bset = b0 :: b1 :: rest /\
                      (b0 == 0)%Q) \/
  (e = ValueError /\ (bset = [] \/ tr = PosInf)).
Proof.
  unfold infer_HB_config.
  destruct (sort_by Qltb (fun b => b) bset) as [|b0 [|b1 rest]] eqn:HL.
  - destruct bset; [intros [= <-]; auto|].
    destruct tr; [discriminate|intros [= <-]; auto].
  - destruct bset; [intros [= <-]; auto|].
    destruct tr; [discriminate|intros [= <-]; auto].
  - destruct (Qeq_bool b0 0) eqn:Hz.
    + intros [= <-]. left. split; [reflexivity|].
      exists b0, b1, rest. split; [reflexivity|]. apply Qeq_bool_iff, Hz.
    + destruct bset; [intros [= <-]; auto|].
      destruct tr; [discriminate|intros [= <-]; auto].
Qed.


Lemma sort_by_length {A : Type} (key : A -> Q) (l : list A) :
  length (sort_by Qltb key l) = length l.
Proof. apply Permutation_length, sort_by_Permutation. Qed.


(** ** runhistory.py: the runs of a loaded history *)














Lemma dict_get_Some_In {V : Type} (k : CandidateId) (v : V)
    (d : list (CandidateId * V)) :
  dict_get cid_eqb k d = Some v -> In (k, v) d.
Proof.
  induction d as [|[k0 v0] d IH]; simpl; [discriminate|].
  destruct (cid_eqb k0 k) eqn:He.
  - apply cid_eqb_eq in He as ->. intros [= ->]. auto.
  - auto.
Qed.







(** ** runhistory.py: the shape of the incumbent trajectory *)

Lemma StronglySorted_snoc {A : Type} (R : A -> A -> Prop) (l : list A) (x : A) :
  StronglySorted R l -> Forall (fun y => R y x) l ->
  StronglySorted R (l ++ [x]).
Proof.
  induction 1 as [|a l Hs IH Ha]; intros Hx; simpl.
  - repeat constructor.
  - apply Forall_cons in Hx as [Hax Hx].
    constructor; [apply IH, Hx|].
    apply Forall_app. split; [exact Ha|]. constructor; [exact Hax|constructor].
Qed.

Lemma StronglySorted_last {A : Type} (R : A -> A -> Prop) (l : list A) (z : A) :
  StronglySorted R l -> last l = Some z ->
  Forall (fun a => a = z \/ R a z) l.
Proof.
  induction 1 as [|a l Hs IH Ha]; intros Hz; [constructor|].
  destruct l as [|b l].
  - simpl in Hz. injection Hz as ->. constructor; [auto|constructor].
  - rewrite last_cons_cons in Hz. constructor; [|apply IH, Hz].
    right. rewrite Forall_forall in Ha. apply Ha.
    apply last_Some_elem_of. exact Hz.
Qed.

Lemma StronglySorted_weaken {A : Type} (R R' : A -> A -> Prop) (l : list A) :
  (forall a b, R a b -> R' a b) -> StronglySorted R l -> StronglySorted R' l.
Proof.
  intros HR. induction 1 as [|a l Hs IH Ha]; constructor; [exact IH|].
  eapply Forall_impl; [exact Ha|]. intros b. apply HR.
Qed.

Lemma Forall2_snoc {A B : Type} (P : A -> B -> Prop) (l : list A) (k : list B)
    (x : A) (y : B) :
  Forall2 P l k -> P x y -> Forall2 P (l ++ [x]) (k ++ [y]).
Proof.
  intros H Hxy. apply Forall2_app; [exact H|]. constructor; [exact Hxy|constructor].
Qed.

Lemma last_map {A B : Type} (f : A -> B) (l : list A) :
  last (map f l) = option_map f (last l).
Proof.
  induction l as [|a [|b l] IH]; [reflexivity|reflexivity|].
  change (map f (a :: b :: l)) with (f a :: f b :: map f l).
  rewrite !last_cons_cons. exact IH.
Qed.

(** One step of the scan keeps the invariant; the accepted runs grow by the
    run just scanned, or stay. *)
Lemma scan_step_inv (bib ndb : bool) (min_b : Q) (rs : list Run)
    (acc : scan_state) (r : Run) :
  scan_inv bib ndb min_b rs acc ->
  scan_inv bib ndb min_b rs (scan_step bib ndb acc r) \/
  scan_inv bib ndb min_b (rs ++ [r]) (scan_step bib ndb acc r).
Proof.
  destruct acc as [[cur ib] t]. unfold scan_step.
  intros Hinv. destruct (loss r) as [l|] eqn:Hl; [|left; exact Hinv].
  match goal with
  | |- context [if ?c then _ else _] => destruct c eqn:Hnew
  end; [|left; exact Hinv].
  right. destruct Hinv as ((Hids & Htimes & Hbud & Hloss) & Hlast & Hndb & Hbib).
  cbn [fst snd] in *.
  split; [|split; [|split]]; cbn [fst snd config_ids times_finished traj_budgets losses].
  - unfold points_of.
    cbn [config_ids times_finished traj_budgets losses].
    rewrite Hids, Htimes, Hbud, !map_app. simpl.
    repeat (split; [reflexivity|]).
    apply Forall2_snoc; assumption.
  - right. exists l, (budget r). rewrite !last_snoc. auto.
  - intros ->. apply StronglySorted_snoc; [auto|].
    destruct Hlast as [(-> & _ & _)|(c & b & _ & Hb & _ & ->)].
    + rewrite Hbud. constructor.
    + (* the new budget is not below the incumbent's *)
      assert (Hge : (b <= budget r)%Q).
      { destruct (Qltb (budget r) b) eqn:Hlt; [|apply Qltb_ge, Hlt].
        rewrite andb_true_l in Hnew. discriminate. }
      eapply Forall_impl;
        [apply (StronglySorted_last Qle _ b (Hndb eq_refl) Hb)|].
      intros a [->|Ha]; [exact Hge|eapply Qle_trans; eassumption].
  - intros ->. apply StronglySorted_snoc; [auto|].
    rewrite andb_false_l in Hnew.
    destruct Hlast as [(-> & _ & _)|(c & b & Hc & _ & -> & _)].
    + inversion Hloss. constructor.
    + assert (Hlt : (l < c)%Q).
      { simpl in Hnew. destruct (Qltb l c) eqn:Hlc; [apply Qltb_lt, Hlc|].
        destruct (ndb && Qltb (budget r) ib); discriminate. }
      eapply Forall_impl;
        [apply (StronglySorted_last _ _ c (Hbib eq_refl) Hc)|].
      intros a [->|Ha]; [exact Hlt|]. simpl in Ha.
      eapply Qlt_trans; eassumption.
Qed.

Lemma scan_fold_inv (bib ndb : bool) (min_b : Q) (L : list Run) :
  forall rs acc,
    scan_inv bib ndb min_b rs acc ->
    exists rs',
      scan_inv bib ndb min_b (rs ++ rs') (fold_left (scan_step bib ndb) L acc) /\
      sublist rs' L.
Proof.
  induction L as [|r L IH]; intros rs acc Hinv; simpl.
  - exists []. rewrite app_nil_r. split; [exact Hinv|constructor].
  - destruct (scan_step_inv bib ndb min_b rs acc r Hinv) as [H|H].
    + destruct (IH _ _ H) as (rs' & Hinv' & Hsub).
      exists rs'. split; [exact Hinv'|]. apply sublist_cons, Hsub.
    + destruct (IH _ _ H) as (rs' & Hinv' & Hsub).
      exists (r :: rs'). split.
      * rewrite <- (app_assoc rs [r] rs') in Hinv'. exact Hinv'.
      * apply sublist_skip, Hsub.
Qed.

Lemma sublist_StronglySorted {A : Type} (R : A -> A -> Prop) (l k : list A) :
  sublist l k -> StronglySorted R k -> StronglySorted R l.
Proof.
  intros Hsub Hk. revert l Hsub.
  induction Hk as [|a k Hs IH Ha]; intros l Hsub.
  - apply sublist_nil_r in Hsub as ->. constructor.
  - apply sublist_cons_r in Hsub as [Hsub|(l' & -> & Hsub)]; [auto|].
    constructor; [auto|].
    rewrite Forall_forall in *. intros x Hx. apply Ha.
    eapply elem_of_sublist; eassumption.
Qed.

(** The scan of the selected runs: the trajectory it returns. *)
Lemma incumbent_trajectory_of_shape (cfg : HBConfig) (bib ndb : bool)
    (all_runs : list Run) (t : Trajectory) :
  incumbent_trajectory_of cfg bib ndb all_runs = inr t ->
  length (times_finished t) = length (config_ids t) /\
  length (traj_budgets t) = length (config_ids t) /\
  length (losses t) = length (config_ids t) /\
  StronglySorted Qle (times_finished t) /\
  (ndb = true -> StronglySorted Qle (traj_budgets t)) /\
  (bib = false -> StronglySorted (fun a b => (b <= a)%Q) (losses t)) /\
  (forall i, In i (config_ids t) -> In i (map config_id all_runs)) /\
  (forall b, In b (traj_budgets t) -> In b (map budget all_runs)).
Proof.
  unfold incumbent_trajectory_of.
  pose proof (sort_by_sorted finish_time all_runs) as Hsorted.
  pose proof (sort_by_Permutation Qltb finish_time all_runs) as Hperm.
  change (fun r : Run => finished (run_time_stamps r)) with finish_time.
  set (L := sort_by Qltb finish_time all_runs) in *.
  destruct (last L) as [rl|] eqn:Hrl.
  2:{ intros [= <-]. simpl.
      split; [reflexivity|]. split; [reflexivity|]. split; [reflexivity|].
      split; [constructor|]. split; [intros _; constructor|].
      split; [intros _; constructor|]. split; intros ? []. }
  assert (Hinit : scan_inv bib ndb (min_budget cfg) []
                    (PosInf, min_budget cfg, empty_trajectory)).
  { split; [repeat split; constructor|]. split; [left; auto|].
    split; constructor. }
  destruct (scan_fold_inv bib ndb (min_budget cfg) L [] _ Hinit)
    as (rs & Hinv & Hsub).
  simpl in Hinv.
  destruct (fold_left (scan_step bib ndb) L (PosInf, min_budget cfg, empty_trajectory))
    as [[cur ib] t0].
  destruct Hinv as ((Hids & Htimes & Hbud & Hloss) & Hlast & Hndb & Hbib).
  cbn [fst snd] in *.
  assert (Hlen : length (losses t0) = length rs).
  { symmetry. eapply Forall2_length. exact Hloss. }
  assert (Htsorted : StronglySorted Qle (times_finished t0)).
  { rewrite Htimes. apply StronglySorted_map.
    eapply sublist_StronglySorted; [exact Hsub|exact Hsorted]. }
  assert (HinL : forall r, In r rs -> In r all_runs).
  { intros r Hr. eapply Permutation_in; [exact Hperm|].
    apply list_elem_of_In. eapply elem_of_sublist; [|exact Hsub].
    apply list_elem_of_In. exact Hr. }
  assert (Hids_in : forall i, In i (config_ids t0) -> In i (map config_id all_runs)).
  { intros i Hi. rewrite Hids in Hi. apply in_map_iff in Hi as (r & <- & Hr).
    apply in_map, HinL, Hr. }
  assert (Hbud_in : forall b, In b (traj_budgets t0) -> In b (map budget all_runs)).
  { intros b Hb. rewrite Hbud in Hb. apply in_map_iff in Hb as (r & <- & Hr).
    apply in_map, HinL, Hr. }
  destruct (differs cur (loss rl)).
  - destruct (last (config_ids t0)) as [i|] eqn:Hi; [|discriminate].
    destruct (last (traj_budgets t0)) as [b|] eqn:Hb; [|discriminate].
    destruct (last (losses t0)) as [l|] eqn:Hl; [|discriminate].
    intros [= <-]. cbn [config_ids times_finished traj_budgets losses].
    rewrite !length_app. simpl.
    rewrite Htimes, Hbud, Hids, !length_map, Hlen.
    split; [reflexivity|]. split; [reflexivity|]. split; [reflexivity|].
    split; [|split; [|split; [|split]]].
    + rewrite <- Htimes. apply StronglySorted_snoc; [exact Htsorted|].
      rewrite Htimes. apply Forall_forall. intros x Hx.
      apply list_elem_of_In in Hx. apply in_map_iff in Hx as (r & <- & Hr).
      assert (HrL : r ∈ L).
      { eapply elem_of_sublist; [|exact Hsub]. apply list_elem_of_In, Hr. }
      pose proof (StronglySorted_last _ _ _ Hsorted Hrl) as Hbound.
      rewrite Forall_forall in Hbound.
      destruct (Hbound r HrL) as [->|H]; [apply Qle_refl|exact H].
    + intros Hn. rewrite <- Hbud. apply StronglySorted_snoc; [auto|].
      eapply Forall_impl; [apply (StronglySorted_last _ _ _ (Hndb Hn) Hb)|].
      intros a [->|Ha]; [apply Qle_refl|exact Ha].
    + intros Hn. apply StronglySorted_snoc.
      * eapply StronglySorted_weaken; [|apply (Hbib Hn)].
        intros a c. apply Qlt_le_weak.
      * eapply Forall_impl; [apply (StronglySorted_last _ _ _ (Hbib Hn) Hl)|].
        intros a [->|Ha]; [apply Qle_refl|apply Qlt_le_weak, Ha].
    + intros j Hj. rewrite <- Hids in Hj.
      apply in_app_or in Hj as [Hj|[<-|[]]]; [auto|].
      apply Hids_in. apply list_elem_of_In, last_Some_elem_of, Hi.
    + intros c Hc. rewrite <- Hbud in Hc.
      apply in_app_or in Hc as [Hc|[<-|[]]]; [auto|].
      apply Hbud_in. apply list_elem_of_In, last_Some_elem_of, Hb.
  - intros [= <-].
    rewrite Htimes, Hbud, Hids, !length_map, Hlen.
    split; [reflexivity|]. split; [reflexivity|]. split; [reflexivity|].
    rewrite <- Htimes, <- Hbud, <- Hids.
    split; [exact Htsorted|]. split; [exact Hndb|].
    split; [|split; assumption].
    intros Hn. eapply StronglySorted_weaken; [|apply (Hbib Hn)].
    intros a c. apply Qlt_le_weak.
Qed.

Lemma all_runs_of_ids (rh : RunHistory) (flag : bool) (keys : list CandidateId) :
  forall runs,
    all_runs_of rh flag keys = inr runs ->
    Forall (fun r => is_Some (dict_get cid_eqb (config_id r) (rh_data rh))) runs.
Proof.
  induction keys as [|k keys IH]; intros runs; simpl.
  - intros [= <-]. constructor.
  - destruct (get_runs_by_id rh k) as [e|rs] eqn:Hr; [discriminate|].
    destruct (all_runs_of rh flag keys) as [e|rest]; [discriminate|].
    intros [= <-].
    assert (Hrs : Forall (fun r => is_Some (dict_get cid_eqb (config_id r)
                                              (rh_data rh))) rs).
    { unfold get_runs_by_id in Hr.
      destruct (dict_get cid_eqb k (rh_data rh)) as [d|] eqn:Hd; [|discriminate].
      destruct (runs_of k d (results d)) as [e|rs0] eqn:Hr0; [discriminate|].
      injection Hr as <-.
      destruct (runs_of_spec _ _ _ _ Hr0) as (_ & Hid & _).
      apply Forall_forall. intros r Hin.
      rewrite (sort_by_Permutation Qltb budget rs0) in Hin.
      rewrite Forall_forall in Hid. rewrite (Hid r Hin), Hd. eauto. }
    apply Forall_app. split; [|apply IH; reflexivity].
    destruct flag; [|exact Hrs].
    destruct (last rs) as [r|] eqn:Hl; [|constructor].
    constructor; [|constructor].
    rewrite Forall_forall in Hrs. apply Hrs, last_Some_elem_of, Hl.
Qed.

(** The incumbent trajectory is four lists of one length.  Its finish times
    ascend; its budgets ascend when [non_decreasing_budget] is set; its
    losses descend when [bigger_is_better] is not set; every point is a
    configuration of the history; and without [all_budgets] every point is
    on the maximum budget. *)
Theorem trajectory_well_formed (rh : RunHistory)
    (all_budgets bigger_is_better non_decreasing_budget : bool)
    (t : Trajectory) :
  get_incumbent_trajectory rh all_budgets bigger_is_better
    non_decreasing_budget = inr t ->
  length (times_finished t) = length (config_ids t) /\
  length (traj_budgets t) = length (config_ids t) /\
  length (losses t) = length (config_ids t) /\
  StronglySorted Qle (times_finished t) /\
  (non_decreasing_budget = true -> StronglySorted Qle (traj_budgets t)) /\
  (bigger_is_better = false ->
   StronglySorted (fun a b => (b <= a)%Q) (losses t)) /\
  Forall (fun i => is_Some (dict_get cid_eqb i (rh_data rh))) (config_ids t) /\
  (all_budgets = false ->
   Forall (fun b => (b == max_budget (HB_config rh))%Q) (traj_budgets t)).
Proof.
  unfold get_incumbent_trajectory.
  destruct (get_all_runs rh (negb all_budgets)) as [e|runs] eqn:Hruns;
    [discriminate|].
  intros Ht. apply incumbent_trajectory_of_shape in Ht.
  destruct Ht as (H1 & H2 & H3 & H4 & H5 & H6 & Hids & Hbud).
  repeat (split; [assumption|]).
  pose proof (all_runs_of_ids _ _ _ _ Hruns) as Hknown.
  split.
  - apply Forall_forall. intros i Hi. apply list_elem_of_In in Hi.
    apply Hids in Hi. apply in_map_iff in Hi as (r & <- & Hr).
    rewrite Forall_forall in Hknown. apply Hknown.
    apply list_elem_of_In.
    destruct all_budgets; [exact Hr|]. apply filter_In in Hr as [Hr _]. exact Hr.
  - intros ->. apply Forall_forall. intros b Hb. apply list_elem_of_In in Hb.
    apply Hbud in Hb. apply in_map_iff in Hb as (r & <- & Hr).
    apply filter_In in Hr as [_ Hr]. apply Qeq_bool_iff, Hr.
Qed.

Lemma trajectory_well_formed_witness :
  length [1%Q] = length [id0] /\ StronglySorted Qle [1%Q].
Proof.
  destruct (trajectory_well_formed
              (mkRunHistory (mkHBConfig None 1 1 [1%Q] 1 0)
                 [(id0, mkDatum 0 None [(1%Q, ResFloat 0.5)]
                          [(1%Q, mkTimeStamps 0 0 1)] [])])
              true true true (mkTrajectory [id0] [1%Q] [1%Q] [0.5%Q]))
    as (H1 & _ & _ & H4 & _).
  - vm_compute. reflexivity.
  - split; [exact H1|exact H4].
Defined.

(** ** runhistory.py: when the incumbent trajectory raises *)

Lemma scan_no_loss (bib ndb : bool) (L : list Run) :
  forall acc,
    Forall (fun r => loss r = None) L ->
    fold_left (scan_step bib ndb) L acc = acc.
Proof.
  induction L as [|r L IH]; intros acc HL; [reflexivity|].
  apply Forall_cons in HL as [Hr HL]. simpl.
  assert (Hstep : scan_step bib ndb acc r = acc).
  { destruct acc as [[cur ib] t]. unfold scan_step. rewrite Hr. reflexivity. }
  rewrite Hstep. apply IH, HL.
Qed.

Lemma app_not_nil {A : Type} (l : list A) (x : A) : l ++ [x] <> [].
Proof. destruct l; discriminate. Qed.

Lemma scan_step_has_point (bib ndb : bool) (acc : scan_state) (r : Run) :
  has_point (snd acc) -> has_point (snd (scan_step bib ndb acc r)).
Proof.
  destruct acc as [[cur ib] t]. unfold scan_step. intros H.
  destruct (loss r) as [l|]; [|exact H].
  match goal with
  | |- context [if ?c then _ else _] => destruct c
  end; [|exact H].
  repeat split; apply app_not_nil.
Qed.

Lemma scan_fold_has_point (bib ndb : bool) (L : list Run) :
  forall acc,
    has_point (snd acc) ->
    has_point (snd (fold_left (scan_step bib ndb) L acc)).
Proof.
  induction L as [|r L IH]; intros acc H; [exact H|].
  simpl. apply IH, scan_step_has_point, H.
Qed.

(** The first run with a loss becomes an incumbent, unless its budget is
    below the minimum budget and budgets may not decrease. *)
Lemma scan_first_loss (bib ndb : bool) (min_b l : Q) (r : Run) :
  loss r = Some l ->
  (ndb = true -> (min_b <= budget r)%Q) ->
  has_point (snd (scan_step bib ndb (PosInf, min_b, empty_trajectory) r)).
Proof.
  intros Hl Hb. unfold scan_step. rewrite Hl.
  assert (Hnd : ndb && Qltb (budget r) min_b = false).
  { destruct ndb; [|reflexivity]. simpl. apply Qltb_ge. auto. }
  rewrite Hnd. simpl.
  destruct (bib && Qltb min_b (budget r)); repeat split; discriminate.
Qed.

Lemma first_with_loss (L : list Run) :
  (exists r, In r L /\ loss r <> None) ->
  exists pre r l post,
    L = pre ++ r :: post /\ Forall (fun r => loss r = None) pre /\
    loss r = Some l.
Proof.
  induction L as [|a L IH]; intros (r & Hr & Hl); [destruct Hr|].
  destruct (loss a) as [l|] eqn:Ha.
  - exists [], a, l, L. split; [reflexivity|]. split; [constructor|exact Ha].
  - destruct IH as (pre & r' & l & post & -> & Hpre & Hl').
    { exists r. split; [|exact Hl]. destruct Hr as [<-|Hr]; [congruence|exact Hr]. }
    exists (a :: pre), r', l, post. split; [reflexivity|].
    split; [constructor; assumption|exact Hl'].
Qed.

Lemma last_not_nil {A : Type} (l : list A) : l <> [] -> is_Some (last l).
Proof.
  intros H. destruct (last l) eqn:Hl; [eauto|].
  apply last_None in Hl. contradiction.
Qed.

Lemma incumbent_trajectory_of_raises (cfg : HBConfig) (bib ndb : bool)
    (sel : list Run) :
  (sel <> [] -> Forall (fun r => loss r = None) sel ->
   incumbent_trajectory_of cfg bib ndb sel = inl IndexError) /\
  ((exists r, In r sel /\ loss r <> None) ->
   (ndb = true -> Forall (fun r => (min_budget cfg <= budget r)%Q) sel) ->
   exists t, incumbent_trajectory_of cfg bib ndb sel = inr t).
Proof.
  unfold incumbent_trajectory_of.
  pose proof (sort_by_Permutation Qltb
                (fun r : Run => finished (run_time_stamps r)) sel) as Hperm.
  set (L := sort_by Qltb (fun r : Run => finished (run_time_stamps r)) sel) in *.
  split.
  - intros Hne Hall.
    assert (HL : Forall (fun r => loss r = None) L) by (rewrite Hperm; exact Hall).
    destruct (last L) as [rl|] eqn:Hrl.
    + rewrite (scan_no_loss bib ndb L _ HL). reflexivity.
    + exfalso. apply last_None in Hrl. apply Hne.
      apply Permutation_nil. rewrite <- Hrl. exact Hperm.
  - intros (r & Hr & Hl) Hmin.
    assert (HrL : exists r, In r L /\ loss r <> None).
    { exists r. split; [|exact Hl].
      eapply Permutation_in; [symmetry; exact Hperm|exact Hr]. }
    destruct (first_with_loss L HrL) as (pre & r0 & l0 & post & HL & Hpre & Hl0).
    assert (Hr0 : In r0 sel).
    { eapply Permutation_in; [exact Hperm|]. rewrite HL.
      apply in_or_app. right. left. reflexivity. }
    destruct (last L) as [rl|] eqn:Hrl; [|eauto].
    assert (Hpt : has_point
                    (snd (fold_left (scan_step bib ndb) L
                            (PosInf, min_budget cfg, empty_trajectory)))).
    { rewrite HL, fold_left_app, (scan_no_loss bib ndb pre _ Hpre). simpl.
      apply scan_fold_has_point. apply (scan_first_loss bib ndb _ l0); [exact Hl0|].
      intros Hn. specialize (Hmin Hn). rewrite Forall_forall in Hmin.
      apply Hmin, list_elem_of_In, Hr0. }
    destruct (fold_left (scan_step bib ndb) L
                (PosInf, min_budget cfg, empty_trajectory)) as [[cur ib] t0].
    destruct Hpt as (H1 & H2 & H3). cbn [snd] in *.
    destruct (differs cur (loss rl)); [|eauto].
    destruct (last_not_nil _ H1) as [i ->].
    destruct (last_not_nil _ H2) as [b ->].
    destruct (last_not_nil _ H3) as [l ->]. eauto.
Qed.

(** When the history has runs and none of the selected runs has a loss,
    [get_incumbent_trajectory] raises [IndexError] instead of returning an
    empty trajectory.  When one of them has a loss, and no budget is below
    the minimum budget in case budgets may not decrease, it returns a
    trajectory. *)
Theorem trajectory_raises_without_loss (rh : RunHistory)
    (all_budgets bigger_is_better non_decreasing_budget : bool)
    (runs : list Run) :
  get_all_runs rh (negb all_budgets) = inr runs ->
  let selected :=
    if all_budgets then runs
    else List.filter
           (fun r => Qeq_bool (budget r) (max_budget (HB_config rh))) runs in
  (selected <> [] -> Forall (fun r => loss r = None) selected ->
   get_incumbent_trajectory rh all_budgets bigger_is_better
     non_decreasing_budget = inl IndexError) /\
  ((exists r, In r selected /\ loss r <> None) ->
   (non_decreasing_budget = true ->
    Forall (fun r => (min_budget (HB_config rh) <= budget r)%Q) selected) ->
   exists t,
     get_incumbent_trajectory rh all_budgets bigger_is_better
       non_decreasing_budget = inr t).
Proof.
  intros Hruns selected. unfold get_incumbent_trajectory. rewrite Hruns.
  apply incumbent_trajectory_of_raises.
Qed.

Lemma trajectory_raises_without_loss_witness :
  get_incumbent_trajectory
    (mkRunHistory (mkHBConfig None 1 1 [1%Q] 1 0)
       [(id0, mkDatum 0 None [(1%Q, ResNone)] [(1%Q, mkTimeStamps 0 0 1)] [])])
    true true true = inl IndexError.
Proof.
  apply (proj1 (trajectory_raises_without_loss
                  (mkRunHistory (mkHBConfig None 1 1 [1%Q] 1 0)
                     [(id0, mkDatum 0 None [(1%Q, ResNone)]
                              [(1%Q, mkTimeStamps 0 0 1)] [])])
                  true true true
                  [mkRun id0 1 None None (mkTimeStamps 0 0 1) None] eq_refl)).
  - discriminate.
  - repeat constructor.
Defined.

(** ** runhistory.py: [get_all_runs] *)

Lemma all_runs_of_largest (rh : RunHistory) (keys : list CandidateId) :
  forall runs,
    all_runs_of rh true keys = inr runs ->
    (length runs <= length keys)%nat /\
    forall r, In r runs ->
      In (config_id r) keys /\
      exists all,
        get_runs_by_id rh (config_id r) = inr all /\
        In r all /\
        forall r', In r' all -> (budget r' <= budget r)%Q.
Proof.
  induction keys as [|k keys IH]; intros runs; simpl.
  - intros [= <-]. split; [reflexivity|]. intros r [].
  - destruct (get_runs_by_id rh k) as [e|rs] eqn:Hr; [discriminate|].
    destruct (all_runs_of rh true keys) as [e|rest]; [discriminate|].
    intros [= <-]. destruct (IH rest eq_refl) as [Hlen Hrest].
    assert (Hk : forall r, In r rs -> config_id r = k).
    { unfold get_runs_by_id in Hr.
      destruct (dict_get cid_eqb k (rh_data rh)) as [d|]; [|discriminate].
      destruct (runs_of k d (results d)) as [e|rs0] eqn:Hr0; [discriminate|].
      injection Hr as <-.
      destruct (runs_of_spec _ _ _ _ Hr0) as (_ & Hid & _).
      intros r Hin. rewrite Forall_forall in Hid. apply Hid.
      rewrite <- (sort_by_Permutation Qltb budget rs0).
      apply list_elem_of_In. exact Hin. }
    assert (Hs : StronglySorted (key_le budget) rs).
    { unfold get_runs_by_id in Hr.
      destruct (dict_get cid_eqb k (rh_data rh)) as [d|]; [|discriminate].
      destruct (runs_of k d (results d)) as [e|rs0]; [discriminate|].
      injection Hr as <-. apply sort_by_sorted. }
    destruct (last rs) as [rl|] eqn:Hl; simpl.
    + split; [lia|]. intros r [<-|Hin].
      * assert (Hin : In rl rs) by (apply list_elem_of_In, last_Some_elem_of, Hl).
        rewrite (Hk rl Hin). split; [left; reflexivity|].
        exists rs. split; [exact Hr|]. split; [exact Hin|].
        intros r' Hr'.
        pose proof (StronglySorted_last _ _ _ Hs Hl) as Hb.
        rewrite Forall_forall in Hb.
        destruct (Hb r' (proj2 (list_elem_of_In _ _) Hr')) as [->|H];
          [apply Qle_refl|exact H].
      * destruct (Hrest r Hin) as [Hkeys Hall]. split; [right; exact Hkeys|exact Hall].
    + split; [lia|]. intros r Hin.
      destruct (Hrest r Hin) as [Hkeys Hall]. split; [right; exact Hkeys|exact Hall].
Qed.

(** With [only_largest_budget], [get_all_runs] returns at most one run per
    configuration of the history, and each returned run is the one on the
    largest budget among the runs of its configuration. *)
Theorem get_all_runs_largest (rh : RunHistory) (runs : list Run) :
  get_all_runs rh true = inr runs ->
  (length runs <= length (rh_data rh))%nat /\
  forall r, In r runs ->
    exists all,
      get_runs_by_id rh (config_id r) = inr all /\
      In r all /\
      forall r', In r' all -> (budget r' <= budget r)%Q.
Proof.
  unfold get_all_runs. intros H.
  destruct (all_runs_of_largest rh _ _ H) as [Hlen Hall].
  unfold dict_keys in Hlen. rewrite length_map in Hlen.
  split; [exact Hlen|]. intros r Hr. apply Hall, Hr.
Qed.

Lemma get_all_runs_largest_witness :
  (length [mkRun id0 3 (Some 0.4%Q) None (mkTimeStamps 2 2 5) None] <= 1)%nat.
Proof.
  apply (get_all_runs_largest
           (mkRunHistory (mkHBConfig None 1 3 [1%Q; 3%Q] 2 0)
              [(id0, mkDatum 0 None [(3%Q, ResFloat 0.4); (1%Q, ResNone)]
                       [(3%Q, mkTimeStamps 2 2 5); (1%Q, mkTimeStamps 1 1 2)] [])])
           [mkRun id0 3 (Some 0.4%Q) None (mkTimeStamps 2 2 5) None]).
  reflexivity.
Defined.

(** ** runhistory.py: the result logger *)

(** With [overwrite], creating a logger never fails and leaves two empty
    files.  Without it, creating a logger fails exactly when one of the two
    files exists, and the lines of an existing file are never touched; a
    new logger knows no ids. *)
Theorem new_JsonResultLogger_spec (dir : LogDir) (overwrite : bool) :
  let dir' := fst (new_JsonResultLogger dir overwrite) in
  let res := snd (new_JsonResultLogger dir overwrite) in
  (overwrite = true ->
   res = inr (mkJsonResultLogger []) /\ dir' = mkLogDir (Some []) (Some [])) /\
  (overwrite = false ->
   (res = inl FileExistsError <->
    configs_json dir <> None \/ results_json dir <> None) /\
   (forall c, configs_json dir = Some c -> configs_json dir' = Some c) /\
   (forall r, results_json dir = Some r -> results_json dir' = Some r) /\
   (res <> inl FileExistsError ->
    res = inr (mkJsonResultLogger []) /\ dir' = mkLogDir (Some []) (Some []))).
Proof.
  destruct dir as [[c|] [r|]], overwrite; cbn;
    intuition (first [congruence|discriminate|idtac]).
Qed.

Lemma existsb_cid_In (id : CandidateId) (ids : list CandidateId) :
  existsb (cid_eqb id) ids = true <-> In id ids.
Proof.
  rewrite existsb_exists. split.
  - intros (x & Hx & He). apply cid_eqb_eq in He as ->. exact Hx.
  - intros H. exists id. split; [exact H|apply cid_eqb_refl].
Qed.

Lemma lines_of_append {A : Type} (f : option (list A)) (x : A) :
  lines_of (append_line f x) = lines_of f ++ [x].
Proof. reflexivity. Qed.

Lemma logger_inv_add_id (lg : JsonResultLogger) (dir : LogDir)
    (id : CandidateId) (c : nat) (i : option nat) :
  logger_inv (lg, dir) ->
  existsb (cid_eqb id) (lg_config_ids lg) = false ->
  logger_inv (mkJsonResultLogger (lg_config_ids lg ++ [id]),
              mkLogDir (append_line (configs_json dir) (mkConfigRecord id c i))
                (results_json dir)).
Proof.
  intros (Hids & Hnd & Hres) Hnew. cbn [fst snd] in *.
  split; [|split]; cbn [fst snd lg_config_ids configs_json results_json].
  - rewrite lines_of_append, map_app, Hids. reflexivity.
  - apply NoDup_app. split; [exact Hnd|]. split; [|apply NoDup_singleton].
    intros x Hx Hx'. apply list_elem_of_singleton in Hx' as ->.
    apply not_true_iff_false in Hnew. apply Hnew.
    apply existsb_cid_In, list_elem_of_In, Hx.
  - intros line Hl. apply in_or_app. left. apply Hres, Hl.
Qed.

Lemma logger_inv_exec (st : JsonResultLogger * LogDir) (o : log_op) :
  logger_inv st ->
  logger_inv (log_exec st o) /\
  lines_of (results_json (snd (log_exec st o)))
  = lines_of (results_json (snd st))
    ++ match o with
       | LogJobResult job => [result_line job]
       | LogNewConfig _ _ _ => []
       end /\
  (forall id, In id (lg_config_ids (fst st)) ->
              In id (lg_config_ids (fst (log_exec st o)))) /\
  exists new,
    lines_of (configs_json (snd (log_exec st o)))
    = lines_of (configs_json (snd st)) ++ new.
Proof.
  destruct st as [lg dir]. intros Hinv.
  destruct o as [id c i|job]; cbn [log_exec fst snd].
  - unfold new_config.
    destruct (existsb (cid_eqb id) (lg_config_ids lg)) eqn:He.
    + split; [exact Hinv|]. cbn [snd fst]. rewrite app_nil_r.
      split; [reflexivity|]. split; [auto|]. exists []. rewrite app_nil_r. reflexivity.
    + split; [apply logger_inv_add_id; assumption|].
      cbn [snd fst results_json lg_config_ids configs_json].
      rewrite app_nil_r. split; [reflexivity|].
      split; [intros x Hx; apply in_or_app; auto|].
      eexists. apply lines_of_append.
  - unfold __call__.
    destruct (existsb (cid_eqb (job_id job)) (lg_config_ids lg)) eqn:He.
    + cbn [snd fst results_json configs_json].
      split; [|split; [apply lines_of_append|split; [auto|]]].
      * destruct Hinv as (Hids & Hnd & Hres). cbn [fst snd] in *.
        split; [exact Hids|]. split; [exact Hnd|].
        cbn [fst snd results_json]. rewrite lines_of_append.
        intros line Hl. apply in_app_or in Hl as [Hl|[<-|[]]]; [auto|].
        apply existsb_cid_In, He.
      * exists []. rewrite app_nil_r. reflexivity.
    + pose proof (logger_inv_add_id lg dir (job_id job) (job_config job) None
                    Hinv He) as (Hids & Hnd & Hres).
      cbn [snd fst results_json configs_json lg_config_ids] in *.
      split; [|split; [apply lines_of_append|split]].
      * split; [exact Hids|]. split; [exact Hnd|].
        cbn [fst snd results_json lg_config_ids]. rewrite lines_of_append.
        intros line Hl. apply in_app_or in Hl as [Hl|[<-|[]]]; [auto|].
        apply in_or_app. right. left. reflexivity.
      * intros x Hx. apply in_or_app. auto.
      * eexists. apply lines_of_append.
Qed.

Lemma logger_inv_all (ops : list log_op) :
  forall st,
    logger_inv st ->
    logger_inv (log_all ops st) /\
    lines_of (results_json (snd (log_all ops st)))
    = lines_of (results_json (snd st)) ++ map result_line (jobs_of ops) /\
    (forall id, In id (lg_config_ids (fst st)) ->
                In id (lg_config_ids (fst (log_all ops st)))).
Proof.
  unfold log_all.
  induction ops as [|o ops IH]; intros st Hinv; simpl.
  - rewrite app_nil_r. auto.
  - destruct (logger_inv_exec st o Hinv) as (Hinv1 & Hres1 & Hmono1 & _).
    destruct (IH _ Hinv1) as (Hinv2 & Hres2 & Hmono2).
    split; [exact Hinv2|]. split; [|auto].
    rewrite Hres2, Hres1, <- app_assoc. f_equal.
    destruct o as [id c i|job]; reflexivity.
Qed.

Lemma logger_inv_fresh :
  logger_inv (mkJsonResultLogger [], mkLogDir (Some []) (Some [])).
Proof.
  split; [reflexivity|]. split; [constructor|]. intros line [].
Qed.

(** Whatever calls are made on a new logger with two empty files: the
    configs file has one line per id and no id twice, the results file has
    one line per logged job, in the order of the calls, and every id of the
    results file has a line in the configs file; so loading the two files
    never fails for a missing id. *)
Theorem logger_writes_matching_logs (ops : list log_op) :
  let dir := snd (log_all ops (mkJsonResultLogger [],
                               mkLogDir (Some []) (Some []))) in
  let configs := lines_of (configs_json dir) in
  let lines := lines_of (results_json dir) in
  NoDup (map cr_id configs) /\
  lines = map result_line (jobs_of ops) /\
  (forall line, In line lines -> In (rr_id line) (map cr_id configs)) /\
  logged_results_to_runhistory configs lines <> inl KeyError.
Proof.
  intros dir configs lines.
  destruct (logger_inv_all ops _ logger_inv_fresh)
    as ((Hids & Hnd & Hres) & Hlines & _).
  fold dir in Hids, Hres, Hlines. fold configs in Hids. fold lines in Hres, Hlines.
  rewrite Hids in *.
  split; [exact Hnd|]. split; [exact Hlines|]. split; [exact Hres|].
  unfold logged_results_to_runhistory.
  destruct (read_results_cases lines (read_configs configs) PosInf [])
    as [[(l & Hl & Hn) _]|[_ (data' & ->)]].
  - exfalso. specialize (Hres l Hl). apply read_configs_keys in Hres.
    rewrite Hn in Hres. destruct Hres. discriminate.
  - destruct (infer_HB_config _ _) as [e|cfg] eqn:Hinf; [|discriminate].
    destruct (infer_HB_config_error _ _ _ Hinf) as [(-> & _)|(-> & _)];
      discriminate.
Qed.

(** ** runhistory.py: what was logged can be loaded *)





(** ** base_iteration.py: [_add_candidate] *)

Lemma add_candidate_eval (gen : CandidateStructure) (s : St) (a n : Z) (b : Q) :
  is_finished (self s) = false ->
  actual_num_candidates (self s) !! stage (self s) = Some a ->
  num_candidates (self s) !! stage (self s) = Some n ->
  a <> n ->
  budgets (self s) !! stage (self s) = Some b ->
  _add_candidate gen s
  = Return (mkSt (with_candidate (self s) a (length (heap s)))
              (heap s ++ [added_candidate (self s) a b gen]))
      (length (heap s)).
Proof.
  intros Hfin Ha Hn Han Hb. unfold _add_candidate. unfold_monad. simpl.
  rewrite Hfin, Ha, Hn. apply Z.eqb_neq in Han. rewrite Han.
  rewrite lookup_app_r by lia. rewrite Nat.sub_diag. simpl. rewrite Hb. simpl.
  repeat (rewrite list_lookup_insert_eq
            by (rewrite ?length_insert, length_app; simpl; lia); simpl).
  rewrite !list_insert_insert_eq.
  rewrite insert_app_r_alt by lia. rewrite Nat.sub_diag. reflexivity.
Qed.

(** [_add_candidate] raises [RuntimeError], and changes nothing, when the
    bracket is finished or the counter of the stage equals its capacity.
    Otherwise it appends the generated object to the store with the
    bracket's timeout, the budget of the stage and the id
    [(iteration, counter, -1)], binds that id to it in the dict, raises the
    counter of the stage by one and returns the object.  When the stage has
    no budget it raises [IndexError] after the object was constructed. *)
Theorem add_candidate_spec (gen : CandidateStructure) (s : St) (a n : Z) :
  actual_num_candidates (self s) !! stage (self s) = Some a ->
  num_candidates (self s) !! stage (self s) = Some n ->
  (is_finished (self s) = true \/ a = n ->
   _add_candidate gen s = Raise s RuntimeError) /\
  (is_finished (self s) = false -> a <> n ->
   match budgets (self s) !! stage (self s) with
   | Some b =>
       _add_candidate gen s
       = Return (mkSt (with_candidate (self s) a (length (heap s)))
                   (heap s ++ [added_candidate (self s) a b gen]))
           (length (heap s)) /\
       dict_get cid_eqb (new_CandidateId (iteration (self s)) a)
         (data (with_candidate (self s) a (length (heap s))))
       = Some (length (heap s)) /\
       cs_id (added_candidate (self s) a b gen)
       = Some (new_CandidateId (iteration (self s)) a) /\
       cs_budget (added_candidate (self s) a b gen) = b /\
       cs_timeout (added_candidate (self s) a b gen) = timeout (self s) /\
       cs_status (added_candidate (self s) a b gen) = cs_status gen /\
       cs_results (added_candidate (self s) a b gen) = cs_results gen
   | None =>
       _add_candidate gen s
       = Raise (mkSt (self s) (heap s ++ [set_timeout (timeout (self s)) gen]))
           IndexError
   end).
Proof.
  intros Ha Hn. split.
  - intros H. unfold _add_candidate. unfold_monad.
    destruct (is_finished (self s)); [reflexivity|].
    destruct H as [H| ->]; [discriminate|].
    rewrite Ha, Hn. simpl. rewrite Z.eqb_refl. reflexivity.
  - intros Hfin Han.
    destruct (budgets (self s) !! stage (self s)) as [b|] eqn:Hb.
    + split; [apply (add_candidate_eval gen s a n b); assumption|].
      split; [|repeat split].
      unfold with_candidate. simpl. rewrite dict_get_set_cid, cid_eqb_refl.
      reflexivity.
    + unfold _add_candidate. unfold_monad. simpl.
      rewrite Hfin, Ha, Hn. apply Z.eqb_neq in Han. rewrite Han.
      rewrite lookup_app_r by lia. rewrite Nat.sub_diag. simpl. rewrite Hb.
      simpl. rewrite insert_app_r_alt by lia. rewrite Nat.sub_diag. reflexivity.
Qed.

Lemma add_candidate_spec_witness :
  _add_candidate demo_candidate demo_running = Raise demo_running RuntimeError.
Proof.
  apply (proj1 (add_candidate_spec demo_candidate demo_running 1 1
                  eq_refl eq_refl)).
  right. reflexivity.
Defined.

(** ** base_iteration.py: a bracket only moves forward *)

Lemma advances_refl (s : St) : advances s s.
Proof. unfold advances. repeat split; auto. Qed.

Lemma advances_trans (s1 s2 s3 : St) :
  advances s1 s2 -> advances s2 s3 -> advances s1 s3.
Proof.
  unfold advances.
  intros (A1 & A2 & A3 & A4 & A5 & A6 & A7 & A8 & A9)
         (B1 & B2 & B3 & B4 & B5 & B6 & B7 & B8 & B9).
  repeat split; try congruence; try lia; auto.
Qed.

(** Steps that touch only the content of objects and [num_running]. *)
Lemma advances_inner (s : St) (n : Z) (h : list CandidateStructure) :
  length h = length (heap s) ->
  advances s (mkSt (set_num_running n (self s)) h).
Proof.
  intros Hh. unfold advances. simpl. rewrite Hh. repeat split; auto.
Qed.

Lemma advances_modify_obj (l : nat)
    (f : CandidateStructure -> CandidateStructure) (s : St) :
  advances s (state_of (modify_obj l f s)).
Proof.
  unfold_monad. destruct (heap s !! l); simpl; [|apply advances_refl].
  unfold advances. simpl. rewrite length_insert. repeat split; auto.
Qed.

Lemma advances_register_result (cs : nat) (s : St) :
  advances s (state_of (register_result cs s)).
Proof.
  unfold register_result. unfold_monad.
  destruct (is_finished (self s)); [apply advances_refl|].
  destruct (heap s !! cs); simpl; [|apply advances_refl].
  apply advances_inner. apply length_insert.
Qed.

Lemma advances_add_candidate (gen : CandidateStructure) (s : St) :
  advances s (state_of (_add_candidate gen s)).
Proof.
  unfold _add_candidate. unfold_monad. simpl.
  destruct (is_finished (self s)) eqn:Hfin; [apply advances_refl|].
  destruct (actual_num_candidates (self s) !! stage (self s)) as [a|] eqn:Ha;
    [|apply advances_refl].
  destruct (num_candidates (self s) !! stage (self s)) as [n|] eqn:Hn;
    [|apply advances_refl].
  destruct (a =? n) eqn:Han; [apply advances_refl|].
  rewrite lookup_app_r by lia. rewrite Nat.sub_diag. simpl.
  destruct (budgets (self s) !! stage (self s)) as [b|]; simpl.
  2:{ unfold advances. simpl. rewrite length_insert, length_app. simpl.
      repeat split; auto; lia. }
  repeat (rewrite list_lookup_insert_eq
            by (rewrite ?length_insert, length_app; simpl; lia); simpl).
  unfold advances. simpl. rewrite !length_insert, length_app. simpl.
  repeat split; auto; try lia.
  intros k Hk. rewrite dict_get_set_cid.
  destruct (cid_eqb _ k); [eauto|exact Hk].
Qed.

(** The bracket attributes after [_finish_stage], however it ends: the
    stage is one further, and either only the counter of the new stage has
    grown, or the bracket is finished. *)
Lemma finish_stage_self (P : Iteration -> Prop) (policy : Policy) (s : St) :
  (forall k, 0 <= k ->
             P (bumped k (set_stage (S (stage (self s))) (self s)))) ->
  P (set_is_finished true (set_stage (S (stage (self s))) (self s))) ->
  P (self (state_of (_finish_stage policy s))).
Proof.
  intros Hbump Hfin.
  unfold _finish_stage. unfold bind at 1. unfold modify_self at 1.
  set (s1 := mkSt (set_stage (S (stage (self s))) (self s)) (heap s)).
  assert (H0 : P (self s1)).
  { rewrite <- (bumped_0 (self s1)). apply Hbump. lia. }
  unfold bind at 1.
  pose proof (keys_with_status_state REVIEW s1) as Hk.
  pure_step Hk; [|exact H0].
  unfold bind at 1. unfold get_self at 1.
  destruct (length (num_candidates (self s1)) <=? stage (self s1))%nat.
  - unfold _finish_up. unfold_monad.
    rewrite finish_up_loop_self. exact Hfin.
  - unfold bind at 1.
    match goal with |- context [mapM ?f a s1] =>
      pose proof (mapM_state f a read_budget_state s1) as Hb end.
    pure_step Hb; [|exact H0].
    destruct (1 <? length (distinct a0))%nat; [exact H0|].
    unfold bind at 1. unfold index at 1.
    destruct (budgets (self s1) !! (stage (self s1) - 1)%nat) as [budget|];
      [|exact H0].
    unfold ret at 1. unfold bind at 1.
    match goal with |- context [mapM ?f a s1] =>
      pose proof (mapM_state f a (read_loss_state budget) s1) as Hl end.
    pure_step Hl; [|exact H0].
    unfold bind at 1. unfold lift.
    destruct (policy (self s1) a1) as [e|v]; [exact H0|].
    unfold ret at 1.
    destruct (advance_loop_self a v s1) as (k & Hk' & ->).
    apply Hbump. lia.
Qed.

Lemma advances_finish_stage (policy : Policy) (s : St) :
  advances s (state_of (_finish_stage policy s)).
Proof.
  pose proof (finish_stage_shape policy s) as (Hd & Hh & Ha & Hn).
  unfold advances. rewrite Hd, Hh, Ha, Hn.
  split; [|split; [|split; [reflexivity|]]].
  - apply (finish_stage_self (fun it => (stage (self s) <= stage it)%nat));
      simpl; intros; lia.
  - apply (finish_stage_self
             (fun it => is_finished (self s) = true -> is_finished it = true));
      simpl; auto.
  - split; [|split; [|split; [|split; [reflexivity|split; [lia|auto]]]]].
    + apply (finish_stage_self (fun it => budgets it = budgets (self s)));
        reflexivity.
    + apply (finish_stage_self (fun it => iteration it = iteration (self s)));
        reflexivity.
    + apply (finish_stage_self (fun it => timeout it = timeout (self s)));
        reflexivity.
Qed.

(** A property of pairs of states that holds along all paths of
    [get_next_candidate] when it holds for the steps it is made of. *)
Lemma get_next_candidate_rec_rel (R : St -> St -> Prop) (policy : Policy)
    (gen : CandidateStructure) :
  (forall s, R s s) ->
  (forall s1 s2 s3, R s1 s2 -> R s2 s3 -> R s1 s3) ->
  (forall s n h, length h = length (heap s) ->
                 R s (mkSt (set_num_running n (self s)) h)) ->
  (forall s, R s (state_of (_add_candidate gen s))) ->
  (forall s, R s (state_of (_finish_stage policy s))) ->
  forall fuel s, R s (state_of (get_next_candidate_rec fuel policy gen s)).
Proof.
  intros Hrefl Htrans Hinner Hadd Hfin.
  induction fuel as [|fuel IH]; intros s.
  all: simpl; unfold get_next_candidate_body; unfold bind at 1;
       unfold get_self at 1.
  all: destruct (is_finished (self s)); [apply Hrefl|].
  all: unfold bind at 1.
  all: pose proof (keys_with_status_state QUEUED s) as Hk; pure_step Hk;
       [|apply Hrefl].
  all: destruct a as [|cid rest].
  all: try (unfold_monad;
            destruct (dict_get cid_eqb cid (data (self s))) as [l|];
              [|apply Hrefl];
            destruct (heap s !! l) as [c|] eqn:Hc; [|apply Hrefl];
            destruct (budgets (self s) !! stage (self s)) as [b|];
              [|apply Hrefl];
            destruct (Qeq_bool (cs_budget c) b); [|apply Hrefl];
            rewrite Hc; simpl; apply Hinner, length_insert).
  all: unfold bind at 1; unfold index at 1.
  all: destruct (actual_num_candidates (self s) !! stage (self s)) as [a|];
       [|apply Hrefl].
  all: unfold ret at 1; unfold bind at 1; unfold index at 1.
  all: destruct (num_candidates (self s) !! stage (self s)) as [n|];
       [|apply Hrefl].
  all: unfold ret at 1.
  all: destruct (a <? n).
  all: try (unfold bind at 1;
            pose proof (Hadd s) as Ha;
            destruct (_add_candidate gen s) as [s1 l|s1 e]; simpl in Ha;
            [|exact Ha];
            unfold_monad; destruct (heap s1 !! l); simpl; [|exact Ha];
            eapply Htrans; [exact Ha|]; apply Hinner, length_insert).
  all: destruct (num_running (self s) =? 0); [|apply Hrefl].
  all: unfold bind at 1.
  all: pose proof (Hfin s) as Hf.
  all: destruct (_finish_stage policy s) as [s1 []|s1 e]; simpl in Hf;
       [|exact Hf].
  - exact Hf.
  - eapply Htrans; [exact Hf|apply IH].
Qed.

Lemma advances_exec (policy : Policy) (o : op) (s : St) :
  advances s (state_of (exec policy o s)).
Proof.
  destruct o as [gen|cs|gen| |cs r b]; simpl.
  - unfold get_next_candidate.
    pose proof (get_next_candidate_rec_rel advances policy gen
                  advances_refl advances_trans advances_inner
                  (advances_add_candidate gen) (advances_finish_stage policy)
                  (length (num_candidates (self s))) s) as H.
    destruct (get_next_candidate_rec _ policy gen s); exact H.
  - apply advances_register_result.
  - pose proof (advances_add_candidate gen s) as H.
    destruct (_add_candidate gen s); exact H.
  - apply advances_finish_stage.
  - apply advances_modify_obj.
Qed.

(** Whatever is called on a bracket, in any order and also when calls
    raise: the stage never decreases, a finished bracket stays finished, the
    ladder, the budgets, the iteration index and the timeout never change,
    no candidate object disappears and no id is ever removed from the
    dict. *)
Theorem bracket_never_goes_back (policy : Policy) (s0 s : St) :
  reachable policy s0 s -> advances s0 s.
Proof.
  induction 1 as [|s o _ IH]; [apply advances_refl|].
  eapply advances_trans; [exact IH|apply advances_exec].
Qed.

Lemma bracket_never_goes_back_witness :
  advances (mkSt (init 0 [2; 2] [1%Q; 3%Q] None) []) two_by_two.
Proof.
  apply (bracket_never_goes_back resampling_default).
  apply reachable_exec_all. constructor.
Defined.

(** ** base_iteration.py: [_finish_up] *)





(** ** base_iteration.py: [get_next_candidate] *)

Lemma add_candidate_no_budget (gen : CandidateStructure) (s : St) (a n : Z) :
  is_finished (self s) = false ->
  actual_num_candidates (self s) !! stage (self s) = Some a ->
  num_candidates (self s) !! stage (self s) = Some n ->
  a <> n ->
  budgets (self s) !! stage (self s) = None ->
  exists s1, _add_candidate gen s = Raise s1 IndexError.
Proof.
  intros Hfin Ha Hn Han Hb. unfold _add_candidate. unfold_monad. simpl.
  rewrite Hfin, Ha, Hn. apply Z.eqb_neq in Han. rewrite Han.
  rewrite lookup_app_r by lia. rewrite Nat.sub_diag. simpl. rewrite Hb.
  simpl. eauto.
Qed.

Ltac no_return :=
  let H := fresh in
  intro H;
  cbv beta iota delta [bind ret raise index get_self data_lookup load] in H;
  discriminate H.

Lemma get_next_candidate_rec_returns (policy : Policy)
    (gen : CandidateStructure) (fuel : nat) :
  forall s s' r,
    wf s ->
    get_next_candidate_rec fuel policy gen s = Return s' r ->
    match r with
    | Some l => handed_out s s' l
    | None => is_finished (self s') = true \/
              (s' = s /\ num_running (self s) <> 0)
    end.
Proof.
  induction fuel as [|fuel IH]; intros s s' r Hwf.
  all: simpl; unfold get_next_candidate_body; unfold bind at 1;
       unfold get_self at 1.
  all: destruct (is_finished (self s)) eqn:Hfin;
       [unfold ret; intros [= <- <-]; left; exact Hfin|].
  all: unfold bind at 1; rewrite (keys_with_status_spec QUEUED s Hwf).
  all: destruct (map fst (List.filter (has_status s QUEUED) (data (self s))))
         as [|cid rest] eqn:Hq.
  2, 4: unfold_monad;
        destruct (dict_get cid_eqb cid (data (self s))) as [l|] eqn:Hl;
        [|no_return].
  2, 3: destruct (heap s !! l) as [c|] eqn:Hc; [|no_return];
        destruct (budgets (self s) !! stage (self s)) as [b|] eqn:Hb;
          [|no_return];
        destruct (Qeq_bool (cs_budget c) b) eqn:Hbud; [|no_return];
        rewrite Hc; simpl; intros [= <- <-];
        exists (set_status RUNNING c), b; simpl;
        (split; [apply list_lookup_insert_eq; eapply lookup_lt_Some; exact Hc|]);
        (split; [reflexivity|]); (split; [exact Hb|]);
        (split; [apply Qeq_bool_iff, Hbud|]);
        (split; [apply in_map_iff; exists (cid, l);
                 split; [reflexivity|eapply dict_get_Some_In, Hl]|]);
        (split; [exact Hfin|reflexivity]).
  all: unfold bind at 1; unfold index at 1.
  all: destruct (actual_num_candidates (self s) !! stage (self s)) as [a|] eqn:Ha;
       [|no_return].
  all: unfold ret at 1; unfold bind at 1; unfold index at 1.
  all: destruct (num_candidates (self s) !! stage (self s)) as [n|] eqn:Hn;
       [|no_return].
  all: unfold ret at 1.
  all: destruct (a <? n) eqn:Han.
  1, 3: assert (Hne : a <> n) by (apply Z.ltb_lt in Han; lia);
        unfold bind at 1;
        destruct (budgets (self s) !! stage (self s)) as [b|] eqn:Hb;
        [|destruct (add_candidate_no_budget gen s a n Hfin Ha Hn Hne Hb)
            as [s1 ->]; no_return].
  1, 2: rewrite (add_candidate_eval gen s a n b Hfin Ha Hn Hne Hb);
        unfold_monad; simpl;
        rewrite lookup_app_r by lia; rewrite Nat.sub_diag; simpl;
        intros [= <- <-];
        exists (set_status RUNNING (added_candidate (self s) a b gen)), b;
        simpl;
        (split; [apply list_lookup_insert_eq; rewrite length_app; simpl; lia|]);
        (split; [reflexivity|]); (split; [exact Hb|]);
        (split; [reflexivity|]);
        (split; [apply in_map_iff;
                 exists (new_CandidateId (iteration (self s)) a,
                         length (heap s));
                 split; [reflexivity|];
                 apply dict_get_Some_In;
                 rewrite dict_get_set_cid, cid_eqb_refl; reflexivity|]);
        (split; [exact Hfin|reflexivity]).
  all: destruct (num_running (self s) =? 0) eqn:Hnr;
       [|unfold ret; intros [= <- <-]; right;
         split; [reflexivity|apply Z.eqb_neq, Hnr]].
  all: unfold bind at 1.
  all: pose proof (wf_same_shape _ _ Hwf (finish_stage_shape policy s)) as Hwf1.
  all: pose proof (finish_stage_self
                     (fun it => num_running it = num_running (self s)) policy s
                     (fun _ _ => eq_refl) eq_refl) as Hn1.
  all: destruct (_finish_stage policy s) as [s1 []|s1 e]; simpl in Hwf1, Hn1;
       [|no_return].
  - no_return.
  - intros H. specialize (IH s1 s' r Hwf1 H). apply Z.eqb_eq in Hnr.
    destruct r as [l|].
    + destruct IH as (c & b & H1 & H2 & H3 & H4 & H5 & H6 & H7).
      exists c, b. repeat split; try assumption. rewrite H7, Hn1. reflexivity.
    + destruct IH as [IH|[_ IH]]; [left; exact IH|].
      exfalso. apply IH. rewrite Hn1. exact Hnr.
Qed.

(** When [get_next_candidate] returns a candidate, that candidate is in the
    dict of the bracket, its status is [RUNNING], its budget is the budget of
    the stage the bracket is in after the call, the bracket is not finished
    and [num_running] is one more than before the call.  When it returns
    [None], either the bracket is finished, or nothing has changed and
    [num_running] is not zero. *)
Theorem get_next_candidate_returns (policy : Policy) (gen : CandidateStructure)
    (s s' : St) (r : option nat) :
  wf s ->
  get_next_candidate policy gen s = Return s' r ->
  match r with
  | Some l => handed_out s s' l
  | None => is_finished (self s') = true \/
            (s' = s /\ num_running (self s) <> 0)
  end.
Proof.
  unfold get_next_candidate. apply get_next_candidate_rec_returns.
Qed.

Lemma get_next_candidate_returns_witness :
  is_finished (self demo_running) = true \/
  (demo_running = demo_running /\ num_running (self demo_running) <> 0).
Proof.
  apply (get_next_candidate_returns resampling_default demo_candidate
           demo_running demo_running None).
  - repeat split; simpl.
    + apply NoDup_singleton.
    + apply NoDup_singleton.
    + intros k l [[= <- <-]|[]]. simpl. lia.
  - reflexivity.
Defined.

(** ** base_iteration.py: the end of a bracket *)






(** ** base_bandit_learner.py: [_get_next_structure] *)

Lemma wf_heap_grow (it : Iteration) (h h' : list CandidateStructure) :
  (length h <= length h')%nat -> wf (mkSt it h) -> wf (mkSt it h').
Proof.
  intros Hle (H1 & H2 & H3 & H4). repeat split; try assumption.
  simpl in *. intros k l Hin. specialize (H3 k l Hin). lia.
Qed.

Lemma all_wf_put_back (i : nat) (s : St) (L : Learner) :
  all_wf L -> wf s -> (length (store L) <= length (heap s))%nat ->
  all_wf (put_back i s L).
Proof.
  intros Hall Hwf Hle. unfold all_wf, put_back. simpl.
  apply Forall_insert.
  - eapply Forall_impl; [exact Hall|]. intros it. apply wf_heap_grow, Hle.
  - destruct s; exact Hwf.
Qed.

Lemma get_next_candidate_keeps (policy : Policy) (gen : CandidateStructure)
    (s : St) :
  wf s ->
  wf (state_of (get_next_candidate policy gen s)) /\
  (length (heap s)
   <= length (heap (state_of (get_next_candidate policy gen s))))%nat.
Proof.
  intros Hwf. unfold get_next_candidate. split.
  - apply wf_get_next_candidate_rec, Hwf.
  - apply (get_next_candidate_rec_rel advances policy gen
             advances_refl advances_trans advances_inner
             (advances_add_candidate gen) (advances_finish_stage policy)).
Qed.

Lemma find_candidate_seq (policy : Policy) (gen : CandidateStructure)
    (m : nat) :
  forall k L L' r,
    all_wf L ->
    (k + m <= length (iterations L))%nat ->
    find_candidate policy gen (seq k m) L = (L', r) ->
    all_wf L' /\
    length (iterations L') = length (iterations L) /\
    (forall j, (j < k)%nat -> iterations L' !! j = iterations L !! j) /\
    match r with
    | Found l i =>
        (k <= i < k + m)%nat /\ picked L' l i /\
        forall j it, (k <= j < i)%nat -> iterations L' !! j = Some it -> idle it
    | NotFound =>
        forall j it, (k <= j < k + m)%nat ->
                     iterations L' !! j = Some it -> idle it
    | Failed _ => True
    end.
Proof.
  induction m as [|m IH]; intros k L L' r Hall Hlen; simpl.
  - intros [= <- <-]. repeat split; auto. intros j it Hj. lia.
  - destruct (lookup_lt_is_Some_2 (iterations L) k) as [it Hit]; [lia|].
    rewrite Hit.
    assert (Hwf : wf (mkSt it (store L))).
    { unfold all_wf in Hall. rewrite Forall_forall in Hall.
      apply Hall. eapply list_elem_of_lookup_2. exact Hit. }
    destruct (is_finished it) eqn:Hfin.
    { intros H. destruct (IH (S k) L L' r Hall ltac:(lia) H)
        as (Hall' & Hlen' & Hsame & Hr).
      split; [exact Hall'|]. split; [exact Hlen'|].
      split; [intros j Hj; apply Hsame; lia|].
      assert (Hk : forall it', iterations L' !! k = Some it' -> idle it').
      { intros it' Hit'. rewrite Hsame in Hit' by lia.
        rewrite Hit in Hit'. injection Hit' as <-. left. exact Hfin. }
      destruct r as [l i| |e]; [|
        |exact I].
      - destruct Hr as (Hi & Hp & Hidle). split; [lia|]. split; [exact Hp|].
        intros j it' Hj Hit'. destruct (decide (j = k)) as [->|Hne].
        + apply Hk, Hit'.
        + apply (Hidle j); [lia|exact Hit'].
      - intros j it' Hj Hit'. destruct (decide (j = k)) as [->|Hne].
        + apply Hk, Hit'.
        + apply (Hr j); [lia|exact Hit']. }
    destruct (get_next_candidate_keeps policy gen _ Hwf) as [Hwf' Hgrow].
    pose proof (get_next_candidate_rec_returns policy gen
                  (length (num_candidates it)) (mkSt it (store L))) as Hret.
    destruct (get_next_candidate policy gen (mkSt it (store L)))
      as [s' [l|]|s' e] eqn:Hg; simpl in Hwf', Hgrow.
    + intros [= <- <-].
      split; [apply all_wf_put_back; assumption|].
      split; [apply length_insert|].
      split; [intros j Hj; simpl; apply list_lookup_insert_ne; lia|].
      split; [lia|]. split; [|intros j it' Hj; lia].
      destruct (Hret s' (Some l) Hwf Hg)
        as (c & b & H1 & H2 & H3 & H4 & H5 & H6 & _).
      exists (self s'), c, b. simpl.
      split; [apply list_lookup_insert_eq; lia|].
      split; [exact H6|]. split; [exact H1|]. split; [exact H2|].
      split; [exact H3|]. split; [exact H4|exact H5].
    + intros H.
      destruct (IH (S k) (put_back k s' L) L' r) as (Hall' & Hlen' & Hsame & Hr).
      { apply all_wf_put_back; assumption. }
      { simpl. rewrite length_insert. lia. }
      { exact H. }
      simpl in Hlen', Hsame. rewrite length_insert in Hlen'.
      split; [exact Hall'|]. split; [exact Hlen'|].
      split; [intros j Hj; rewrite Hsame by lia;
              apply list_lookup_insert_ne; lia|].
      assert (Hk : forall it', iterations L' !! k = Some it' -> idle it').
      { intros it' Hit'. rewrite Hsame in Hit' by lia.
        rewrite list_lookup_insert_eq in Hit' by lia. injection Hit' as <-.
        destruct (Hret s' None Hwf Hg) as [Hf|[-> Hn]];
          [left; exact Hf|right; exact Hn]. }
      destruct r as [l i| |e]; [|
        |exact I].
      * destruct Hr as (Hi & Hp & Hidle). split; [lia|]. split; [exact Hp|].
        intros j it' Hj Hit'. destruct (decide (j = k)) as [->|Hne].
        -- apply Hk, Hit'.
        -- apply (Hidle j); [lia|exact Hit'].
      * intros j it' Hj Hit'. destruct (decide (j = k)) as [->|Hne].
        -- apply Hk, Hit'.
        -- apply (Hr j); [lia|exact Hit'].
    + intros [= <- <-].
      split; [apply all_wf_put_back; assumption|].
      split; [apply length_insert|].
      split; [intros j Hj; simpl; apply list_lookup_insert_ne; lia|exact I].
Qed.

Lemma get_next_structure_spec (policy : Policy)
    (new_iteration : nat -> Iteration) (gen : CandidateStructure) (n : nat) :
  (forall i h, wf (mkSt (new_iteration i) h)) ->
  forall L L' n' r,
    all_wf L ->
    _get_next_structure policy new_iteration gen n L = (L', n', r) ->
    all_wf L' /\
    match r with
    | Yield l i =>
        (length (iterations L') + n' = length (iterations L) + n)%nat /\
        picked L' l i /\
        forall j it, (j < i)%nat -> iterations L' !! j = Some it -> idle it
    | StopIteration =>
        n' = 0%nat /\
        length (iterations L') = (length (iterations L) + n)%nat /\
        Forall idle (iterations L')
    | Error _ => True
    end.
Proof.
  intros Hnew. induction n as [|n IH]; intros L L' n' r Hall; simpl.
  all: destruct (find_candidate policy gen (seq 0 (length (iterations L))) L)
         as [L1 [l i| |e]] eqn:Hf.
  all: destruct (find_candidate_seq policy gen (length (iterations L)) 0%nat
                   L L1 _ Hall (Nat.le_refl _) Hf) as (Hall1 & Hlen1 & _ & Hr).
  all: try (intros [= <- <- <-]; split; [exact Hall1|];
            first [exact I
                  |destruct Hr as (_ & Hp & Hidle);
                   split; [lia|]; split; [exact Hp|];
                   intros j it Hj; apply Hidle; lia]).
  - intros [= <- <- <-]. split; [exact Hall1|].
    split; [reflexivity|]. split; [lia|].
    apply Forall_forall. intros it Hin.
    apply list_elem_of_lookup_1 in Hin as [j Hj].
    apply (Hr j it); [|exact Hj].
    apply lookup_lt_Some in Hj. simpl. lia.
  - intros H.
    assert (Hall2 : all_wf (mkLearner (iterations L1
                                       ++ [new_iteration (length (iterations L1))])
                              (store L1))).
    { unfold all_wf. simpl. apply Forall_app. split; [exact Hall1|].
      constructor; [apply Hnew|constructor]. }
    destruct (IH _ L' n' r Hall2 H) as (Hall' & Hr').
    split; [exact Hall'|].
    simpl in Hr'. rewrite length_app in Hr'. simpl in Hr'.
    destruct r as [l i| |e]; [| |exact I].
    + destruct Hr' as (Hl & Hp & Hidle). split; [lia|]. split; assumption.
    + destruct Hr' as (Hn & Hl & Hidle). split; [exact Hn|]. split; [lia|].
      exact Hidle.
Qed.

(** For a learner whose brackets are well-formed over the shared store, and
    new brackets that are well-formed over any store (as freshly constructed
    ones are): when the generator yields the candidate [l] and the position
    [i], the bracket at [i] is not finished and [l] is a candidate of its
    dict that is [RUNNING] on the budget of its stage; every bracket before
    [i] is finished or waits for running jobs; and the number of brackets
    has grown by what the counter has lost. *)
Theorem get_next_structure_yields (policy : Policy)
    (new_iteration : nat -> Iteration) (gen : CandidateStructure)
    (n n' : nat) (L L' : Learner) (l i : nat) :
  (forall i h, wf (mkSt (new_iteration i) h)) ->
  all_wf L ->
  _get_next_structure policy new_iteration gen n L = (L', n', Yield l i) ->
  (length (iterations L') + n' = length (iterations L) + n)%nat /\
  picked L' l i /\
  forall j it, (j < i)%nat -> iterations L' !! j = Some it -> idle it.
Proof.
  intros Hnew Hall H.
  exact (proj2 (get_next_structure_spec policy new_iteration gen n Hnew
                  L L' n' (Yield l i) Hall H)).
Qed.

Lemma get_next_structure_yields_witness :
  exists L', picked L' 0 0.
Proof.
  destruct (get_next_structure_yields resampling_default
              (fun i => init (Z.of_nat i) [1] [1%Q] None) demo_candidate
              1 0 (mkLearner [] [])
              (fst (fst (_get_next_structure resampling_default
                           (fun i => init (Z.of_nat i) [1] [1%Q] None)
                           demo_candidate 1 (mkLearner [] []))))
              0 0)
    as (_ & Hp & _).
  - intros i h. apply wf_init.
  - constructor.
  - vm_compute. reflexivity.
  - eexists. exact Hp.
Defined.

(** For a learner whose brackets are well-formed over the shared store, and
    new brackets that are well-formed over any store: the generator stops
    only when its counter is 0, after as many brackets were appended as the
    counter allowed, and then every bracket is finished or waits for running
    jobs. *)
Theorem get_next_structure_stops (policy : Policy)
    (new_iteration : nat -> Iteration) (gen : CandidateStructure)
    (n n' : nat) (L L' : Learner) :
  (forall i h, wf (mkSt (new_iteration i) h)) ->
  all_wf L ->
  _get_next_structure policy new_iteration gen n L = (L', n', StopIteration) ->
  n' = 0%nat /\
  length (iterations L') = (length (iterations L) + n)%nat /\
  Forall idle (iterations L').
Proof.
  intros Hnew Hall H.
  exact (proj2 (get_next_structure_spec policy new_iteration gen n Hnew
                  L L' n' StopIteration Hall H)).
Qed.

Lemma get_next_structure_stops_witness :
  Forall idle (iterations demo_learner).
Proof.
  apply (get_next_structure_stops resampling_default
           (fun i => init (Z.of_nat i) [1] [1%Q] None) demo_candidate
           0 0 demo_learner demo_learner).
  - intros i h. apply wf_init.
  - constructor; [|constructor]. repeat split; simpl.
    + apply NoDup_singleton.
    + apply NoDup_singleton.
    + intros k l [[= <- <-]|[]]. simpl. lia.
  - vm_compute. reflexivity.
Defined.
